(** * bhttp: the request-item grammar, request assembly and response rendering

    A shallow embedding of the latest generation of [http.go] (the one with
    the [request] type and the [=@] / [:=@] file separators), and the
    properties of it that the specification states.

    Go strings are byte sequences: they are modelled by [string], whose
    characters are the bytes.  Runes are [Z].  Go maps are [gmap]s.  The
    functions of the Go library that the program calls are either written
    out (UTF-8 decoding, [url.Values.Encode], the canonical header key) or
    taken from the environment [Env] (files, JSON, [url.Parse],
    [rjson.Indent]).  The only effect that matters to the statements, the
    reading of files, is a state of the paths read so far. *)

From Stdlib Require Import ZArith Ascii String List Sorted Permutation Lia Bool.
From stdpp Require Import gmap strings list fin_maps sorting.

Local Open Scope Z_scope.

(** ** Bytes and strings *)

Definition byte_val (c : ascii) : Z := Z.of_N (N_of_ascii c).
Definition byte_of (z : Z) : ascii := ascii_of_N (Z.to_N (z mod 256)).

(** [s[i:]]; every slice the program takes is within bounds, see
    [parseKeyVal_slices], so what happens beyond the end is never observed. *)
Fixpoint sliceFrom (s : string) (i : nat) {struct i} : string :=
  match i, s with
  | O, _ => s
  | S i', String _ s' => sliceFrom s' i'
  | S _, EmptyString => EmptyString
  end.

(** [s[:i]] *)
Fixpoint sliceTo (s : string) (i : nat) {struct i} : string :=
  match i, s with
  | O, _ => EmptyString
  | S i', String c s' => String c (sliceTo s' i')
  | S _, EmptyString => EmptyString
  end.

(** [strings.HasPrefix(s, prefix)] *)
Definition HasPrefix (s prefix : string) : bool := String.prefix prefix s.

(** [strings.HasSuffix(s, suffix)] *)
Definition HasSuffix (s suffix : string) : bool :=
  (String.length suffix <=? String.length s)%nat &&
  String.eqb (sliceFrom s (String.length s - String.length suffix)) suffix.

(** [strings.TrimSuffix(s, suffix)] *)
Definition TrimSuffix (s suffix : string) : string :=
  if HasSuffix s suffix
  then sliceTo s (String.length s - String.length suffix)
  else s.

(** ** Runes: what [for i, r := range s] and [string(r)] do

    The range loop decodes one UTF-8 sequence per iteration (the runtime's
    [decoderune]); an invalid or truncated sequence yields [RuneError] and
    advances by one byte. *)

Definition rune := Z.

Definition RuneError : rune := 65533.
Definition RuneSelf : Z := 128.
Definition maxRune : rune := 1114111.
Definition surrogateMin : rune := 55296.
Definition surrogateMax : rune := 57343.
Definition rune1Max : rune := 127.
Definition rune2Max : rune := 2047.
Definition rune3Max : rune := 65535.

Definition isCont (c : ascii) : bool := (128 <=? byte_val c) && (byte_val c <=? 191).

(** The rune at the start of a non-empty [s] and its width in bytes. *)
Definition decoderune (s : string) : rune * nat :=
  match s with
  | EmptyString => (RuneError, 1%nat)
  | String c0 t =>
    let b0 := byte_val c0 in
    if b0 <? RuneSelf then (b0, 1%nat)
    else if (192 <=? b0) && (b0 <? 224) then
      match t with
      | String c1 _ =>
        let r := Z.lor (Z.shiftl (Z.land b0 31) 6) (Z.land (byte_val c1) 63) in
        if isCont c1 && (rune1Max <? r) then (r, 2%nat) else (RuneError, 1%nat)
      | _ => (RuneError, 1%nat)
      end
    else if (224 <=? b0) && (b0 <? 240) then
      match t with
      | String c1 (String c2 _) =>
        let r := Z.lor (Z.lor (Z.shiftl (Z.land b0 15) 12)
                              (Z.shiftl (Z.land (byte_val c1) 63) 6))
                       (Z.land (byte_val c2) 63) in
        if isCont c1 && isCont c2 && (rune2Max <? r)
           && negb ((surrogateMin <=? r) && (r <=? surrogateMax))
        then (r, 3%nat) else (RuneError, 1%nat)
      | _ => (RuneError, 1%nat)
      end
    else if (240 <=? b0) && (b0 <? 248) then
      match t with
      | String c1 (String c2 (String c3 _)) =>
        let r := Z.lor (Z.lor (Z.lor (Z.shiftl (Z.land b0 7) 18)
                                     (Z.shiftl (Z.land (byte_val c1) 63) 12))
                              (Z.shiftl (Z.land (byte_val c2) 63) 6))
                       (Z.land (byte_val c3) 63) in
        if isCont c1 && isCont c2 && isCont c3 && (rune3Max <? r) && (r <=? maxRune)
        then (r, 4%nat) else (RuneError, 1%nat)
      | _ => (RuneError, 1%nat)
      end
    else (RuneError, 1%nat)
  end.

(** [string(r)]: the UTF-8 encoding of [r] (the runtime's [encoderune]). *)
Definition encoderune (r : rune) : string :=
  let three (r : rune) :=
    String (byte_of (Z.lor 224 (Z.shiftr r 12)))
      (String (byte_of (Z.lor 128 (Z.land (Z.shiftr r 6) 63)))
        (String (byte_of (Z.lor 128 (Z.land r 63))) EmptyString)) in
  if (0 <=? r) && (r <=? rune1Max) then String (byte_of r) EmptyString
  else if (0 <=? r) && (r <=? rune2Max) then
    String (byte_of (Z.lor 192 (Z.shiftr r 6)))
      (String (byte_of (Z.lor 128 (Z.land r 63))) EmptyString)
  else if (r <? 0) || (maxRune <? r) || ((surrogateMin <=? r) && (r <=? surrogateMax))
  then three RuneError
  else if r <=? rune3Max then three r
  else
    String (byte_of (Z.lor 240 (Z.shiftr r 18)))
      (String (byte_of (Z.lor 128 (Z.land (Z.shiftr r 12) 63)))
        (String (byte_of (Z.lor 128 (Z.land (Z.shiftr r 6) 63)))
          (String (byte_of (Z.lor 128 (Z.land r 63))) EmptyString))).

(** The pairs [(i, r)] that [for i, r := range s] goes through.  [skip]
    counts the bytes still to pass of the sequence decoded last. *)
Fixpoint rangeFrom (s : string) (i skip : nat) : list (nat * rune) :=
  match s with
  | EmptyString => []
  | String _ s' =>
    match skip with
    | S k => rangeFrom s' (S i) k
    | O => let '(r, w) := decoderune s in (i, r) :: rangeFrom s' (S i) (w - 1)
    end
  end.

Definition rangeString (s : string) : list (nat * rune) := rangeFrom s 0 0.

(** ** The request-item grammar *)

Record keyVal := KeyVal { key : string; sep : string; val : string }.

(** The errors of the program, one constructor per place that makes one. *)
Inductive error :=
| errUsage                                 (* "bad usage" *)
| errInvalidURL (arg : string)             (* "invalid URL %q: %v" *)
| errCannotParse (arg : string) (e : error)(* "cannot parse %q: %v" *)
| errEmptyKey                              (* "empty key" *)
| errNoSeparator                           (* "no key-pair separator found" *)
| errSepNotRecognized (sep : string)       (* "key value type separator %q not yet recognized" *)
| errNonStringKey                          (* "cannot specify non-string key unless --json is specified" *)
| errInvalidJSON (key : string)            (* "invalid JSON in key %s: %v" *)
| errReadFile (path : string)              (* the error of ioutil.ReadFile *)
| errStdinWithBody                         (* "cannot read body from stdin when form or JSON body is specified" *)
| errMarshalJSON                           (* "cannot marshal JSON: %v" *)
| errReadStdin                             (* "error reading stdin: %v" *)
| errReadBody.                             (* "failed to read response body: %v" *)

Inductive result (A : Type) :=
| Ok (a : A)
| Err (e : error).
Arguments Ok {A} a.
Arguments Err {A} e.

(** [separators] holds all the possible key-pair separators, most ambiguous first. *)
Definition separators : list string :=
  [ ":=@"   (* raw JSON file *)
  ; ":="    (* raw JSON value *)
  ; ":"     (* HTTP header *)
  ; "=="    (* URL parameter *)
  ; "=@"    (* data field from file *)
  ; "="     (* data field *)
  ; "@"     (* form file field *)
  ].

Definition backslash : rune := 92.

(** The inner loop of [parseKeyVal]: the first separator, in the order of
    the list, that the rest of the string starts with. *)
Definition matchSep (rest : string) (seps : list string) : option string :=
  List.find (HasPrefix rest) seps.
Arguments matchSep : simpl never.

(** The outer loop of [parseKeyVal], over the remaining iterations of
    [range s]. *)
Fixpoint parseLoop (s : string) (its : list (nat * rune))
    (keyBytes : string) (wasBackslash : bool) : result keyVal :=
  match its with
  | [] => Err errNoSeparator
  | (i, r) :: its' =>
    if (r =? backslash) && negb wasBackslash then
      parseLoop s its' keyBytes true
    else if wasBackslash then
      parseLoop s its' (keyBytes +:+ encoderune r) false
    else
      match matchSep (sliceFrom s i) separators with
      | Some sp =>
        if (String.length keyBytes =? 0)%nat then Err errEmptyKey
        else Ok {| key := keyBytes; sep := sp;
                   val := sliceFrom s (i + String.length sp) |}
      | None => parseLoop s its' (keyBytes +:+ encoderune r) false
      end
  end.

Definition parseKeyVal (s : string) : result keyVal :=
  parseLoop s (rangeString s) "" false.

(** ** The escape structure of a token, in the specification's words

    A backslash that is not itself escaped starts an escape; the character
    after it is taken literally.  [wb] says whether an escape is open. *)

Fixpoint unescapeFrom (wb : bool) (rs : list rune) : list rune :=
  match rs with
  | [] => []
  | r :: t =>
    if (r =? backslash) && negb wb then unescapeFrom true t
    else r :: unescapeFrom false t
  end.

Fixpoint pendingFrom (wb : bool) (rs : list rune) : bool :=
  match rs with
  | [] => wb
  | r :: t => pendingFrom ((r =? backslash) && negb wb) t
  end.

(** The positions that are neither an escaping backslash nor escaped. *)
Fixpoint plainFrom (wb : bool) (its : list (nat * rune)) : list nat :=
  match its with
  | [] => []
  | (i, r) :: t =>
    if (r =? backslash) && negb wb then plainFrom true t
    else if wb then plainFrom false t
    else i :: plainFrom false t
  end.

Definition unescape : list rune -> list rune := unescapeFrom false.
Definition pending : list rune -> bool := pendingFrom false.
Definition plainPositions : list (nat * rune) -> list nat := plainFrom false.

Definition runesToString (rs : list rune) : string :=
  fold_right (fun r acc => encoderune r +:+ acc) "" rs.

Definition noSepAt (s : string) (j : nat) : Prop :=
  forall sp, In sp separators -> HasPrefix (sliceFrom s j) sp = false.

(** ** Maps of the request: [http.Header], [url.Values], the JSON object *)

Abbreviation Header := (gmap string (list string)).
Abbreviation Values := (gmap string (list string)).

(** A value of [jsonObj]: a Go string (from [=]) or a [*json.RawMessage]
    (from [:=]). *)
Inductive jsonValue :=
| jsonString (s : string)
| jsonRaw (m : string).

Abbreviation JSONObj := (gmap string jsonValue).

(** [len(m)] of a map *)
Definition len {V : Type} (m : gmap string V) : nat := size m.

(** [m[k]] of a map of slices: nil when the key is absent *)
Definition index (m : gmap string (list string)) (k : string) : list string :=
  default [] (m !! k).

(** [url.Values.Add] *)
Definition Values_Add (v : Values) (k value : string) : Values :=
  <[k := index v k ++ [value]]> v.

(** The bytes of a header field name (RFC 7230 [tchar]):
    net/textproto's [validHeaderFieldByte]. *)
Definition isLower (c : ascii) : bool := (97 <=? byte_val c) && (byte_val c <=? 122).
Definition isUpper (c : ascii) : bool := (65 <=? byte_val c) && (byte_val c <=? 90).
Definition isDigit (c : ascii) : bool := (48 <=? byte_val c) && (byte_val c <=? 57).

Definition validHeaderFieldByte (c : ascii) : bool :=
  isLower c || isUpper c || isDigit c ||
  existsb (Ascii.eqb c) (list_ascii_of_string "!#$%&'*+-.^_`|~").

Fixpoint allBytes (f : ascii -> bool) (s : string) : bool :=
  match s with
  | EmptyString => true
  | String c s' => f c && allBytes f s'
  end.

Definition toUpperByte (c : ascii) : ascii :=
  if isLower c then byte_of (byte_val c - 32) else c.
Definition toLowerByte (c : ascii) : ascii :=
  if isUpper c then byte_of (byte_val c + 32) else c.

(** First letter and every letter after a dash upper case, the others
    lower case. *)
Fixpoint canonicalCase (upper : bool) (s : string) : string :=
  match s with
  | EmptyString => EmptyString
  | String c s' =>
    let c' := if upper then toUpperByte c else toLowerByte c in
    String c' (canonicalCase (Ascii.eqb c' "-") s')
  end.

(** net/textproto's [CanonicalMIMEHeaderKey]: a key with a byte that is
    not valid in a field name is returned unchanged. *)
Definition CanonicalMIMEHeaderKey (s : string) : string :=
  if allBytes validHeaderFieldByte s then canonicalCase true s else s.

(** [http.Header.Add], [Set] and [Get] *)
Definition Header_Add (h : Header) (k value : string) : Header :=
  let k' := CanonicalMIMEHeaderKey k in <[k' := index h k' ++ [value]]> h.

Definition Header_Set (h : Header) (k value : string) : Header :=
  <[CanonicalMIMEHeaderKey k := [value]]> h.

Definition Header_Get (h : Header) (k : string) : string :=
  match index h (CanonicalMIMEHeaderKey k) with
  | [] => ""
  | v :: _ => v
  end.

(** ** [url.Values.Encode] *)

Definition upperhex (n : Z) : ascii :=
  if n <? 10 then byte_of (48 + n) else byte_of (55 + n).

(** net/url's [shouldEscape] in the mode [encodeQueryComponent] *)
Definition shouldEscape (c : ascii) : bool :=
  negb (isLower c || isUpper c || isDigit c ||
        existsb (Ascii.eqb c) (list_ascii_of_string "-_.~")).

Fixpoint QueryEscape (s : string) : string :=
  match s with
  | EmptyString => EmptyString
  | String c s' =>
    if shouldEscape c then
      if Ascii.eqb c " " then String "+" (QueryEscape s')
      else String "%" (String (upperhex (Z.shiftr (byte_val c) 4))
                        (String (upperhex (Z.land (byte_val c) 15)) (QueryEscape s')))
    else String c (QueryEscape s')
  end.

(** [sort.Strings] *)
Definition sortStrings (l : list string) : list string := merge_sort String.le l.

Definition keys {V : Type} (m : gmap string V) : list string := (map_to_list m).*1.

(** One [key=value] written to the buffer of [Encode]. *)
Definition writeField (keyEscaped : string) (buf v : string) : string :=
  (if (0 <? String.length buf)%nat then buf +:+ "&" else buf)
    +:+ keyEscaped +:+ "=" +:+ QueryEscape v.

Definition Encode (v : Values) : string :=
  fold_left (fun buf k => fold_left (writeField (QueryEscape k)) (index v k) buf)
            (sortStrings (keys v)) "".

(** ** What the program takes from outside

    Library functions and the file system, of which the program only uses
    the result. *)
Record URL := mkURL { Scheme : string; Host : string; Path : string; RawQuery : string }.

Class Env := {
  (** [ioutil.ReadFile]: the contents, or [None] for an error *)
  ReadFile : string -> option string;
  (** [json.Unmarshal] into a [json.RawMessage]: the message, or [None]
      when the text is not valid JSON *)
  UnmarshalRaw : string -> option string;
  (** [json.Marshal] of the JSON object *)
  Marshal : JSONObj -> option string;
  (** [url.Parse] *)
  url_Parse : string -> option URL;
  (** [base64.StdEncoding.EncodeToString] *)
  base64 : string -> string;
  (** [mime.ParseMediaType]: the media type *)
  ParseMediaType : string -> option string;
  (** [rjson.Indent] of the data with the given prefix and indent *)
  rjson_Indent : string -> string -> string -> option string
}.

(** ** Reading files

    A computation that may read files and may fail: it takes the paths
    handed to [ioutil.ReadFile] so far and returns them extended. *)
Definition M (A : Type) : Type := list string -> result A * list string.

Definition ret {A : Type} (a : A) : M A := fun reads => (Ok a, reads).
Definition fail {A : Type} (e : error) : M A := fun reads => (Err e, reads).
Definition bind {A B : Type} (m : M A) (f : A -> M B) : M B :=
  fun reads =>
    match m reads with
    | (Ok a, reads') => f a reads'
    | (Err e, reads') => (Err e, reads')
    end.
Definition lift {A : Type} (r : result A) : M A := fun reads => (r, reads).

#[global] Instance M_ret : MRet M := @ret.
#[global] Instance M_bind : MBind M := fun A B f m => bind m f.

Definition readFile `{Env} (path : string) : M string :=
  fun reads =>
    match ReadFile path with
    | Some data => (Ok data, reads ++ [path])
    | None => (Err (errReadFile path), reads ++ [path])
    end.

(** ** Parameters and request *)

(** The values of the flags once [fset.Parse] has returned. *)
Record flagValues := {
  flag_json : bool; flag_form : bool; flag_headers : bool; flag_noBody : bool;
  flag_debug : bool; flag_noBrowser : bool; flag_raw : bool;
  flag_agent : string; flag_auth : string; flag_insecure : bool;
  flag_checkStatus : bool; flag_cookiefile : string; flag_noCookies : bool;
  flag_stdin : bool
}.

Record params := {
  json : bool; form_flag : bool; headers : bool; body : bool; rjson : bool; raw : bool;
  debug : bool; noBrowser : bool; basicAuth : string; cookieFile : string;
  agentFile : string; useStdin : bool; insecure : bool; checkStatus : bool;
  url : URL; method : string; keyVals : list keyVal
}.

Record request := {
  req_url : URL;
  req_method : string;
  header : Header;
  urlValues : Values;
  form : Values;
  jsonObj : JSONObj
}.

Definition set_header (req : request) (h : Header) : request :=
  {| req_url := req_url req; req_method := req_method req; header := h;
     urlValues := urlValues req; form := form req; jsonObj := jsonObj req |}.
Definition set_urlValues (req : request) (v : Values) : request :=
  {| req_url := req_url req; req_method := req_method req; header := header req;
     urlValues := v; form := form req; jsonObj := jsonObj req |}.
Definition set_form (req : request) (v : Values) : request :=
  {| req_url := req_url req; req_method := req_method req; header := header req;
     urlValues := urlValues req; form := v; jsonObj := jsonObj req |}.
Definition set_jsonObj (req : request) (o : JSONObj) : request :=
  {| req_url := req_url req; req_method := req_method req; header := header req;
     urlValues := urlValues req; form := form req; jsonObj := o |}.

(** ** [parseArgs] *)

Definition isDataSendingSep (sp : string) : bool :=
  let sp := TrimSuffix sp "@" in
  String.eqb sp ":=" || String.eqb sp "=" || String.eqb sp "".

Definition isMethod (s : string) : bool :=
  forallb (fun '(_, r) => ((97 <=? r) && (r <=? 122)) || ((65 <=? r) && (r <=? 90)))
          (rangeString s).

(** [strings.ToUpper] on the strings the program applies it to: the ones
    [isMethod] accepts, whose bytes are all ASCII letters. *)
Fixpoint ToUpper (s : string) : string :=
  match s with
  | EmptyString => EmptyString
  | String c s' => String (toUpperByte c) (ToUpper s')
  end.

(** The loop of [parseArgs] over the request items: the method so far, and
    the key-value pairs parsed. *)
Fixpoint parseItems (args : list string) (method : string)
    : result (string * list keyVal) :=
  match args with
  | [] => Ok (method, [])
  | arg :: args' =>
    match parseKeyVal arg with
    | Err e => Err (errCannotParse arg e)
    | Ok kv =>
      let method' :=
        if isDataSendingSep (sep kv) && String.eqb method "" then "POST" else method in
      match parseItems args' method' with
      | Ok (m, kvs) => Ok (m, kv :: kvs)
      | Err e => Err e
      end
    end
  end.

(** The URL argument with the localhost shorthand and the default scheme. *)
Definition expandURL (urlStr : string) : string :=
  let urlStr :=
    if HasPrefix urlStr ":" then
      if HasPrefix urlStr ":/" then "http://localhost" +:+ sliceFrom urlStr 1
      else "http://localhost" +:+ urlStr
    else urlStr in
  if negb (HasPrefix urlStr "http:") && negb (HasPrefix urlStr "https:")
  then "http://" +:+ urlStr else urlStr.

(** [parseArgs] from the point where [fset.Parse] has returned: [fv] holds
    the flag values and [args] is [fset.Args()]. *)
Definition parseArgs `{Env} (fv : flagValues) (args : list string) : result params :=
  match args with
  | [] => Err errUsage
  | a0 :: rest =>
    let '(method0, args1) :=
      if isMethod a0 then (ToUpper a0, rest) else ("", args) in
    match args1 with
    | [] => Err errUsage
    | urlArg :: items =>
      match url_Parse (expandURL urlArg) with
      | None => Err (errInvalidURL urlArg)
      | Some u =>
        let u := if String.eqb (Host u) ""
                 then mkURL (Scheme u) "localhost" (Path u) (RawQuery u) else u in
        match parseItems items method0 with
        | Err e => Err e
        | Ok (m, kvs) =>
          Ok {| json := flag_json fv; form_flag := flag_form fv;
                headers := flag_headers fv; body := negb (flag_noBody fv);
                rjson := false; raw := flag_raw fv; debug := flag_debug fv;
                noBrowser := flag_noBrowser fv; basicAuth := flag_auth fv;
                cookieFile := if flag_noCookies fv then "" else flag_cookiefile fv;
                agentFile := flag_agent fv; useStdin := flag_stdin fv;
                insecure := flag_insecure fv; checkStatus := flag_checkStatus fv;
                url := u;
                method := if String.eqb m "" then "GET" else m;
                keyVals := kvs |}
        end
      end
    end
  end.

(** ** Applying the request items *)

(** key:val *)
Definition httpHeader (req : request) (p : params) (k v : string) : M request :=
  ret (set_header req (Header_Add (header req) k v)).

(** key==val *)
Definition urlParam (req : request) (p : params) (k v : string) : M request :=
  ret (set_urlValues req (Values_Add (urlValues req) k v)).

(** key=val *)
Definition dataString (req : request) (p : params) (k v : string) : M request :=
  if json p then ret (set_jsonObj req (<[k := jsonString v]> (jsonObj req)))
  else ret (set_form req (Values_Add (form req) k v)).

(** key=@val *)
Definition dataStringFile `{Env} (req : request) (p : params) (k v : string) : M request :=
  data ← readFile v;
  dataString req p k data.

(** key:=val *)
Definition jsonOther `{Env} (req : request) (p : params) (k v : string) : M request :=
  if negb (json p) then fail errNonStringKey
  else match UnmarshalRaw v with
       | None => fail (errInvalidJSON k)
       | Some m => ret (set_jsonObj req (<[k := jsonRaw m]> (jsonObj req)))
       end.

(** key:=@file *)
Definition jsonOtherFile `{Env} (req : request) (p : params) (k v : string) : M request :=
  data ← readFile v;
  jsonOther req p k data.

Definition sepFuncs `{Env} (sp : string)
    : option (request -> params -> string -> string -> M request) :=
  if String.eqb sp ":" then Some httpHeader
  else if String.eqb sp "==" then Some urlParam
  else if String.eqb sp "=" then Some dataString
  else if String.eqb sp "=@" then Some dataStringFile
  else if String.eqb sp ":=" then Some jsonOther
  else if String.eqb sp ":=@" then Some jsonOtherFile
  else None.

Definition addKeyVal `{Env} (req : request) (p : params) (kv : keyVal) : M request :=
  match sepFuncs (sep kv) with
  | None => fail (errSepNotRecognized (sep kv))
  | Some f => f req p (key kv) (val kv)
  end.

(** The loop of [newRequest] over [p.keyVals]. *)
Fixpoint addKeyVals `{Env} (req : request) (p : params) (kvs : list keyVal) : M request :=
  match kvs with
  | [] => ret req
  | kv :: kvs' =>
    req' ← addKeyVal req p kv;
    addKeyVals req' p kvs'
  end.

Definition emptyRequest (p : params) : request :=
  {| req_url := url p; req_method := method p; header := ∅;
     urlValues := ∅; form := ∅; jsonObj := ∅ |}.

(** [newRequest], as [parseArgs] from the point where the flags are parsed. *)
Definition newRequest `{Env} (fv : flagValues) (args : list string) : M (request * params) :=
  p ← lift (parseArgs fv args);
  req ← addKeyVals (emptyRequest p) p (keyVals p);
  if useStdin p && ((0 <? len (form req))%nat || (0 <? len (jsonObj req))%nat)
  then fail errStdinWithBody
  else
    let req :=
      if negb (String.eqb (basicAuth p) "")
      then set_header req (Header_Set (header req) "Authorization"
                                      ("Basic " +:+ base64 (basicAuth p)))
      else req in
    let req :=
      if json p && String.eqb (Header_Get (header req) "Content-Type") ""
      then set_header req (Header_Set (header req) "Content-Type" "application/json")
      else req in
    ret (req, p).

(** ** Sending the request *)

Record httpRequest := {
  URL_ : URL; Proto : string; ProtoMajor : Z; ProtoMinor : Z;
  Method : string; Header_ : Header; ContentLength : Z; Body : string
}.

(** [request.do] up to the call of [client.Do]: the request it hands over.
    [stdin] is [None] for a nil reader; reading it gives the data, or
    [None] for an error. *)
Definition do `{Env} (req : request) (stdin : option (option string)) : result httpRequest :=
  let u := req_url req in
  let u :=
    if (0 <? len (urlValues req))%nat then
      let q := if negb (String.eqb (RawQuery u) "") then RawQuery u +:+ "&" else RawQuery u in
      mkURL (Scheme u) (Host u) (Path u) (q +:+ Encode (urlValues req))
    else u in
  let finish (h : Header) (body : string) :=
    Ok {| URL_ := u; Proto := "HTTP/1.1"; ProtoMajor := 1; ProtoMinor := 1;
          Method := req_method req; Header_ := h;
          ContentLength := Z.of_nat (String.length body); Body := body |} in
  if (0 <? len (form req))%nat then
    finish (Header_Set (header req) "Content-Type" "application/x-www-form-urlencoded")
           (Encode (form req))
  else if (0 <? len (jsonObj req))%nat then
    match Marshal (jsonObj req) with
    | None => Err errMarshalJSON
    | Some data => finish (header req) data
    end
  else if negb (String.eqb (req_method req) "GET")
          && negb (String.eqb (req_method req) "HEAD") then
    match stdin with
    | Some (Some data) => finish (header req) data
    | Some None => Err errReadStdin
    | None => finish (header req) ""
    end
  else finish (header req) "".

(** ** Showing the response *)

Record response := {
  resp_Proto : string; Status : string; StatusCode : Z;
  resp_Header : Header;
  (** what reading the body gives, and whether the read ends in an error *)
  resp_Body : string; resp_BodyErr : bool
}.

(** What goes to standard error. *)
Inductive diagnostic :=
| warnResponseCode (status : string)       (* "warning: HTTP response code %s" *)
| warnInvalidContentType (ctype : string)  (* "invalid content type %q in response" *)
| warnCannotPrettyPrint.                   (* "cannot pretty print JSON response: %v" *)

Definition newline : string := String (ascii_of_nat 10) "".
Definition tab : string := String (ascii_of_nat 9) "".

Fixpoint lastByte (s : string) : option ascii :=
  match s with
  | EmptyString => None
  | String c EmptyString => Some c
  | String _ s' => lastByte s'
  end.

Definition printHeaders (h : Header) : string :=
  fold_left (fun out k =>
               fold_left (fun out attr => out +:+ k +:+ ": " +:+ attr +:+ newline)
                         (index h k) out)
            (sortStrings (keys h)) "".

(** The status line and the headers, when they are asked for. *)
Definition headerBlock (p : params) (resp : response) : string :=
  if headers p
  then resp_Proto resp +:+ " " +:+ Status resp +:+ newline
         +:+ printHeaders (resp_Header resp) +:+ newline
  else "".

(** The last step of [showResponse]: a newline is added to data that is
    not empty and does not end in one. *)
Definition endWithNewline (data : string) : string :=
  if (0 <? String.length data)%nat
     && negb (match lastByte data with
              | Some c => Ascii.eqb c (ascii_of_nat 10)
              | None => false
              end)
  then data +:+ newline else data.

(** [showResponse]: what is written to [stdout], what goes to standard
    error, and the error returned. *)
Definition showResponse `{Env} (p : params) (resp : response)
    : string * list diagnostic * result unit :=
  let warn1 :=
    if checkStatus p && negb (Z.quot (StatusCode resp) 100 =? 2)
    then [warnResponseCode (Status resp)] else [] in
  let out := headerBlock p resp in
  if negb (body p) then (out, warn1, Ok tt)
  else
    let ctype := Header_Get (resp_Header resp) "Content-Type" in
    let '(isJSONResp, warn2) :=
      if negb (String.eqb ctype "") then
        match ParseMediaType ctype with
        | None => (false, [warnInvalidContentType ctype])
        | Some mediaType => (String.eqb mediaType "application/json", [])
        end
      else (false, []) in
    if negb isJSONResp || raw p then
      (out +:+ resp_Body resp, warn1 ++ warn2, Ok tt)
    else if resp_BodyErr resp then (out, warn1 ++ warn2, Err errReadBody)
    else
      let data := resp_Body resp in
      match rjson_Indent data "" tab with
      | None => (out +:+ data, warn1 ++ warn2 ++ [warnCannotPrettyPrint], Ok tt)
      | Some indented => (out +:+ endWithNewline indented, warn1 ++ warn2, Ok tt)
      end.

(** ** An environment to run the model on examples

    One file, a few JSON texts, URLs of the shape [http://host/path?query],
    a marshaller that does no escaping, an indenter that leaves the text
    as it is. *)

Fixpoint splitByte (c : ascii) (s : string) : string * option string :=
  match s with
  | EmptyString => (EmptyString, None)
  | String d s' =>
    if Ascii.eqb c d then (EmptyString, Some s')
    else let '(a, b) := splitByte c s' in (String d a, b)
  end.

Definition example_url_Parse (s : string) : option URL :=
  if HasPrefix s "http://" then
    let '(front, query) := splitByte "?" (sliceFrom s 7) in
    let '(host, path) := splitByte "/" front in
    Some (mkURL "http" host
                (match path with Some p => "/" +:+ p | None => "" end)
                (default "" query))
  else None.

Definition quote : string := String (ascii_of_nat 34) "".

Definition example_Marshal (o : JSONObj) : string :=
  "{" +:+
  fold_left (fun buf k =>
               (if (0 <? String.length buf)%nat then buf +:+ "," else buf)
                 +:+ quote +:+ k +:+ quote +:+ ":" +:+
                 match o !! k with
                 | Some (jsonString v) => quote +:+ v +:+ quote
                 | Some (jsonRaw m) => m
                 | None => "null"
                 end)
            (sortStrings (keys o)) ""
  +:+ "}".

Definition exampleEnv : Env := {|
  ReadFile := fun path => if String.eqb path "essay.txt" then Some "an essay" else None;
  UnmarshalRaw := fun v =>
    if existsb (String.eqb v) ["123"; "true"; "[1,2,3]"; "{}"] then Some v else None;
  Marshal := fun o => Some (example_Marshal o);
  url_Parse := example_url_Parse;
  base64 := fun s => s;
  ParseMediaType := fun ctype => Some (fst (splitByte ";" ctype));
  rjson_Indent := fun data _ _ => Some data
|}.

Definition noFlags : flagValues := {|
  flag_json := false; flag_form := false; flag_headers := false; flag_noBody := false;
  flag_debug := false; flag_noBrowser := false; flag_raw := false;
  flag_agent := ""; flag_auth := ""; flag_insecure := false;
  flag_checkStatus := false; flag_cookiefile := ""; flag_noCookies := false;
  flag_stdin := false
|}.

Definition withJSON (fv : flagValues) : flagValues := {|
  flag_json := true; flag_form := flag_form fv; flag_headers := flag_headers fv;
  flag_noBody := flag_noBody fv; flag_debug := flag_debug fv; flag_noBrowser := flag_noBrowser fv;
  flag_raw := flag_raw fv; flag_agent := flag_agent fv; flag_auth := flag_auth fv;
  flag_insecure := flag_insecure fv; flag_checkStatus := flag_checkStatus fv;
  flag_cookiefile := flag_cookiefile fv; flag_noCookies := flag_noCookies fv;
  flag_stdin := flag_stdin fv
|}.

Definition withStdin (fv : flagValues) : flagValues := {|
  flag_json := flag_json fv; flag_form := flag_form fv; flag_headers := flag_headers fv;
  flag_noBody := flag_noBody fv; flag_debug := flag_debug fv; flag_noBrowser := flag_noBrowser fv;
  flag_raw := flag_raw fv; flag_agent := flag_agent fv; flag_auth := flag_auth fv;
  flag_insecure := flag_insecure fv; flag_checkStatus := flag_checkStatus fv;
  flag_cookiefile := flag_cookiefile fv; flag_noCookies := flag_noCookies fv;
  flag_stdin := true
|}.

(** ** Tokens of ASCII characters *)

Definition isASCII (s : string) : bool := allBytes (fun c => byte_val c <? RuneSelf) s.

(** The iterations of [range s] when every byte is a character. *)
Fixpoint bytesFrom (s : string) (i : nat) : list (nat * rune) :=
  match s with
  | EmptyString => []
  | String c s' => (i, byte_val c) :: bytesFrom s' (S i)
  end.

(** The text of a key with the escapes resolved, byte by byte. *)
Fixpoint unescapeBytes (wb : bool) (s : string) : string :=
  match s with
  | EmptyString => EmptyString
  | String c s' =>
    if (byte_val c =? backslash) && negb wb then unescapeBytes true s'
    else String c (unescapeBytes false s')
  end.

(** ** The tables of the tests of the repository *)

(** [testKeys]: the key as written, and the key expected ([None] for the
    error "empty key"). *)
Definition testKeys : list (string * option string) :=
  [ ("x", Some "x"); ("", None); ("foo", Some "foo"); ("hello\:x", Some "hello:x");
    ("\=", Some "="); ("\\", Some "\"); ("\\\\", Some "\\"); ("\:\=", Some ":=") ].

Definition testVals : list string := ["x"; ":"; ""; "x=y"; "foo\"].

Definition testOps : list string := [":"; "=="; "="; ":="; "@"; "=@"; ":=@"].

Definition parsesTo (s : string) (expectKey : option string) (op v : string) : bool :=
  match parseKeyVal s, expectKey with
  | Ok kv, Some k => String.eqb (key kv) k && String.eqb (sep kv) op && String.eqb (val kv) v
  | Err errEmptyKey, None => true
  | _, _ => false
  end.

(** ** Notions of the statements *)

Definition dataSending (kv : keyVal) : bool := isDataSendingSep (sep kv).

(** What one request item does to the request, when it is applied with
    success. *)
Inductive applied `{Env} (p : params) (req : request) (kv : keyVal) : request -> Prop :=
| applied_header :
    sep kv = ":" ->
    applied p req kv (set_header req (Header_Add (header req) (key kv) (val kv)))
| applied_query :
    sep kv = "==" ->
    applied p req kv (set_urlValues req (Values_Add (urlValues req) (key kv) (val kv)))
| applied_form data :
    json p = false ->
    (sep kv = "=" /\ data = val kv) \/ (sep kv = "=@" /\ ReadFile (val kv) = Some data) ->
    applied p req kv (set_form req (Values_Add (form req) (key kv) data))
| applied_json_string data :
    json p = true ->
    (sep kv = "=" /\ data = val kv) \/ (sep kv = "=@" /\ ReadFile (val kv) = Some data) ->
    applied p req kv (set_jsonObj req (<[key kv := jsonString data]> (jsonObj req)))
| applied_json_raw data m :
    json p = true ->
    (sep kv = ":=" /\ data = val kv) \/ (sep kv = ":=@" /\ ReadFile (val kv) = Some data) ->
    UnmarshalRaw data = Some m ->
    applied p req kv (set_jsonObj req (<[key kv := jsonRaw m]> (jsonObj req))).

(** With JSON mode on only the JSON object is written, with JSON mode off
    only the form. *)
Definition bodyMode (p : params) (req : request) : Prop :=
  if json p then form req = ∅ else jsonObj req = ∅.

(** The JSON value that an item with separator [=] or [:=] stores. *)
Definition storedValue `{Env} (sp v : string) : option jsonValue :=
  if String.eqb sp "=" then Some (jsonString v)
  else jsonRaw <$> UnmarshalRaw v.

(** The items whose value is read from a file. *)
Definition fromFile (kv : keyVal) : bool :=
  String.eqb (sep kv) "=@" || String.eqb (sep kv) ":=@".

(** The fields that [Encode] writes, in the order in which it writes
    them: the keys in ascending order, the values of a key in the order
    of its slice. *)
Definition fields (v : Values) : list (string * string) :=
  flat_map (fun k => map (pair k) (index v k)) (sortStrings (keys v)).

Definition encodeFields (fs : list (string * string)) : string :=
  fold_left (fun buf f => writeField (QueryEscape (fst f)) buf (snd f)) fs "".

(** The fields with a given key, in the order of the list. *)
Definition withKey (k : string) (fs : list (string * string)) : list (string * string) :=
  List.filter (fun f => String.eqb (fst f) k) fs.

(** The form field that a request item gives when JSON mode is off. *)
Definition formField `{Env} (kv : keyVal) : option (string * string) :=
  if String.eqb (sep kv) "=" then Some (key kv, val kv)
  else if String.eqb (sep kv) "=@" then pair (key kv) <$> ReadFile (val kv)
  else None.

Definition formFields `{Env} (kvs : list keyVal) : list (string * string) :=
  omap formField kvs.

Definition isNewline (c : ascii) : bool := Ascii.eqb c (ascii_of_nat 10).

(** The number of newlines at the end of a string. *)
Fixpoint trailingNewlines (s : string) : nat :=
  match s with
  | EmptyString => 0%nat
  | String c s' =>
    let n := trailingNewlines s' in
    if isNewline c && (n =? String.length s')%nat then S n else n
  end.

(** ** Parameters, requests and responses of the examples *)

Definition exampleParams (js : bool) : params := {|
  json := js; form_flag := false; headers := false; body := true; rjson := false;
  raw := false;
  debug := false; noBrowser := false; basicAuth := ""; cookieFile := "";
  agentFile := ""; useStdin := false; insecure := false; checkStatus := false;
  url := mkURL "http" "foo.com" "" ""; method := "POST"; keyVals := []
|}.

Definition exampleQueryRequest : request := {|
  req_url := mkURL "http" "foo.com" "/foo" "z=zval"; req_method := "GET"; header := ∅;
  urlValues := Values_Add (Values_Add (Values_Add ∅ "x" "xval1") "y" "yval") "x" "xval2";
  form := ∅; jsonObj := ∅
|}.

Definition jsonResponse (data : string) : response := {|
  resp_Proto := "HTTP/1.1"; Status := "200 OK"; StatusCode := 200;
  resp_Header := Header_Add ∅ "Content-Type" "application/json; charset=utf-8";
  resp_Body := data; resp_BodyErr := false
|}.

Definition withoutBody (p : params) : params := {|
  json := json p; form_flag := form_flag p; headers := headers p; body := false;
  rjson := rjson p; raw := raw p; debug := debug p; noBrowser := noBrowser p; basicAuth := basicAuth p;
  cookieFile := cookieFile p; agentFile := agentFile p; useStdin := useStdin p;
  insecure := insecure p; checkStatus := checkStatus p; url := url p;
  method := method p; keyVals := keyVals p
|}.

(** ** The program: [main] and [main0]

    [main0] from the point where the flags are parsed, as [newRequest].
    What the program meets beyond [Env]: whether [newClient] succeeds for
    the parameters (agents file, cookie jar), the answer of [client.Do] to
    a request ([None] for an error), and what reading [os.Stdin] gives. *)
Record world := {
  newClient_ok : params -> bool;
  client_Do : httpRequest -> option response;
  os_Stdin : option string
}.

(** How [main0] ends. *)
Inductive ending :=
| returnsNil                     (* return nil *)
| exitError (code : Z)           (* return &exitError{code} *)
| requestError (e : error)       (* the error of req.do or of showResponse, masked *)
| cannotDoRequest                (* "cannot do HTTP request: %v" *)
| fatalNewClient.                (* fatalf("cannot make HTTP client: %v", err) *)

Record run := {
  end_ : ending;
  (** the usage message is printed *)
  usage : bool;
  (** the request handed to [client.Do] *)
  sent : option httpRequest;
  stdout : string;
  (** the files read *)
  filesRead : list string
}.

Definition main0 `{Env} (w : world) (fv : flagValues) (args : list string) : run :=
  match newRequest fv args [] with
  | (Err e, reads) =>
    {| end_ := exitError 2;
       usage := match e with errUsage => true | _ => false end;
       sent := None; stdout := ""; filesRead := reads |}
  | (Ok (req, p), reads) =>
    if negb (newClient_ok w p) then
      {| end_ := fatalNewClient; usage := false; sent := None; stdout := "";
         filesRead := reads |}
    else
      let stdin := if useStdin p then Some (os_Stdin w) else None in
      match do req stdin with
      | Err e =>
        {| end_ := requestError e; usage := false; sent := None; stdout := "";
           filesRead := reads |}
      | Ok hr =>
        match client_Do w hr with
        | None =>
          {| end_ := cannotDoRequest; usage := false; sent := Some hr; stdout := "";
             filesRead := reads |}
        | Some resp =>
          let '(out, _, r) := showResponse p resp in
          let ending :=
            match r with
            | Err e => requestError e
            | Ok _ =>
              let statusClass := Z.quot (StatusCode resp) 100 in
              if checkStatus p && negb (statusClass =? 2)
              then exitError statusClass else returnsNil
            end in
          {| end_ := ending; usage := false; sent := Some hr; stdout := out;
             filesRead := reads |}
        end
      end
  end.

(** [main]: the code that the program exits with, the argument of
    [os.Exit], or 0 when [main] returns. *)
Definition exitStatus (e : ending) : Z :=
  match e with
  | returnsNil => 0
  | exitError code => code
  | requestError _ | cannotDoRequest | fatalNewClient => 1
  end.

(** ** The header lines of the debugging output

    A [headerLine] is a pair of a name and a value.  [sort.SliceStable]
    with the order of the names: each line goes before the first line of
    a greater name, so that lines of one name keep their order (the
    insertion sort of package sort; every stable sort gives this list). *)
Fixpoint insertLine (x : string * string) (sorted : list (string * string))
    : list (string * string) :=
  match sorted with
  | [] => [x]
  | y :: rest =>
    if String.ltb (fst x) (fst y) then x :: y :: rest else y :: insertLine x rest
  end.

Definition sortSliceStable (lines : list (string * string)) : list (string * string) :=
  fold_left (fun sorted x => insertLine x sorted) lines [].

(** [sortedHeader]; [order] is the order in which the [range] over the
    map visits the names, which Go leaves open. *)
Definition sortedHeader (order : list string) (h : Header) : list (string * string) :=
  sortSliceStable (flat_map (fun name => map (pair name) (index h name)) order).

(** ** The first version of the program: [unquoteKey]

    The loop over the index [i] of the bytes: a backslash that is not the
    last byte is dropped and the byte after it is taken as it is. *)
Fixpoint unquoteKey (key : string) : string :=
  match key with
  | EmptyString => EmptyString
  | String c rest =>
    match rest with
    | String d rest' =>
      if byte_val c =? backslash then String d (unquoteKey rest')
      else String c (unquoteKey rest)
    | EmptyString => String c EmptyString
    end
  end.

(** ** Notions of the further statements *)

(** The bytes that start a separator. *)
Definition isSepByte (c : ascii) : bool :=
  existsb (Ascii.eqb c) (list_ascii_of_string ":=@").

(** A key written with a backslash before every backslash and every byte
    that starts a separator. *)
Fixpoint escapeKey (k : string) : string :=
  match k with
  | EmptyString => EmptyString
  | String c k' =>
    if isSepByte c || (byte_val c =? backslash)
    then String (byte_of backslash) (String c (escapeKey k'))
    else String c (escapeKey k')
  end.

(** The first byte of a string is neither [=] nor [@]. *)
Definition plainStart (v : string) : bool :=
  match v with
  | EmptyString => true
  | String c _ => negb (Ascii.eqb c "=") && negb (Ascii.eqb c "@")
  end.

(** A byte is an ASCII letter. *)
Definition isLetter (c : ascii) : bool := isLower c || isUpper c.

(** A string with its letters in lower case. *)
Fixpoint lowerCase (s : string) : string :=
  match s with
  | EmptyString => EmptyString
  | String c s' => String (toLowerByte c) (lowerCase s')
  end.

(** The number of occurrences of a byte in a string. *)
Fixpoint countByte (c : ascii) (s : string) : nat :=
  match s with
  | EmptyString => 0%nat
  | String d s' => ((if Ascii.eqb c d then 1 else 0) + countByte c s')%nat
  end.

(** The methods for which [do] sends no data from standard input. *)
Definition noStdinMethod (m : string) : bool := String.eqb m "GET" || String.eqb m "HEAD".

(** One line of [printHeaders]. *)
Definition headerLineText (f : string * string) : string :=
  fst f +:+ ": " +:+ snd f +:+ newline.

Fixpoint concatStrings (l : list string) : string :=
  match l with
  | [] => ""
  | s :: l' => s +:+ concatStrings l'
  end.

(** The response is taken for JSON: its [Content-Type] is not empty and
    parses to the media type [application/json]. *)
Definition isJSONResponse `{Env} (resp : response) : bool :=
  let ctype := Header_Get (resp_Header resp) "Content-Type" in
  negb (String.eqb ctype "")
  && match ParseMediaType ctype with
     | Some mediaType => String.eqb mediaType "application/json"
     | None => false
     end.

(** A response [404] of type JSON whose body cannot be read to its end, and
    a response of type text. *)
Definition brokenResponse : response := {|
  resp_Proto := "HTTP/1.1"; Status := "404 Not Found"; StatusCode := 404;
  resp_Header := Header_Add ∅ "Content-Type" "application/json";
  resp_Body := "{"; resp_BodyErr := true
|}.

Definition textResponse (data : string) : response := {|
  resp_Proto := "HTTP/1.1"; Status := "200 OK"; StatusCode := 200;
  resp_Header := Header_Add ∅ "Content-Type" "text/plain; charset=utf-8";
  resp_Body := data; resp_BodyErr := false
|}.

Definition withCheckStatus (p : params) : params := {|
  json := json p; form_flag := form_flag p; headers := headers p; body := body p;
  rjson := rjson p; raw := raw p; debug := debug p; noBrowser := noBrowser p;
  basicAuth := basicAuth p; cookieFile := cookieFile p; agentFile := agentFile p;
  useStdin := useStdin p; insecure := insecure p; checkStatus := true; url := url p;
  method := method p; keyVals := keyVals p
|}.

(** A world in which the client is made, every request gets the same
    response, and standard input is empty. *)
Definition exampleWorld (resp : response) : world := {|
  newClient_ok := fun _ => true;
  client_Do := fun _ => Some resp;
  os_Stdin := Some ""
|}.

Definition notFoundResponse : response := {|
  resp_Proto := "HTTP/1.1"; Status := "404 Not Found"; StatusCode := 404;
  resp_Header := Header_Add ∅ "Content-Type" "text/plain";
  resp_Body := "not found"; resp_BodyErr := false
|}.

Definition checkStatusFlags : flagValues := {|
  flag_json := false; flag_form := false; flag_headers := false; flag_noBody := false;
  flag_debug := false; flag_noBrowser := false; flag_raw := false;
  flag_agent := ""; flag_auth := ""; flag_insecure := false;
  flag_checkStatus := true; flag_cookiefile := ""; flag_noCookies := false;
  flag_stdin := false
|}.

(** * Properties *)

(** Runs [newRequest] and then [do] with no standard input, and gives the
    parameters, the request and the request sent as witnesses. *)
Ltac run_newRequest t :=
  let r := eval vm_compute in t in
  lazymatch r with
  | (Ok (?req, ?p), _) =>
    exists p, req;
    let h := eval vm_compute in (do (H := exampleEnv) req None) in
    lazymatch h with Ok ?hr => exists hr end
  end.

(** ** The tests of the repository, on the model *)

(** [TestParseArg]: every key, separator and value of the tables. *)
Example TestParseArg :
  forallb (fun '(k, expectKey) =>
    forallb (fun op =>
      forallb (fun v => parsesTo (k +:+ op +:+ v) expectKey op v) testVals)
      testOps)
    testKeys = true.
Proof. vm_compute. reflexivity. Qed.

(** [TestNewRequest], "headers and json values". *)
Example TestNewRequest_headers_and_json_values :
  exists p req,
    newRequest (H := exampleEnv) (withJSON noFlags)
      ["foo.com"; "h1:hval1"; "h2:hval2"; "u1==uval1"; "u2==uval2.1"; "u2==uval2.2";
       "j1=123"; "j2:=123"; "j3="; "j4:=[1,2,3]"] [] = (Ok (req, p), [])
    /\ req_method req = "POST"
    /\ header req = {[ "H1" := ["hval1"]; "H2" := ["hval2"];
                       "Content-Type" := ["application/json"] ]}
    /\ urlValues req = {[ "u1" := ["uval1"]; "u2" := ["uval2.1"; "uval2.2"] ]}
    /\ form req = ∅
    /\ jsonObj req = {[ "j1" := jsonString "123"; "j2" := jsonRaw "123";
                        "j3" := jsonString ""; "j4" := jsonRaw "[1,2,3]" ]}
    /\ req_url req = mkURL "http" "foo.com" "" "".
Proof.
  let r := eval vm_compute in
    (newRequest (H := exampleEnv) (withJSON noFlags)
       ["foo.com"; "h1:hval1"; "h2:hval2"; "u1==uval1"; "u2==uval2.1"; "u2==uval2.2";
        "j1=123"; "j2:=123"; "j3="; "j4:=[1,2,3]"] []) in
  lazymatch r with (Ok (?req, ?p), _) => exists p, req end.
  repeat split; vm_compute; reflexivity.
Qed.

(** [TestNewRequest], "method overriding default POST". *)
Example TestNewRequest_method_overriding :
  exists p, parseArgs (H := exampleEnv) noFlags ["put"; "foo.com"; "j1=123"] = Ok p
    /\ method p = "PUT".
Proof. eexists. split; [vm_compute; reflexivity|reflexivity]. Qed.

(** ** Lemmas on strings *)

Lemma append_cons (c : ascii) (a b : string) :
  String c a +:+ b = String c (a +:+ b).
Proof. reflexivity. Qed.

Lemma append_empty_l (b : string) : "" +:+ b = b.
Proof. reflexivity. Qed.

Lemma append_nil_r (s : string) : s +:+ "" = s.
Proof. induction s; rewrite ?append_cons, ?append_empty_l; congruence. Qed.

Lemma append_assoc (a b c : string) : (a +:+ b) +:+ c = a +:+ (b +:+ c).
Proof. induction a; rewrite ?append_cons, ?append_empty_l; congruence. Qed.

Lemma length_append (a b : string) :
  String.length (a +:+ b) = (String.length a + String.length b)%nat.
Proof. induction a; rewrite ?append_cons, ?append_empty_l; simpl; congruence. Qed.

Lemma sliceFrom_sliceFrom (s : string) (i n : nat) :
  sliceFrom (sliceFrom s i) n = sliceFrom s (i + n).
Proof.
  revert s; induction i as [|i IH]; intros s; simpl; [reflexivity|].
  destruct s; simpl; [destruct n; reflexivity | apply IH].
Qed.

Lemma sliceTo_sliceFrom (s : string) (i : nat) :
  sliceTo s i +:+ sliceFrom s i = s.
Proof.
  revert s; induction i as [|i IH]; intros s; simpl; [reflexivity|].
  destruct s; simpl; [reflexivity | now rewrite append_cons, IH].
Qed.

Lemma HasPrefix_split (rest sp : string) :
  HasPrefix rest sp = true ->
  rest = sp +:+ sliceFrom rest (String.length sp).
Proof.
  unfold HasPrefix. revert rest; induction sp as [|c sp IH]; intros rest H.
  - reflexivity.
  - destruct rest as [|d rest]; simpl in H; [discriminate|].
    destruct (ascii_dec c d) as [->|]; [|discriminate].
    rewrite append_cons. simpl. f_equal. now apply IH.
Qed.

Lemma HasPrefix_length (rest sp : string) :
  HasPrefix rest sp = true -> (String.length sp <= String.length rest)%nat.
Proof.
  intros H. apply HasPrefix_split in H.
  apply (f_equal String.length) in H. rewrite length_append in H. lia.
Qed.

Lemma length_sliceFrom (s : string) (i : nat) :
  String.length (sliceFrom s i) = (String.length s - i)%nat.
Proof.
  revert s; induction i as [|i IH]; intros s; simpl; [lia|].
  destruct s; simpl; [reflexivity | apply IH].
Qed.

Lemma matchSep_Some (rest : string) (seps : list string) (sp : string) :
  matchSep rest seps = Some sp <->
  exists seps1 seps2, seps = seps1 ++ sp :: seps2
    /\ (forall c, In c seps1 -> HasPrefix rest c = false)
    /\ HasPrefix rest sp = true.
Proof.
  unfold matchSep. induction seps as [|c seps IH]; simpl.
  - split; [discriminate|]. intros (l1 & l2 & H & _). now destruct l1.
  - destruct (HasPrefix rest c) eqn:Hc.
    + split.
      * intros [= <-]. exists [], seps. repeat split; [intros ? []|assumption].
      * intros (l1 & l2 & H & Hno & Hsp). destruct l1 as [|c' l1]; simpl in H.
        -- congruence.
        -- injection H as <- _. rewrite (Hno c) in Hc; [discriminate|now left].
    + rewrite IH. split.
      * intros (l1 & l2 & -> & Hno & Hsp). exists (c :: l1), l2.
        repeat split; [|assumption]. intros c' [<-|Hin]; auto.
      * intros (l1 & l2 & H & Hno & Hsp). destruct l1 as [|c' l1]; simpl in H.
        -- injection H as -> _. congruence.
        -- injection H as <- ->. exists l1, l2. repeat split; [|assumption].
           intros ? ?. apply Hno. now right.
Qed.

Lemma matchSep_None (rest : string) (seps : list string) :
  matchSep rest seps = None <->
  forall sp, In sp seps -> HasPrefix rest sp = false.
Proof.
  unfold matchSep. split.
  - intros H sp Hin. eapply find_none in H; eauto.
  - intros H. induction seps as [|c seps IH]; simpl; [reflexivity|].
    rewrite (H c) by now left. apply IH. intros ? ?. apply H. now right.
Qed.

(** ** The scan of [parseKeyVal] against the escape structure *)

Lemma parseLoop_sound (s : string) (its : list (nat * rune)) :
  forall key0 wb kv,
  parseLoop s its key0 wb = Ok kv ->
  exists l1 i r l2,
    its = l1 ++ (i, r) :: l2
    /\ pendingFrom wb (map snd l1) = false
    /\ (r =? backslash) = false
    /\ Forall (noSepAt s) (plainFrom wb l1)
    /\ matchSep (sliceFrom s i) separators = Some (sep kv)
    /\ key kv = key0 +:+ runesToString (unescapeFrom wb (map snd l1))
    /\ key kv <> ""
    /\ val kv = sliceFrom s (i + String.length (sep kv)).
Proof.
  induction its as [|[i r] its IH]; intros key0 wb kv H; simpl in H.
  - discriminate.
  - destruct wb, (r =? backslash) eqn:Hr; simpl in H.
    + apply IH in H as (l1 & j & r' & l2 & -> & Hp & Hr' & Hn & Hm & Hk & Hne & Hv).
      exists ((i, r) :: l1), j, r', l2. simpl. rewrite Hr. simpl.
      rewrite <- append_assoc. auto 10.
    + apply IH in H as (l1 & j & r' & l2 & -> & Hp & Hr' & Hn & Hm & Hk & Hne & Hv).
      exists ((i, r) :: l1), j, r', l2. simpl. rewrite Hr. simpl.
      rewrite <- append_assoc. auto 10.
    + apply IH in H as (l1 & j & r' & l2 & -> & Hp & Hr' & Hn & Hm & Hk & Hne & Hv).
      exists ((i, r) :: l1), j, r', l2. simpl. rewrite Hr. simpl. auto 10.
    + destruct (matchSep (sliceFrom s i) separators) as [sp|] eqn:Hm.
      * destruct (String.length key0 =? 0)%nat eqn:Hlen; [discriminate|].
        injection H as <-. exists [], i, r, its. simpl.
        rewrite append_nil_r. repeat split; auto.
        intros ->. discriminate.
      * apply IH in H as (l1 & j & r' & l2 & -> & Hp & Hr' & Hn & Hm' & Hk & Hne & Hv).
        exists ((i, r) :: l1), j, r', l2. simpl. rewrite Hr. simpl.
        rewrite <- append_assoc. repeat split; auto.
        constructor; [|assumption]. unfold noSepAt. now apply matchSep_None.
Qed.

Lemma parseLoop_complete (s : string) (l1 : list (nat * rune)) :
  forall key0 wb i r l2 sp,
  pendingFrom wb (map snd l1) = false ->
  (r =? backslash) = false ->
  Forall (noSepAt s) (plainFrom wb l1) ->
  matchSep (sliceFrom s i) separators = Some sp ->
  parseLoop s (l1 ++ (i, r) :: l2) key0 wb =
    let k := key0 +:+ runesToString (unescapeFrom wb (map snd l1)) in
    if (String.length k =? 0)%nat then Err errEmptyKey
    else Ok {| key := k; sep := sp; val := sliceFrom s (i + String.length sp) |}.
Proof.
  induction l1 as [|[j q] l1 IH]; intros key0 wb i r l2 sp Hp Hr Hn Hm; simpl in *.
  - subst wb. rewrite Hr. simpl. rewrite Hm, append_nil_r. reflexivity.
  - destruct wb, (q =? backslash) eqn:Hq; simpl in *.
    + rewrite (IH _ false i r l2 sp); auto. now rewrite append_assoc.
    + rewrite (IH _ false i r l2 sp); auto. now rewrite append_assoc.
    + now apply IH.
    + inversion Hn as [|? ? Hj Hn']; subst.
      unfold noSepAt in Hj. apply matchSep_None in Hj. rewrite Hj.
      rewrite (IH _ false i r l2 sp); auto. now rewrite append_assoc.
Qed.

Lemma parseLoop_no_match (s : string) (its : list (nat * rune)) :
  forall key0 wb,
  Forall (noSepAt s) (plainFrom wb its) ->
  parseLoop s its key0 wb = Err errNoSeparator.
Proof.
  induction its as [|[j q] its IH]; intros key0 wb Hn; simpl in *; [reflexivity|].
  destruct wb, (q =? backslash) eqn:Hq; simpl in *; try now apply IH.
  inversion Hn as [|? ? Hj Hn']; subst.
  unfold noSepAt in Hj. apply matchSep_None in Hj. rewrite Hj. now apply IH.
Qed.

Lemma plainFrom_app (wb : bool) (l1 l2 : list (nat * rune)) :
  plainFrom wb (l1 ++ l2) =
  plainFrom wb l1 ++ plainFrom (pendingFrom wb (map snd l1)) l2.
Proof.
  revert wb; induction l1 as [|[i r] l1 IH]; intros wb; simpl; [reflexivity|].
  destruct wb, (r =? backslash) eqn:Hr; simpl; rewrite IH; reflexivity.
Qed.

Lemma separators_nonempty (sp : string) :
  In sp separators -> (1 <= String.length sp)%nat.
Proof.
  unfold separators; simpl.
  intros [<-|[<-|[<-|[<-|[<-|[<-|[<-|[]]]]]]]]; simpl; lia.
Qed.

Lemma matchSep_In (rest sp : string) (seps : list string) :
  matchSep rest seps = Some sp -> In sp seps /\ HasPrefix rest sp = true.
Proof.
  intros (l1 & l2 & -> & _ & Hp)%matchSep_Some. split; [|assumption].
  apply in_or_app. right. now left.
Qed.

(** The slices [s[i:]] and [s[i+len(sep):]] of [parseKeyVal] are within
    the string. *)
Lemma parseKeyVal_slices (s : string) (kv : keyVal) :
  parseKeyVal s = Ok kv ->
  exists i, val kv = sliceFrom s (i + String.length (sep kv))
    /\ (i + String.length (sep kv) <= String.length s)%nat.
Proof.
  intros (l1 & i & r & l2 & _ & _ & _ & _ & Hm & _ & _ & Hv)%parseLoop_sound.
  exists i. split; [assumption|].
  apply matchSep_In in Hm as [Hin Hp].
  apply separators_nonempty in Hin. apply HasPrefix_length in Hp.
  rewrite length_sliceFrom in Hp. lia.
Qed.

Lemma plainPositions_split (l1 l2 : list (nat * rune)) (i : nat) (r : rune) :
  pending (map snd l1) = false ->
  (r =? backslash) = false ->
  plainPositions (l1 ++ (i, r) :: l2) = plainPositions l1 ++ i :: plainPositions l2.
Proof.
  intros Hp Hr. unfold plainPositions, pending in *.
  rewrite plainFrom_app, Hp. simpl. now rewrite Hr.
Qed.

(** ** The separator of a request item *)

(** C3. [parseKeyVal] tests the rest of the string at every position that
    is neither an escaping backslash nor escaped, against the separators
    in the order [:=@], [:=], [:], [==], [=@], [=], [@]; the match at the
    leftmost such position, by the first separator of the list that
    matches there, gives the separator of the result.  So ["k:=@v"] has
    separator [:=@] and ["k==v"] has separator [==]. *)
Theorem parseKeyVal_first_match :
  separators = [":=@"; ":="; ":"; "=="; "=@"; "="; "@"]
  /\ (forall s kv, parseKeyVal s = Ok kv ->
       exists l1 i r l2 seps1 seps2,
         rangeString s = l1 ++ (i, r) :: l2
         /\ plainPositions (rangeString s) = plainPositions l1 ++ i :: plainPositions l2
         /\ Forall (noSepAt s) (plainPositions l1)
         /\ separators = seps1 ++ sep kv :: seps2
         /\ (forall c, In c seps1 -> HasPrefix (sliceFrom s i) c = false)
         /\ HasPrefix (sliceFrom s i) (sep kv) = true
         /\ val kv = sliceFrom s (i + String.length (sep kv)))
  /\ (forall s l1 i r l2 seps1 sp seps2,
       rangeString s = l1 ++ (i, r) :: l2 ->
       pending (map snd l1) = false ->
       r <> backslash ->
       Forall (noSepAt s) (plainPositions l1) ->
       separators = seps1 ++ sp :: seps2 ->
       (forall c, In c seps1 -> HasPrefix (sliceFrom s i) c = false) ->
       HasPrefix (sliceFrom s i) sp = true ->
       parseKeyVal s = Err errEmptyKey
       \/ exists k, parseKeyVal s = Ok (KeyVal k sp (sliceFrom s (i + String.length sp))))
  /\ parseKeyVal "k:=@v" = Ok (KeyVal "k" ":=@" "v")
  /\ parseKeyVal "k==v" = Ok (KeyVal "k" "==" "v").
Proof.
  split; [reflexivity|]. split; [|split; [|split; vm_compute; reflexivity]].
  - intros s kv H. unfold parseKeyVal in H.
    apply parseLoop_sound in H as (l1 & i & r & l2 & Hr & Hp & Hb & Hn & Hm & _ & _ & Hv).
    apply matchSep_Some in Hm as (seps1 & seps2 & Hs & Hno & Hsp).
    exists l1, i, r, l2, seps1, seps2. rewrite Hr.
    repeat split; auto. now apply plainPositions_split.
  - intros s l1 i r l2 seps1 sp seps2 Hr Hp Hb Hn Hs Hno Hsp.
    unfold parseKeyVal. rewrite Hr.
    assert (Hm : matchSep (sliceFrom s i) separators = Some sp)
      by (apply matchSep_Some; eauto 6).
    apply Z.eqb_neq in Hb.
    pose proof (parseLoop_complete s l1 "" false i r l2 sp Hp Hb Hn Hm) as X.
    cbv zeta in X. destruct (String.length _ =? 0)%nat in X; eauto.
Qed.

(** The separator of ["k:=@v"], from the rule: it is the first separator
    of the list that the rest of the string starts with at position 1. *)
Lemma parseKeyVal_first_match_witness :
  parseKeyVal "k:=@v" = Ok (KeyVal "k" ":=@" "v")
  /\ exists l1 i r l2 seps1 seps2,
       rangeString "k:=@v" = l1 ++ (i, r) :: l2
       /\ plainPositions (rangeString "k:=@v") = plainPositions l1 ++ i :: plainPositions l2
       /\ Forall (noSepAt "k:=@v") (plainPositions l1)
       /\ separators = seps1 ++ ":=@" :: seps2
       /\ (forall c, In c seps1 -> HasPrefix (sliceFrom "k:=@v" i) c = false)
       /\ HasPrefix (sliceFrom "k:=@v" i) ":=@" = true
       /\ "v" = sliceFrom "k:=@v" (i + String.length ":=@").
Proof.
  split; [vm_compute; reflexivity|].
  apply (proj1 (proj2 parseKeyVal_first_match) "k:=@v" (KeyVal "k" ":=@" "v")).
  vm_compute; reflexivity.
Defined.

(** ** Escapes in the key *)

Lemma byte_of_byte_val (c : ascii) : byte_of (byte_val c) = c.
Proof.
  unfold byte_of, byte_val.
  pose proof (N_ascii_bounded c) as Hb.
  rewrite Z.mod_small by lia. rewrite N2Z.id. apply ascii_N_embedding.
Qed.

Lemma byte_val_range (c : ascii) : 0 <= byte_val c < 256.
Proof. unfold byte_val. pose proof (N_ascii_bounded c). lia. Qed.

Lemma encoderune_ascii (c : ascii) :
  (byte_val c <? RuneSelf) = true -> encoderune (byte_val c) = String c "".
Proof.
  intros Hc. apply Z.ltb_lt in Hc. unfold RuneSelf in Hc.
  pose proof (byte_val_range c) as Hr. unfold encoderune, rune1Max.
  assert ((0 <=? byte_val c) && (byte_val c <=? 127) = true) as ->.
  { apply andb_true_iff. split; apply Z.leb_le; lia. }
  now rewrite byte_of_byte_val.
Qed.

Lemma rangeFrom_ascii (s : string) :
  forall i, isASCII s = true -> rangeFrom s i 0 = bytesFrom s i.
Proof.
  induction s as [|c s IH]; intros i Ha; [reflexivity|].
  simpl in Ha. apply andb_true_iff in Ha as [Hc Ha].
  simpl. rewrite Hc. simpl. now rewrite IH.
Qed.

Lemma bytesFrom_split (s : string) :
  forall o l1 i r l2,
  bytesFrom s o = l1 ++ (i, r) :: l2 ->
  (o <= i)%nat /\ l1 = bytesFrom (sliceTo s (i - o)) o.
Proof.
  induction s as [|c s IH]; intros o l1 i r l2 H; simpl in H.
  - now destruct l1.
  - destruct l1 as [|x l1]; simpl in H.
    + injection H as <- _ _. split; [lia|]. now rewrite Nat.sub_diag.
    + injection H as <- H. apply IH in H as [Hle ->].
      split; [lia|]. replace (i - o)%nat with (S (i - S o)) by lia. reflexivity.
Qed.

Lemma isASCII_sliceTo (s : string) (i : nat) :
  isASCII s = true -> isASCII (sliceTo s i) = true.
Proof.
  unfold isASCII. generalize (fun c : ascii => byte_val c <? RuneSelf). intros f.
  revert s; induction i as [|i IH]; intros s Ha; [reflexivity|].
  destruct s as [|c s]; [reflexivity|].
  simpl in *. apply andb_true_iff in Ha as [Hc Ha]. rewrite Hc. now apply IH.
Qed.

Lemma unescape_bytes (s : string) :
  forall wb o, isASCII s = true ->
  runesToString (unescapeFrom wb (map snd (bytesFrom s o))) = unescapeBytes wb s.
Proof.
  induction s as [|c s IH]; intros wb o Ha; [reflexivity|].
  simpl in Ha. apply andb_true_iff in Ha as [Hc Ha]. simpl.
  destruct ((byte_val c =? backslash) && negb wb).
  - now apply IH.
  - simpl. rewrite encoderune_ascii by assumption.
    rewrite append_cons, append_empty_l. f_equal. now apply IH.
Qed.

(** C9. A backslash that is not itself escaped makes the loop take the
    next character, as the range loop decodes it, into the key as it is,
    without testing the separators there; the key of the result is the
    text before the separator with the escapes resolved, and the value is
    the rest of the token after the separator, unchanged.  For a token of
    ASCII characters the key is that text, byte by byte, without the
    escaping backslashes.  So ["a\:b=c"] has key [a:b], separator [=] and
    value [c]. *)
Theorem parseKeyVal_escape :
  (forall s i j r its keyBytes,
     parseLoop s ((i, backslash) :: (j, r) :: its) keyBytes false =
     parseLoop s its (keyBytes +:+ encoderune r) false)
  /\ (forall s kv, parseKeyVal s = Ok kv ->
       exists l1 i r l2,
         rangeString s = l1 ++ (i, r) :: l2
         /\ pending (map snd l1) = false
         /\ key kv = runesToString (unescape (map snd l1))
         /\ s = sliceTo s i +:+ sep kv +:+ val kv)
  /\ (forall s kv, isASCII s = true -> parseKeyVal s = Ok kv ->
       exists i,
         key kv = unescapeBytes false (sliceTo s i)
         /\ s = sliceTo s i +:+ sep kv +:+ val kv)
  /\ parseKeyVal "a\:b=c" = Ok (KeyVal "a:b" "=" "c").
Proof.
  assert (Hgen : forall s kv, parseKeyVal s = Ok kv ->
       exists l1 i r l2,
         rangeString s = l1 ++ (i, r) :: l2
         /\ pending (map snd l1) = false
         /\ key kv = runesToString (unescape (map snd l1))
         /\ s = sliceTo s i +:+ sep kv +:+ val kv).
  { intros s kv H. unfold parseKeyVal in H.
    apply parseLoop_sound in H as (l1 & i & r & l2 & Hr & Hp & _ & _ & Hm & Hk & _ & Hv).
    exists l1, i, r, l2. repeat split; auto.
    apply matchSep_In in Hm as [_ Hsp]. apply HasPrefix_split in Hsp.
    rewrite sliceFrom_sliceFrom in Hsp. rewrite Hv, <- Hsp.
    symmetry. apply sliceTo_sliceFrom. }
  split; [|split; [exact Hgen|split; [|vm_compute; reflexivity]]].
  - intros s i j r its keyBytes. simpl.
    now rewrite andb_false_r.
  - intros s kv Ha H.
    destruct (Hgen s kv H) as (l1 & i & r & l2 & Hr & _ & Hk & Hs).
    exists i. split; [|assumption].
    unfold rangeString in Hr. rewrite rangeFrom_ascii in Hr by assumption.
    apply bytesFrom_split in Hr as [_ ->]. rewrite Nat.sub_0_r in Hk.
    rewrite Hk. unfold unescape. apply unescape_bytes. now apply isASCII_sliceTo.
Qed.

(** The rule at ["a\:b=c"]: the text before the separator is [a\:b], of
    which the key is the unescaped form. *)
Lemma parseKeyVal_escape_witness :
  isASCII "a\:b=c" = true
  /\ parseKeyVal "a\:b=c" = Ok (KeyVal "a:b" "=" "c")
  /\ exists i,
       "a:b" = unescapeBytes false (sliceTo "a\:b=c" i)
       /\ "a\:b=c" = sliceTo "a\:b=c" i +:+ "=" +:+ "c".
Proof.
  split; [vm_compute; reflexivity|]. split; [vm_compute; reflexivity|].
  apply (proj1 (proj2 (proj2 parseKeyVal_escape)) "a\:b=c" (KeyVal "a:b" "=" "c"));
    vm_compute; reflexivity.
Defined.

(** ** The method inferred by [parseArgs] *)

Lemma parseKeyVal_sep (s : string) (kv : keyVal) :
  parseKeyVal s = Ok kv -> In (sep kv) separators.
Proof.
  intros (l1 & i & r & l2 & _ & _ & _ & _ & Hm & _)%parseLoop_sound.
  now apply matchSep_In in Hm.
Qed.

Lemma isDataSendingSep_spec (sp : string) :
  In sp separators ->
  isDataSendingSep sp = true <-> In sp ["="; ":="; "=@"; ":=@"; "@"].
Proof.
  unfold separators; simpl.
  intros [<-|[<-|[<-|[<-|[<-|[<-|[<-|[]]]]]]]]; split; intros H;
    try reflexivity; try (vm_compute in H; discriminate); simpl; auto 10;
    repeat (destruct H as [H|H]; [discriminate H|]); destruct H.
Qed.

Lemma parseItems_spec (args : list string) :
  forall m m' kvs,
  parseItems args m = Ok (m', kvs) ->
  Forall2 (fun a kv => parseKeyVal a = Ok kv) args kvs
  /\ m' = if String.eqb m "" then (if existsb dataSending kvs then "POST" else "") else m.
Proof.
  induction args as [|arg args IH]; intros m m' kvs H; simpl in H.
  - injection H as <- <-. split; [constructor|]. simpl. now destruct (String.eqb_spec m "").
  - destruct (parseKeyVal arg) as [kv|] eqn:Hkv; [|discriminate].
    destruct (parseItems args _) as [[m1 kvs1]|] eqn:Hrec; [|discriminate].
    injection H as <- <-. apply IH in Hrec as [Hall ->].
    split; [now constructor|]. simpl. unfold dataSending at 2.
    destruct (isDataSendingSep (sep kv)), (String.eqb m "") eqn:E;
      simpl; rewrite ?E; reflexivity.
Qed.

Section Inference.
Context `{Env}.

Lemma parseArgs_no_method (fv : flagValues) (urlArg : string) (items : list string)
    (p : params) :
  isMethod urlArg = false ->
  parseArgs fv (urlArg :: items) = Ok p ->
  exists m, parseItems items "" = Ok (m, keyVals p)
    /\ method p = if String.eqb m "" then "GET" else m.
Proof.
  intros Hm Hp. unfold parseArgs in Hp. rewrite Hm in Hp.
  destruct (url_Parse (expandURL urlArg)); [|discriminate].
  destruct (parseItems items "") as [[m kvs]|]; [|discriminate].
  injection Hp as <-. simpl. eauto.
Qed.

Lemma parseArgs_method (fv : flagValues) (urlArg : string) (items : list string)
    (p : params) :
  isMethod urlArg = false ->
  parseArgs fv (urlArg :: items) = Ok p ->
  Forall2 (fun a kv => parseKeyVal a = Ok kv) items (keyVals p)
  /\ method p = if existsb dataSending (keyVals p) then "POST" else "GET".
Proof.
  intros Hm Hp.
  destruct (parseArgs_no_method fv urlArg items p Hm Hp) as (m & Hitems & Hmeth).
  apply parseItems_spec in Hitems as [Hall ->]. simpl in Hmeth.
  split; [assumption|]. rewrite Hmeth. now destruct (existsb dataSending (keyVals p)).
Qed.

Lemma keyVals_separators (items : list string) (kvs : list keyVal) :
  Forall2 (fun a kv => parseKeyVal a = Ok kv) items kvs ->
  forall kv, In kv kvs -> In (sep kv) separators.
Proof.
  intros Hall kv Hin. apply list_elem_of_In, list_elem_of_lookup in Hin as [j Hj].
  destruct (Forall2_lookup_r _ _ _ _ _ Hall Hj) as (a & _ & Ha).
  now apply parseKeyVal_sep in Ha.
Qed.

(** C2, as the code has it.  When the first argument is not a method, the
    method that [parseArgs] infers is [POST] exactly when some request item
    has one of the separators [=], [:=], [=@], [:=@] or [@], and [GET]
    otherwise; the separators [:] and [==] are not data sending. *)
Theorem parseArgs_infers_method (fv : flagValues) (urlArg : string)
    (items : list string) (p : params) :
  isMethod urlArg = false ->
  parseArgs fv (urlArg :: items) = Ok p ->
  Forall2 (fun a kv => parseKeyVal a = Ok kv) items (keyVals p)
  /\ (method p = "POST" <->
      exists kv, In kv (keyVals p) /\ In (sep kv) ["="; ":="; "=@"; ":=@"; "@"])
  /\ (method p = "GET" <->
      forall kv, In kv (keyVals p) -> In (sep kv) [":"; "=="])
  /\ isDataSendingSep ":" = false /\ isDataSendingSep "==" = false.
Proof.
  intros Hm Hp.
  destruct (parseArgs_method fv urlArg items p Hm Hp) as [Hall Hmeth].
  pose proof (keyVals_separators items (keyVals p) Hall) as Hseps.
  split; [assumption|].
  destruct (existsb dataSending (keyVals p)) eqn:Hex; rewrite Hmeth.
  - apply existsb_exists in Hex as (kv & Hin & Hd).
    split; [|split; [|split; reflexivity]].
    + split; [intros _|reflexivity]. exists kv. split; [assumption|].
      apply isDataSendingSep_spec; auto.
    + split; [discriminate|]. intros Hall'. exfalso.
      specialize (Hall' kv Hin). unfold dataSending in Hd.
      destruct Hall' as [E|[E|[]]]; rewrite <- E in Hd; discriminate Hd.
  - split; [|split; [|split; reflexivity]].
    + split; [discriminate|]. intros (kv & Hin & Hsp). exfalso.
      apply isDataSendingSep_spec in Hsp; auto.
      assert (existsb dataSending (keyVals p) = true)
        by (apply existsb_exists; exists kv; auto).
      congruence.
    + split; [intros _|reflexivity]. intros kv Hin.
      assert (Hd : isDataSendingSep (sep kv) = false).
      { destruct (isDataSendingSep (sep kv)) eqn:E; [|reflexivity].
        assert (existsb dataSending (keyVals p) = true)
          by (apply existsb_exists; exists kv; auto).
        congruence. }
      specialize (Hseps kv Hin). unfold separators in Hseps. simpl in Hseps.
      destruct Hseps as [E|[E|[E|[E|[E|[E|[E|[]]]]]]]]; rewrite <- E in *;
        simpl; auto; discriminate Hd.
Qed.

End Inference.

(** With no method given, a URL and the items [h:1] [q==2] [j=3]: the
    method is [POST], by the item [j=3]. *)
Lemma parseArgs_infers_method_witness :
  exists p,
    isMethod "foo.com" = false
    /\ parseArgs (H := exampleEnv) noFlags ["foo.com"; "h:1"; "q==2"; "j=3"] = Ok p
    /\ (method p = "POST" <->
        exists kv, In kv (keyVals p) /\ In (sep kv) ["="; ":="; "=@"; ":=@"; "@"]).
Proof.
  eexists. split; [reflexivity|]. split; [vm_compute; reflexivity|].
  apply (parseArgs_infers_method (H := exampleEnv) noFlags "foo.com" ["h:1"; "q==2"; "j=3"]);
    vm_compute; reflexivity.
Defined.

(** C2 as stated fails for the form-file separator [@]: with no method
    given and the one item [cs@f], [parseArgs] infers [POST], and no item
    has one of the separators [=], [:=], [=@], [:=@]. *)
Lemma parseArgs_at_sign_infers_POST :
  isMethod "foo.com" = false
  /\ exists p,
       parseArgs (H := exampleEnv) noFlags ["foo.com"; "cs@f"] = Ok p
       /\ keyVals p = [KeyVal "cs" "@" "f"]
       /\ method p = "POST"
       /\ ~ exists kv, In kv (keyVals p) /\ In (sep kv) ["="; ":="; "=@"; ":=@"].
Proof.
  split; [reflexivity|]. eexists. split; [vm_compute; reflexivity|].
  split; [reflexivity|]. split; [reflexivity|].
  simpl. intros (kv & [<-|[]] & Hsp). simpl in Hsp.
  repeat (destruct Hsp as [Hsp|Hsp]; [discriminate Hsp|]). destruct Hsp.
Qed.

(** ** The maps of the request under the request items *)

Lemma bind_Ok {A B : Type} (m : M A) (f : A -> M B) (reads reads' : list string) (b : B) :
  (m ≫= f) reads = (Ok b, reads') ->
  exists a r1, m reads = (Ok a, r1) /\ f a r1 = (Ok b, reads').
Proof.
  unfold mbind, M_bind, bind. destruct (m reads) as [[a|e] r1]; [eauto|discriminate].
Qed.

Lemma ret_Ok {A : Type} (a b : A) (reads reads' : list string) :
  ret a reads = (Ok b, reads') -> a = b /\ reads = reads'.
Proof. unfold ret. now intros [= -> ->]. Qed.

Lemma readFile_Ok `{Env} (path data : string) (reads reads' : list string) :
  readFile path reads = (Ok data, reads') ->
  ReadFile path = Some data /\ reads' = reads ++ [path].
Proof. unfold readFile. destruct (ReadFile path); now intros [= <- <-]. Qed.

Lemma sepFuncs_cases `{Env} (sp : string) :
  (sp = ":" /\ sepFuncs sp = Some httpHeader)
  \/ (sp = "==" /\ sepFuncs sp = Some urlParam)
  \/ (sp = "=" /\ sepFuncs sp = Some dataString)
  \/ (sp = "=@" /\ sepFuncs sp = Some dataStringFile)
  \/ (sp = ":=" /\ sepFuncs sp = Some jsonOther)
  \/ (sp = ":=@" /\ sepFuncs sp = Some jsonOtherFile)
  \/ sepFuncs sp = None.
Proof.
  unfold sepFuncs.
  repeat (destruct (String.eqb sp _) eqn:E;
          [apply String.eqb_eq in E; auto 10|clear E]).
  auto 10.
Qed.

Section Items.
Context `{Env}.

Lemma dataString_Ok (p : params) (req req' : request) (k v : string)
    (reads reads' : list string) :
  dataString req p k v reads = (Ok req', reads') ->
  reads' = reads
  /\ req' = if json p then set_jsonObj req (<[k := jsonString v]> (jsonObj req))
            else set_form req (Values_Add (form req) k v).
Proof.
  unfold dataString. destruct (json p); now intros [<- <-]%ret_Ok.
Qed.

Lemma jsonOther_Ok (p : params) (req req' : request) (k v : string)
    (reads reads' : list string) :
  jsonOther req p k v reads = (Ok req', reads') ->
  reads' = reads /\ json p = true
  /\ exists m, UnmarshalRaw v = Some m
       /\ req' = set_jsonObj req (<[k := jsonRaw m]> (jsonObj req)).
Proof.
  unfold jsonOther. destruct (json p); simpl; [|discriminate].
  destruct (UnmarshalRaw v) as [m|]; [|discriminate].
  intros [<- <-]%ret_Ok. eauto.
Qed.

Lemma addKeyVal_applied (p : params) (req req' : request) (kv : keyVal)
    (reads reads' : list string) :
  addKeyVal req p kv reads = (Ok req', reads') -> applied p req kv req'.
Proof.
  unfold addKeyVal.
  destruct (sepFuncs_cases (sep kv))
    as [[Hs ->]|[[Hs ->]|[[Hs ->]|[[Hs ->]|[[Hs ->]|[[Hs ->]| ->]]]]]].
  - intros [<- _]%ret_Ok. now constructor.
  - intros [<- _]%ret_Ok. now constructor.
  - intros [_ ->]%dataString_Ok. destruct (json p) eqn:Hj.
    + apply applied_json_string; auto.
    + apply applied_form; auto.
  - intros (data & r1 & [Hf _]%readFile_Ok & [_ ->]%dataString_Ok)%bind_Ok.
    destruct (json p) eqn:Hj.
    + apply applied_json_string; auto.
    + apply applied_form; auto.
  - intros (_ & Hj & m & Hm & ->)%jsonOther_Ok.
    eapply applied_json_raw; eauto.
  - intros (data & r1 & [Hf _]%readFile_Ok & (_ & Hj & m & Hm & ->)%jsonOther_Ok)%bind_Ok.
    eapply applied_json_raw; eauto.
  - discriminate.
Qed.

Lemma applied_bodyMode (p : params) (req req' : request) (kv : keyVal) :
  applied p req kv req' -> bodyMode p req -> bodyMode p req'.
Proof.
  unfold bodyMode. intros Happ. destruct Happ as [?|?|? Hj|? Hj|? ? Hj]; simpl;
    try rewrite Hj; auto.
Qed.

Lemma addKeyVals_bodyMode (p : params) (kvs : list keyVal) :
  forall req req' reads reads',
  addKeyVals req p kvs reads = (Ok req', reads') ->
  bodyMode p req -> bodyMode p req'.
Proof.
  induction kvs as [|kv kvs IH]; intros req req' reads reads' Hrun Hinv; simpl in Hrun.
  - apply ret_Ok in Hrun as [<- _]. assumption.
  - apply bind_Ok in Hrun as (req1 & r1 & Hstep & Hrest).
    eapply IH; [exact Hrest|].
    eapply applied_bodyMode; [|exact Hinv]. eapply addKeyVal_applied; eauto.
Qed.

Lemma bodyMode_exclusive (p : params) (req : request) :
  bodyMode p req -> form req = ∅ \/ jsonObj req = ∅.
Proof. unfold bodyMode. destruct (json p); auto. Qed.

Lemma newRequest_Ok (fv : flagValues) (args : list string) (req : request) (p : params)
    (reads reads' : list string) :
  newRequest fv args reads = (Ok (req, p), reads') ->
  parseArgs fv args = Ok p
  /\ exists req0,
       addKeyVals (emptyRequest p) p (keyVals p) reads = (Ok req0, reads')
       /\ (useStdin p && ((0 <? len (form req0))%nat || (0 <? len (jsonObj req0))%nat)) = false
       /\ urlValues req = urlValues req0 /\ form req = form req0
       /\ jsonObj req = jsonObj req0 /\ req_url req = req_url req0
       /\ req_method req = req_method req0.
Proof.
  unfold newRequest. intros (p' & r1 & Hp & Hrest)%bind_Ok.
  unfold lift in Hp. injection Hp as Hp <-.
  apply bind_Ok in Hrest as (req0 & r2 & Hadd & Hfin).
  destruct (useStdin p' && _) eqn:Hstdin; [discriminate|].
  apply ret_Ok in Hfin as [[= <- <-] <-].
  split; [assumption|]. exists req0. split; [assumption|]. split; [assumption|].
  destruct (negb _), (json p' && _); simpl; auto.
Qed.

(** C8. Within one invocation, that is with the JSON mode fixed by the
    parameters, the form and the JSON object are never both non-empty:
    not after any sequence of request items applied to the empty request,
    and not in the request that [newRequest] returns. *)
Theorem form_and_json_exclusive :
  (forall p kvs req reads reads',
     addKeyVals (emptyRequest p) p kvs reads = (Ok req, reads') ->
     form req = ∅ \/ jsonObj req = ∅)
  /\ (forall fv args req p reads reads',
       newRequest fv args reads = (Ok (req, p), reads') ->
       form req = ∅ \/ jsonObj req = ∅).
Proof.
  assert (Hseq : forall p kvs req reads reads',
            addKeyVals (emptyRequest p) p kvs reads = (Ok req, reads') ->
            form req = ∅ \/ jsonObj req = ∅).
  { intros p kvs req reads reads' Hrun. apply (bodyMode_exclusive p).
    eapply addKeyVals_bodyMode; [exact Hrun|].
    unfold bodyMode. destruct (json p); reflexivity. }
  split; [exact Hseq|].
  intros fv args req p reads reads' (_ & req0 & Hadd & _ & _ & -> & -> & _)%newRequest_Ok.
  eapply Hseq; eauto.
Qed.

(** An item that [addKeyVal] applies has one of the six separators of
    [sepFuncs]: the form-file separator [@] is refused. *)
Lemma applied_separator (p : params) (req req' : request) (kv : keyVal) :
  applied p req kv req' -> In (sep kv) [":"; "=="; "="; "=@"; ":="; ":=@"].
Proof.
  intros [Hs|Hs|? _ [[Hs _]|[Hs _]]|? _ [[Hs _]|[Hs _]]|? ? _ [[Hs _]|[Hs _]] _];
    rewrite Hs; simpl; auto 10.
Qed.

Lemma addKeyVals_separators (p : params) (kvs : list keyVal) :
  forall req req' reads reads',
  addKeyVals req p kvs reads = (Ok req', reads') ->
  forall kv, In kv kvs -> In (sep kv) [":"; "=="; "="; "=@"; ":="; ":=@"].
Proof.
  induction kvs as [|kv0 kvs IH]; intros req req' reads reads' Hrun kv Hin;
    simpl in Hrun; [destruct Hin|].
  apply bind_Ok in Hrun as (req1 & r1 & Hstep & Hrest).
  destruct Hin as [<-|Hin].
  - eapply applied_separator, addKeyVal_applied; eauto.
  - eapply IH; eauto.
Qed.

Lemma addKeyVals_method (p : params) (kvs : list keyVal) :
  forall req req' reads reads',
  addKeyVals req p kvs reads = (Ok req', reads') ->
  req_method req' = req_method req.
Proof.
  induction kvs as [|kv kvs IH]; intros req req' reads reads' Hrun; simpl in Hrun.
  - apply ret_Ok in Hrun as [<- _]. reflexivity.
  - apply bind_Ok in Hrun as (req1 & r1 & Hstep & Hrest).
    rewrite (IH _ _ _ _ Hrest). apply addKeyVal_applied in Hstep.
    now destruct Hstep.
Qed.

(** For the requests that [newRequest] builds, the separators that make
    the method [POST] are [=], [:=], [=@] and [:=@]. *)
Lemma newRequest_infers_method (fv : flagValues) (urlArg : string)
    (items : list string) (req : request) (p : params) (reads reads' : list string) :
  isMethod urlArg = false ->
  newRequest fv (urlArg :: items) reads = (Ok (req, p), reads') ->
  req_method req = method p
  /\ (method p = "POST" <->
      exists kv, In kv (keyVals p) /\ In (sep kv) ["="; ":="; "=@"; ":=@"])
  /\ (method p = "GET" <->
      forall kv, In kv (keyVals p) -> In (sep kv) [":"; "=="]).
Proof.
  intros Hm (Hp & req0 & Hadd & _ & _ & _ & _ & _ & Hmeth)%newRequest_Ok.
  destruct (parseArgs_method fv urlArg items p Hm Hp) as [_ Hinf].
  pose proof (addKeyVals_separators p (keyVals p) _ _ _ _ Hadd) as Hseps.
  assert (Hm0 : req_method req0 = method p)
    by (apply (addKeyVals_method _ _ _ _ _ _ Hadd)).
  split; [congruence|].
  assert (Hcase : forall kv, In kv (keyVals p) ->
            (dataSending kv = true /\ In (sep kv) ["="; ":="; "=@"; ":=@"])
            \/ (dataSending kv = false /\ In (sep kv) [":"; "=="])).
  { intros kv Hin. specialize (Hseps kv Hin). unfold dataSending. simpl in Hseps.
    destruct Hseps as [E|[E|[E|[E|[E|[E|[]]]]]]]; rewrite <- E; simpl; auto 10. }
  destruct (existsb dataSending (keyVals p)) eqn:Hex; rewrite Hinf.
  - apply existsb_exists in Hex as (kv & Hin & Hd). split.
    + split; [intros _|reflexivity]. exists kv. split; [assumption|].
      destruct (Hcase kv Hin) as [[_ ?]|[? _]]; [assumption|congruence].
    + split; [discriminate|]. intros Hall. exfalso.
      destruct (Hcase kv Hin) as [[_ Hs]|[? _]]; [|congruence].
      specialize (Hall kv Hin). simpl in Hs, Hall.
      destruct Hall as [E|[E|[]]]; rewrite <- E in Hs;
        repeat (destruct Hs as [Hs|Hs]; [discriminate Hs|]); destruct Hs.
  - assert (Hno : forall kv, In kv (keyVals p) -> dataSending kv = false).
    { intros kv Hin. destruct (dataSending kv) eqn:E; [|reflexivity].
      assert (existsb dataSending (keyVals p) = true)
        by (apply existsb_exists; exists kv; auto).
      congruence. }
    split.
    + split; [discriminate|]. intros (kv & Hin & Hs). exfalso.
      destruct (Hcase kv Hin) as [[Hd _]|[_ Hs']]; [rewrite Hno in Hd; auto; discriminate|].
      simpl in Hs, Hs'.
      destruct Hs' as [E|[E|[]]]; rewrite <- E in Hs;
        repeat (destruct Hs as [Hs|Hs]; [discriminate Hs|]); destruct Hs.
    + split; [intros _|reflexivity]. intros kv Hin.
      destruct (Hcase kv Hin) as [[Hd _]|[_ ?]]; [|assumption].
      rewrite Hno in Hd; auto; discriminate.
Qed.

End Items.

(** Three items applied with JSON mode on: the form stays empty. *)
Lemma form_and_json_exclusive_witness :
  exists req reads',
    addKeyVals (H := exampleEnv) (emptyRequest (exampleParams true)) (exampleParams true)
      [KeyVal "a" "=" "1"; KeyVal "h" ":" "x"; KeyVal "b" ":=" "123"] []
    = (Ok req, reads')
    /\ (form req = ∅ \/ jsonObj req = ∅).
Proof.
  destruct (addKeyVals _ _ _ _) as [[req|e] reads'] eqn:Hrun.
  - exists req, reads'. split; [reflexivity|].
    exact (proj1 (form_and_json_exclusive (H := exampleEnv)) _ _ _ _ _ Hrun).
  - vm_compute in Hrun. discriminate Hrun.
Defined.

(** ** Repeated keys *)

Lemma index_insert_eq (v : Values) (k : string) (l : list string) :
  index (<[k := l]> v) k = l.
Proof. unfold index. now rewrite lookup_insert_eq. Qed.

Lemma index_insert_ne (v : Values) (k k' : string) (l : list string) :
  k <> k' -> index (<[k := l]> v) k' = index v k'.
Proof. intros Hne. unfold index. now rewrite lookup_insert_ne. Qed.

Section Repeated.
Context `{Env}.

Lemma addKeyVal_json (p : params) (req req' : request) (k sp v : string)
    (reads reads' : list string) :
  json p = true ->
  In sp ["="; ":="] ->
  addKeyVal req p (KeyVal k sp v) reads = (Ok req', reads') ->
  exists j, storedValue sp v = Some j
    /\ req' = set_jsonObj req (<[k := j]> (jsonObj req)).
Proof.
  intros Hj Hsp Hrun. unfold addKeyVal in Hrun. simpl in Hrun.
  destruct Hsp as [<-|[<-|[]]]; simpl in Hrun.
  - apply dataString_Ok in Hrun as [_ ->]. rewrite Hj.
    exists (jsonString v). split; reflexivity.
  - apply jsonOther_Ok in Hrun as (_ & _ & m & Hm & ->).
    exists (jsonRaw m). unfold storedValue. simpl. rewrite Hm. split; reflexivity.
Qed.

(** C10. With JSON mode on, of two items with the same key and the
    separators [=] or [:=] the JSON object keeps the value of the later
    one only: it is what it would be without the earlier item.  Header,
    query and form fields with the same key add up. *)
Theorem json_last_write_wins :
  (forall p req k sp1 v1 sp2 v2 reads req1 reads1 req2 reads2,
     json p = true ->
     In sp1 ["="; ":="] -> In sp2 ["="; ":="] ->
     addKeyVal req p (KeyVal k sp1 v1) reads = (Ok req1, reads1) ->
     addKeyVal req1 p (KeyVal k sp2 v2) reads1 = (Ok req2, reads2) ->
     exists j2,
       storedValue sp2 v2 = Some j2
       /\ jsonObj req2 !! k = Some j2
       /\ jsonObj req2 = <[k := j2]> (jsonObj req)
       /\ size (jsonObj req2) = size (jsonObj req1))
  /\ (forall p req k v1 v2 reads,
       exists req2,
         addKeyVals req p [KeyVal k ":" v1; KeyVal k ":" v2] reads = (Ok req2, reads)
         /\ index (header req2) (CanonicalMIMEHeaderKey k)
            = index (header req) (CanonicalMIMEHeaderKey k) ++ [v1; v2])
  /\ (forall p req k v1 v2 reads,
       exists req2,
         addKeyVals req p [KeyVal k "==" v1; KeyVal k "==" v2] reads = (Ok req2, reads)
         /\ index (urlValues req2) k = index (urlValues req) k ++ [v1; v2])
  /\ (forall p req k v1 v2 reads,
       json p = false ->
       exists req2,
         addKeyVals req p [KeyVal k "=" v1; KeyVal k "=" v2] reads = (Ok req2, reads)
         /\ index (form req2) k = index (form req) k ++ [v1; v2]).
Proof.
  split; [|split; [|split]].
  - intros p req k sp1 v1 sp2 v2 reads req1 reads1 req2 reads2 Hj H1 H2 Hrun1 Hrun2.
    destruct (addKeyVal_json _ _ _ _ _ _ _ _ Hj H1 Hrun1) as (j1 & _ & ->).
    destruct (addKeyVal_json _ _ _ _ _ _ _ _ Hj H2 Hrun2) as (j2 & Hs2 & ->).
    exists j2. simpl. split; [assumption|]. split; [apply lookup_insert_eq|].
    split; [apply insert_insert_eq|].
    apply map_size_insert_Some. rewrite lookup_insert_eq. eauto.
  - intros p req k v1 v2 reads. eexists. split; [reflexivity|].
    simpl. unfold Header_Add. rewrite !index_insert_eq, <- app_assoc. reflexivity.
  - intros p req k v1 v2 reads. eexists. split; [reflexivity|].
    simpl. unfold Values_Add. rewrite !index_insert_eq, <- app_assoc. reflexivity.
  - intros p req k v1 v2 reads Hj. eexists. split.
    + cbn. unfold dataString. rewrite Hj. reflexivity.
    + simpl. unfold Values_Add. rewrite !index_insert_eq, <- app_assoc. reflexivity.
Qed.

End Repeated.

(** [a=1] and then [a:=123] with JSON mode on: the object holds the raw
    [123] for [a], and nothing of the string [1]. *)
Lemma json_last_write_wins_witness :
  let p := exampleParams true in
  let req1 := set_jsonObj (emptyRequest p) (<["a" := jsonString "1"]> ∅) in
  let req2 := set_jsonObj req1 (<["a" := jsonRaw "123"]> (jsonObj req1)) in
  json p = true
  /\ addKeyVal (H := exampleEnv) (emptyRequest p) p (KeyVal "a" "=" "1") [] = (Ok req1, [])
  /\ addKeyVal (H := exampleEnv) req1 p (KeyVal "a" ":=" "123") [] = (Ok req2, [])
  /\ exists j2,
       storedValue (H := exampleEnv) ":=" "123" = Some j2
       /\ jsonObj req2 !! "a" = Some j2
       /\ jsonObj req2 = <["a" := j2]> (jsonObj (emptyRequest p))
       /\ size (jsonObj req2) = size (jsonObj req1).
Proof.
  intros p req1 req2.
  assert (H1 : addKeyVal (H := exampleEnv) (emptyRequest p) p (KeyVal "a" "=" "1") []
               = (Ok req1, [])) by reflexivity.
  assert (H2 : addKeyVal (H := exampleEnv) req1 p (KeyVal "a" ":=" "123") []
               = (Ok req2, [])) by reflexivity.
  split; [reflexivity|]. split; [exact H1|]. split; [exact H2|].
  refine (proj1 (json_last_write_wins (H := exampleEnv))
            p (emptyRequest p) "a" "=" "1" ":=" "123" [] req1 [] req2 []
            eq_refl _ _ H1 H2); simpl; auto.
Defined.

(** ** Standard input together with form or JSON fields *)

Section Stdin.
Context `{Env}.

Lemma addKeyVal_reads (p : params) (req req' : request) (kv : keyVal)
    (reads reads' : list string) :
  addKeyVal req p kv reads = (Ok req', reads') ->
  reads' = reads ++ (if fromFile kv then [val kv] else []).
Proof.
  unfold addKeyVal, fromFile.
  destruct (sepFuncs_cases (sep kv))
    as [[Hs ->]|[[Hs ->]|[[Hs ->]|[[Hs ->]|[[Hs ->]|[[Hs ->]| ->]]]]]];
    try rewrite Hs; simpl.
  - intros [_ <-]%ret_Ok. now rewrite app_nil_r.
  - intros [_ <-]%ret_Ok. now rewrite app_nil_r.
  - intros [-> _]%dataString_Ok. now rewrite app_nil_r.
  - now intros (data & r1 & [_ ->]%readFile_Ok & [-> _]%dataString_Ok)%bind_Ok.
  - intros (-> & _)%jsonOther_Ok. now rewrite app_nil_r.
  - now intros (data & r1 & [_ ->]%readFile_Ok & (-> & _)%jsonOther_Ok)%bind_Ok.
  - discriminate.
Qed.

Lemma addKeyVals_reads (p : params) (kvs : list keyVal) :
  forall req req' reads reads',
  addKeyVals req p kvs reads = (Ok req', reads') ->
  reads' = reads ++ map val (List.filter fromFile kvs).
Proof.
  induction kvs as [|kv kvs IH]; intros req req' reads reads' Hrun; simpl in Hrun.
  - apply ret_Ok in Hrun as [_ <-]. simpl. now rewrite app_nil_r.
  - apply bind_Ok in Hrun as (req1 & r1 & Hstep & Hrest).
    apply addKeyVal_reads in Hstep as ->. apply IH in Hrest as ->.
    simpl. destruct (fromFile kv); simpl.
    + now rewrite <- app_assoc.
    + now rewrite app_nil_r.
Qed.

(** C7, as the code has it.  When standard input is asked for and the
    request items, all applied with success, leave the form or the JSON
    object non-empty, [newRequest] fails with the error of the conflict.
    It does so after the items are applied: the files that the [=@] and
    [:=@] items name have been read by then.  An item that fails makes
    [newRequest] fail with the error of that item. *)
Theorem stdin_with_body_rejected :
  (forall fv args p req reads reads',
     parseArgs fv args = Ok p ->
     useStdin p = true ->
     addKeyVals (emptyRequest p) p (keyVals p) reads = (Ok req, reads') ->
     form req <> ∅ \/ jsonObj req <> ∅ ->
     newRequest fv args reads = (Err errStdinWithBody, reads')
     /\ reads' = reads ++ map val (List.filter fromFile (keyVals p)))
  /\ (forall fv args p e reads reads',
       parseArgs fv args = Ok p ->
       addKeyVals (emptyRequest p) p (keyVals p) reads = (Err e, reads') ->
       newRequest fv args reads = (Err e, reads')).
Proof.
  split.
  - intros fv args p req reads reads' Hp Hstdin Hrun Hne.
    split; [|eapply addKeyVals_reads; eauto].
    unfold newRequest, mbind, M_bind, bind, lift. rewrite Hp, Hrun, Hstdin.
    assert (((0 <? len (form req))%nat || (0 <? len (jsonObj req))%nat) = true) as ->;
      [|reflexivity].
    apply orb_true_iff. unfold len.
    destruct Hne as [Hne|Hne]; [left|right];
      apply Nat.ltb_lt; apply map_size_non_empty_iff in Hne; lia.
  - intros fv args p e reads reads' Hp Hrun.
    unfold newRequest, mbind, M_bind, bind, lift. now rewrite Hp, Hrun.
Qed.

End Stdin.

(** Standard input asked for, and the one item [a=@essay.txt]. *)
Lemma stdin_with_body_rejected_witness :
  exists p req reads',
    parseArgs (H := exampleEnv) (withStdin noFlags) ["foo.com"; "a=@essay.txt"] = Ok p
    /\ useStdin p = true
    /\ addKeyVals (H := exampleEnv) (emptyRequest p) p (keyVals p) [] = (Ok req, reads')
    /\ (form req <> ∅ \/ jsonObj req <> ∅)
    /\ newRequest (H := exampleEnv) (withStdin noFlags) ["foo.com"; "a=@essay.txt"] []
       = (Err errStdinWithBody, reads')
    /\ reads' = ["essay.txt"].
Proof.
  eexists. eexists. eexists.
  split; [vm_compute; reflexivity|]. split; [reflexivity|].
  split; [reflexivity|].
  assert (Hne : form (set_form (emptyRequest (exampleParams false))
                        (Values_Add ∅ "a" "an essay")) <> ∅ \/
                jsonObj (set_form (emptyRequest (exampleParams false))
                           (Values_Add ∅ "a" "an essay")) <> ∅)
    by (left; apply insert_non_empty).
  split; [exact Hne|].
  split; [|reflexivity].
  refine (proj1 (proj1 (stdin_with_body_rejected (H := exampleEnv))
                   (withStdin noFlags) ["foo.com"; "a=@essay.txt"] _ _ [] _ _ _ _ Hne));
    reflexivity.
Defined.

(** C7 as stated fails: the conflict is found after the items have been
    applied, when the file of [a=@essay.txt] has been read; and a failing
    item comes first, with its own error. *)
Lemma stdin_conflict_found_after_items :
  (exists reads',
     newRequest (H := exampleEnv) (withStdin noFlags) ["foo.com"; "a=@essay.txt"] []
     = (Err errStdinWithBody, reads')
     /\ reads' = ["essay.txt"] /\ reads' <> [])
  /\ newRequest (H := exampleEnv) (withStdin noFlags) ["foo.com"; "a=1"; "b=@missing"] []
     = (Err (errReadFile "missing"), ["missing"]).
Proof.
  split.
  - eexists. split; [vm_compute; reflexivity|]. split; [reflexivity|discriminate].
  - vm_compute. reflexivity.
Qed.

(** ** The query string *)

Lemma HasPrefix_append (a b : string) : HasPrefix (a +:+ b) a = true.
Proof.
  unfold HasPrefix. induction a as [|c a IH]; [now destruct b|].
  rewrite append_cons. simpl. now destruct (ascii_dec c c).
Qed.

Section Query.
Context `{Env}.

Lemma do_URL (req : request) (stdin : option (option string)) (hr : httpRequest) :
  do req stdin = Ok hr ->
  URL_ hr =
    if (0 <? len (urlValues req))%nat then
      mkURL (Scheme (req_url req)) (Host (req_url req)) (Path (req_url req))
            ((if negb (String.eqb (RawQuery (req_url req)) "")
              then RawQuery (req_url req) +:+ "&" else RawQuery (req_url req))
             +:+ Encode (urlValues req))
    else req_url req.
Proof.
  unfold do. intros Hdo.
  repeat match type of Hdo with
         | (if ?c then _ else _) = _ => destruct c
         | match ?c with _ => _ end = _ => destruct c
         end; try discriminate; injection Hdo as <-; reflexivity.
Qed.

(** C5. When the URL has a query string, the query string of the request
    sent is that string, unchanged, followed when there are query
    parameters by [&] and their encoding: what the URL had comes first and
    is neither replaced nor reordered. *)
Theorem do_query_appended (req : request) (stdin : option (option string))
    (hr : httpRequest) :
  RawQuery (req_url req) <> "" ->
  do req stdin = Ok hr ->
  RawQuery (URL_ hr) =
    RawQuery (req_url req) +:+
    (if decide (urlValues req = ∅) then "" else "&" +:+ Encode (urlValues req))
  /\ HasPrefix (RawQuery (URL_ hr)) (RawQuery (req_url req)) = true
  /\ Scheme (URL_ hr) = Scheme (req_url req)
  /\ Host (URL_ hr) = Host (req_url req)
  /\ Path (URL_ hr) = Path (req_url req).
Proof.
  intros Hq Hdo. apply do_URL in Hdo. rewrite Hdo. clear Hdo.
  apply String.eqb_neq in Hq. unfold len.
  destruct (decide (urlValues req = ∅)) as [He|Hne].
  - rewrite He, map_size_empty. simpl. rewrite append_nil_r.
    repeat split; auto.
    rewrite <- (append_nil_r (RawQuery (req_url req))) at 1. apply HasPrefix_append.
  - apply map_size_non_empty_iff in Hne.
    destruct (size (urlValues req)) as [|n] eqn:Hn; [congruence|].
    simpl. rewrite Hq. simpl. rewrite append_assoc.
    repeat split; auto. apply HasPrefix_append.
Qed.

End Query.

(** The URL [/foo?z=zval] with the query parameters [x==xval1] [y==yval]
    [x==xval2]. *)
Lemma do_query_appended_witness :
  exists hr,
    RawQuery (req_url exampleQueryRequest) <> ""
    /\ do (H := exampleEnv) exampleQueryRequest None = Ok hr
    /\ HasPrefix (RawQuery (URL_ hr)) "z=zval" = true
    /\ RawQuery (URL_ hr) = "z=zval&x=xval1&x=xval2&y=yval".
Proof.
  destruct (do (H := exampleEnv) exampleQueryRequest None) as [hr|e] eqn:Hdo.
  - assert (Hq : RawQuery (req_url exampleQueryRequest) <> "") by discriminate.
    exists hr. split; [exact Hq|]. split; [reflexivity|].
    destruct (do_query_appended (H := exampleEnv) _ _ _ Hq Hdo) as (Hr & Hp & _).
    split; [exact Hp|]. rewrite Hr. vm_compute. reflexivity.
  - vm_compute in Hdo. discriminate Hdo.
Defined.

(** ** The Content-Type of the request *)

Section ContentType.
Context `{Env}.

(** With a non-empty form, [do] sets the Content-Type of the form
    encoding, whatever the header held. *)
Lemma do_form_Content_Type (req : request) (stdin : option (option string)) :
  form req <> ∅ ->
  exists hr,
    do req stdin = Ok hr
    /\ Header_ hr = Header_Set (header req) "Content-Type" "application/x-www-form-urlencoded"
    /\ Header_Get (Header_ hr) "Content-Type" = "application/x-www-form-urlencoded"
    /\ Body hr = Encode (form req).
Proof.
  intros Hne. apply map_size_non_empty_iff in Hne. unfold do, len.
  destruct (size (form req)) as [|n] eqn:Hn; [congruence|]. simpl.
  eexists. split; [reflexivity|]. simpl. split; [reflexivity|]. split; [|reflexivity].
  unfold Header_Get, Header_Set. now rewrite index_insert_eq.
Qed.

(** With JSON mode on, [newRequest] leaves a Content-Type that a header
    item has set to a non-empty value. *)
Lemma newRequest_json_Content_Type (fv : flagValues) (args : list string)
    (req0 req : request) (p : params) (reads reads' : list string) :
  newRequest fv args reads = (Ok (req, p), reads') ->
  addKeyVals (emptyRequest p) p (keyVals p) reads = (Ok req0, reads') ->
  Header_Get (header req0) "Content-Type" <> "" ->
  index (header req) "Content-Type" = index (header req0) "Content-Type".
Proof.
  unfold newRequest. intros (p' & r1 & Hp & Hrest)%bind_Ok Hadd Hct.
  unfold lift in Hp. injection Hp as Hp <-.
  apply bind_Ok in Hrest as (req0' & r2 & Hadd' & Hfin).
  destruct (useStdin p' && _); [discriminate|].
  apply ret_Ok in Hfin as [[= <- <-] <-].
  rewrite Hadd in Hadd'. injection Hadd' as <-.
  assert (Hauth : forall v, index (Header_Set (header req0) "Authorization" v) "Content-Type"
                            = index (header req0) "Content-Type").
  { intros v. unfold Header_Set. now rewrite index_insert_ne. }
  destruct (negb (String.eqb (basicAuth p') "")); simpl.
  - unfold Header_Get at 1. simpl. change (CanonicalMIMEHeaderKey "Content-Type")
      with "Content-Type". rewrite Hauth.
    unfold Header_Get in Hct. change (CanonicalMIMEHeaderKey "Content-Type")
      with "Content-Type" in Hct.
    destruct (index (header req0) "Content-Type") as [|v l] eqn:Hix; [congruence|].
    apply String.eqb_neq in Hct. rewrite Hct, andb_false_r. simpl. now rewrite Hauth.
  - apply String.eqb_neq in Hct. rewrite Hct, andb_false_r. reflexivity.
Qed.

End ContentType.

(** C1 at [foo.com Content-Type:application/foobar j1=123]: the header item
    sets the Content-Type, the form field makes [do] replace it.  With
    [--json] the Content-Type of the header item is the one sent. *)
Theorem form_body_replaces_content_type :
  (exists p req hr,
     parseArgs (H := exampleEnv) noFlags
       ["foo.com"; "Content-Type:application/foobar"; "j1=123"] = Ok p
     /\ newRequest (H := exampleEnv) noFlags
          ["foo.com"; "Content-Type:application/foobar"; "j1=123"] [] = (Ok (req, p), [])
     /\ index (header req) "Content-Type" = ["application/foobar"]
     /\ do (H := exampleEnv) req None = Ok hr
     /\ index (Header_ hr) "Content-Type" = ["application/x-www-form-urlencoded"])
  /\ (exists p req hr,
       parseArgs (H := exampleEnv) (withJSON noFlags)
         ["foo.com"; "Content-Type:application/foobar"; "j1=123"] = Ok p
       /\ newRequest (H := exampleEnv) (withJSON noFlags)
            ["foo.com"; "Content-Type:application/foobar"; "j1=123"] [] = (Ok (req, p), [])
       /\ do (H := exampleEnv) req None = Ok hr
       /\ index (Header_ hr) "Content-Type" = ["application/foobar"]).
Proof.
  split.
  - run_newRequest (newRequest (H := exampleEnv) noFlags
                      ["foo.com"; "Content-Type:application/foobar"; "j1=123"] []).
    repeat split; vm_compute; reflexivity.
  - run_newRequest (newRequest (H := exampleEnv) (withJSON noFlags)
                      ["foo.com"; "Content-Type:application/foobar"; "j1=123"] []).
    repeat split; vm_compute; reflexivity.
Qed.

(** ** The form-encoded body *)

Lemma fold_left_flat_map {A B C : Type} (f : C -> B -> C) (g : A -> list B)
    (l : list A) (c : C) :
  fold_left f (flat_map g l) c = fold_left (fun c x => fold_left f (g x) c) l c.
Proof.
  revert c; induction l as [|x l IH]; intros c; simpl; [reflexivity|].
  now rewrite fold_left_app, IH.
Qed.

Lemma Encode_fields (v : Values) : Encode v = encodeFields (fields v).
Proof.
  unfold Encode, encodeFields, fields.
  rewrite fold_left_flat_map. generalize "". generalize (sortStrings (keys v)).
  intros ks. induction ks as [|k ks IH]; intros buf; simpl; [reflexivity|].
  rewrite <- IH. f_equal.
  generalize (index v k). intros l. revert buf.
  induction l as [|x l IHl]; intros buf; simpl; [reflexivity|apply IHl].
Qed.

Lemma keys_spec {V : Type} (m : gmap string V) (k : string) :
  k ∈ keys m <-> is_Some (m !! k).
Proof.
  unfold keys. rewrite list_elem_of_fmap. split.
  - intros ([k' x] & -> & Hin). apply elem_of_map_to_list in Hin. eauto.
  - intros [x Hx]. exists (k, x). split; [reflexivity|]. now apply elem_of_map_to_list.
Qed.

Lemma sortStrings_spec (l : list string) :
  StronglySorted String.le (sortStrings l) /\ sortStrings l ≡ₚ l.
Proof.
  unfold sortStrings. split.
  - apply StronglySorted_merge_sort; apply _.
  - apply merge_sort_Permutation.
Qed.

Lemma fields_sorted (v : Values) :
  StronglySorted (fun a b => String.le (fst a) (fst b)) (fields v).
Proof.
  unfold fields. destruct (sortStrings_spec (keys v)) as [Hs _]. revert Hs.
  generalize (sortStrings (keys v)). intros ks Hs.
  induction Hs as [|k ks Hs IH Hall]; simpl; [constructor|].
  apply StronglySorted_app_2; [| |exact IH].
  - intros [k1 x1] [k2 x2] H1 H2. simpl.
    apply list_elem_of_fmap in H1 as (? & [= -> ->] & _).
    apply list_elem_of_In, in_flat_map in H2 as (k' & Hk' & H2).
    apply list_elem_of_In, list_elem_of_fmap in H2 as (? & [= -> ->] & _).
    rewrite Forall_forall in Hall. apply Hall. now apply list_elem_of_In.
  - generalize (index v k). intros l. induction l as [|x l IHl]; simpl; constructor; auto.
    apply Forall_forall. intros [k2 x2] (? & [= -> ->] & _)%list_elem_of_fmap.
    simpl. reflexivity.
Qed.

Lemma withKey_block (k k' : string) (l : list string) :
  withKey k (map (pair k') l) = if String.eqb k' k then map (pair k') l else [].
Proof.
  unfold withKey. induction l as [|x l IH]; simpl.
  - now destruct (String.eqb k' k).
  - rewrite IH. now destruct (String.eqb k' k).
Qed.

Lemma withKey_blocks (v : Values) (k : string) (ks : list string) :
  NoDup ks ->
  map snd (withKey k (flat_map (fun k' => map (pair k') (index v k')) ks))
  = if decide (k ∈ ks) then index v k else [].
Proof.
  induction ks as [|k' ks IH]; intros Hnd; [reflexivity|].
  apply NoDup_cons in Hnd as [Hnotin Hnd]. simpl.
  unfold withKey at 1. rewrite List.filter_app, map_app.
  fold (withKey k (map (pair k') (index v k'))).
  fold (withKey k (flat_map (fun k' => map (pair k') (index v k')) ks)).
  rewrite withKey_block, (IH Hnd).
  destruct (String.eqb_spec k' k) as [->|Hne].
  - destruct (decide (k ∈ ks)) as [Hin|_]; [contradiction|].
    destruct (decide (k ∈ k :: ks)) as [_|Hnin]; [|exfalso; apply Hnin; left].
    rewrite app_nil_r, map_map. simpl. apply map_id.
  - simpl. destruct (decide (k ∈ ks)) as [Hin|Hnin];
      destruct (decide (k ∈ k' :: ks)) as [Hin'|Hnin']; try reflexivity.
    + exfalso. apply Hnin'. now right.
    + exfalso. apply elem_of_cons in Hin' as [?|?]; congruence.
Qed.

Lemma fields_withKey (v : Values) (k : string) :
  map snd (withKey k (fields v)) = index v k.
Proof.
  unfold fields. destruct (sortStrings_spec (keys v)) as [_ Hperm].
  rewrite withKey_blocks.
  - destruct (decide (k ∈ sortStrings (keys v))) as [Hin|Hnin]; [reflexivity|].
    rewrite Hperm, keys_spec in Hnin. unfold index.
    destruct (v !! k); [exfalso; eauto|reflexivity].
  - rewrite Hperm. apply NoDup_fst_map_to_list.
Qed.

Section FormBody.
Context `{Env}.

Lemma applied_form_fields (p : params) (req req' : request) (kv : keyVal) (k : string) :
  json p = false ->
  applied p req kv req' ->
  index (form req') k
  = index (form req) k ++ map snd (withKey k (option_list (formField kv))).
Proof.
  intros Hj Happ. unfold formField.
  destruct Happ as [Hs|Hs|data _ Hs|data Hj'|data m Hj']; try congruence.
  - rewrite Hs. simpl. now rewrite app_nil_r.
  - rewrite Hs. simpl. now rewrite app_nil_r.
  - assert (Hf : (if String.eqb (sep kv) "=" then Some (key kv, val kv)
                  else if String.eqb (sep kv) "=@" then pair (key kv) <$> ReadFile (val kv)
                  else None) = Some (key kv, data)).
    { destruct Hs as [[-> ->]|[-> ->]]; reflexivity. }
    rewrite Hf. simpl. unfold Values_Add.
    destruct (String.eqb_spec (key kv) k) as [->|Hne]; simpl.
    + now rewrite index_insert_eq.
    + rewrite index_insert_ne by assumption. now rewrite app_nil_r.
Qed.

Lemma addKeyVals_form (p : params) (kvs : list keyVal) (k : string) :
  json p = false ->
  forall req req' reads reads',
  addKeyVals req p kvs reads = (Ok req', reads') ->
  index (form req') k = index (form req) k ++ map snd (withKey k (formFields kvs)).
Proof.
  intros Hj. induction kvs as [|kv kvs IH]; intros req req' reads reads' Hrun;
    simpl in Hrun.
  - apply ret_Ok in Hrun as [<- _]. simpl. now rewrite app_nil_r.
  - apply bind_Ok in Hrun as (req1 & r1 & Hstep & Hrest).
    apply addKeyVal_applied in Hstep.
    rewrite (IH _ _ _ _ Hrest), (applied_form_fields p req req1 kv k Hj Hstep).
    rewrite <- app_assoc. f_equal. unfold formFields. simpl.
    destruct (formField kv) as [f|]; simpl; [|reflexivity].
    destruct (String.eqb (fst f) k); reflexivity.
Qed.

Lemma formFields_form (p : params) (kvs : list keyVal) (req : request)
    (reads reads' : list string) :
  json p = false ->
  addKeyVals (emptyRequest p) p kvs reads = (Ok req, reads') ->
  formFields kvs <> [] ->
  form req <> ∅.
Proof.
  intros Hj Hrun Hne Hempty.
  destruct (formFields kvs) as [|[k x] fs] eqn:Hfs; [congruence|].
  pose proof (addKeyVals_form p kvs k Hj _ _ _ _ Hrun) as Hix.
  rewrite Hempty, Hfs in Hix. simpl in Hix. rewrite String.eqb_refl in Hix.
  unfold index in Hix. rewrite lookup_empty in Hix. discriminate Hix.
Qed.

End FormBody.

(** C4, as the code has it.  With JSON mode off and the items [j1=123]
    [j2=] [j2=another] the method is [POST], the body is
    [j1=123&j2=&j2=another] and the Content-Type is that of the form
    encoding.  In general the body lists the form fields by ascending key,
    and the values of one key in the order in which the items were
    applied. *)
Theorem form_body_sorted_by_key :
  (exists p req hr,
     parseArgs (H := exampleEnv) noFlags ["foo.com"; "j1=123"; "j2="; "j2=another"] = Ok p
     /\ method p = "POST"
     /\ newRequest (H := exampleEnv) noFlags ["foo.com"; "j1=123"; "j2="; "j2=another"] []
        = (Ok (req, p), [])
     /\ do (H := exampleEnv) req None = Ok hr
     /\ Method hr = "POST"
     /\ Body hr = "j1=123&j2=&j2=another"
     /\ index (Header_ hr) "Content-Type" = ["application/x-www-form-urlencoded"])
  /\ (forall (E : Env) p kvs req reads reads' stdin,
       json p = false ->
       addKeyVals (emptyRequest p) p kvs reads = (Ok req, reads') ->
       formFields kvs <> [] ->
       exists hr fs,
         do req stdin = Ok hr
         /\ Body hr = encodeFields fs
         /\ Header_Get (Header_ hr) "Content-Type" = "application/x-www-form-urlencoded"
         /\ StronglySorted (fun a b => String.le (fst a) (fst b)) fs
         /\ forall k, map snd (withKey k fs) = map snd (withKey k (formFields kvs))).
Proof.
  split.
  - run_newRequest (newRequest (H := exampleEnv) noFlags
                      ["foo.com"; "j1=123"; "j2="; "j2=another"] []).
    repeat split; vm_compute; reflexivity.
  - intros E p kvs req reads reads' stdin Hj Hrun Hne.
    pose proof (formFields_form p kvs req reads reads' Hj Hrun Hne) as Hform.
    destruct (do_form_Content_Type req stdin Hform) as (hr & Hdo & _ & Hct & Hbody).
    exists hr, (fields (form req)). split; [assumption|].
    split; [now rewrite Hbody, Encode_fields|]. split; [assumption|].
    split; [apply fields_sorted|].
    intros k. rewrite fields_withKey.
    now rewrite (addKeyVals_form p kvs k Hj _ _ _ _ Hrun).
Qed.

(** The items [b=1] [a=2]: the fields of the body are [a=2] and [b=1]. *)
Lemma form_body_sorted_by_key_witness :
  let p := exampleParams false in
  let kvs := [KeyVal "b" "=" "1"; KeyVal "a" "=" "2"] in
  exists req reads',
    json p = false
    /\ addKeyVals (H := exampleEnv) (emptyRequest p) p kvs [] = (Ok req, reads')
    /\ formFields (H := exampleEnv) kvs <> []
    /\ exists hr fs,
         do (H := exampleEnv) req None = Ok hr
         /\ Body hr = encodeFields fs
         /\ Header_Get (Header_ hr) "Content-Type" = "application/x-www-form-urlencoded"
         /\ StronglySorted (fun a b => String.le (fst a) (fst b)) fs
         /\ forall k, map snd (withKey k fs)
                      = map snd (withKey k (formFields (H := exampleEnv) kvs)).
Proof.
  intros p kvs.
  destruct (addKeyVals (H := exampleEnv) (emptyRequest p) p kvs []) as [[req|e] reads']
    eqn:Hrun.
  - assert (Hne : formFields (H := exampleEnv) kvs <> []) by discriminate.
    exists req, reads'. split; [reflexivity|]. split; [reflexivity|]. split; [exact Hne|].
    exact (proj2 form_body_sorted_by_key exampleEnv p kvs req [] reads' None
             eq_refl Hrun Hne).
  - vm_compute in Hrun. discriminate Hrun.
Defined.

(** C4 as stated fails in its general part: the items [b=1] [a=2], applied
    in this order, give the body [a=2&b=1]. *)
Lemma form_body_not_in_item_order :
  exists p req hr,
    newRequest (H := exampleEnv) noFlags ["foo.com"; "b=1"; "a=2"] [] = (Ok (req, p), [])
    /\ keyVals p = [KeyVal "b" "=" "1"; KeyVal "a" "=" "2"]
    /\ do (H := exampleEnv) req None = Ok hr
    /\ Body hr = "a=2&b=1"
    /\ Body hr <> "b=1&a=2".
Proof.
  run_newRequest (newRequest (H := exampleEnv) noFlags ["foo.com"; "b=1"; "a=2"] []).
  repeat split; try (vm_compute; reflexivity).
  vm_compute. discriminate.
Qed.

(** ** The JSON response *)

Lemma trailingNewlines_le (s : string) : (trailingNewlines s <= String.length s)%nat.
Proof.
  induction s as [|c s IH]; simpl; [lia|].
  destruct (isNewline c && _); lia.
Qed.

Lemma trailingNewlines_newline (s : string) :
  trailingNewlines (s +:+ newline) = S (trailingNewlines s).
Proof.
  induction s as [|c s IH]; [reflexivity|].
  rewrite append_cons. simpl. rewrite IH, length_append. simpl.
  replace (String.length s + 1)%nat with (S (String.length s)) by lia. simpl.
  now destruct (isNewline c && _).
Qed.

Lemma trailingNewlines_lastByte (s : string) :
  match lastByte s with
  | Some c => if isNewline c then (1 <= trailingNewlines s)%nat else trailingNewlines s = 0%nat
  | None => s = ""
  end.
Proof.
  induction s as [|c s IH]; [reflexivity|].
  simpl. destruct s as [|d s].
  - simpl. destruct (isNewline c); simpl; lia.
  - remember (String d s) as t. destruct (lastByte t) as [e|]; [|subst; discriminate].
    pose proof (trailingNewlines_le t).
    destruct (isNewline e).
    + destruct (isNewline c && _); lia.
    + rewrite IH. assert ((0 =? String.length t)%nat = false) as ->.
      { apply Nat.eqb_neq. subst t. simpl. lia. }
      now rewrite andb_false_r.
Qed.

Lemma endWithNewline_spec (data : string) :
  data <> "" ->
  (endWithNewline data = data \/ endWithNewline data = data +:+ newline)
  /\ trailingNewlines (endWithNewline data) = Nat.max 1 (trailingNewlines data).
Proof.
  intros Hne. unfold endWithNewline.
  pose proof (trailingNewlines_lastByte data) as Hl.
  destruct data as [|c s]; [congruence|].
  change (0 <? String.length (String c s))%nat with true.
  destruct (lastByte (String c s)) as [e|]; [|discriminate].
  fold (isNewline e). destruct (isNewline e); cbn [negb andb].
  - split; [now left|]. lia.
  - split; [now right|]. rewrite trailingNewlines_newline, Hl. reflexivity.
Qed.

Section Response.
Context `{Env}.

(** C6, as the code has it.  For a response of media type
    [application/json], when the body is printed, raw mode is off and the
    indenter accepts the body, what is written after the status line and
    the headers is the body indented with tabs, followed by a newline when
    that text does not end in one: it ends with the newlines that the
    indenter left, and with one when it left none. *)
Theorem showResponse_json_newline (p : params) (resp : response)
    (ctype indented : string) :
  body p = true ->
  raw p = false ->
  resp_BodyErr resp = false ->
  Header_Get (resp_Header resp) "Content-Type" = ctype ->
  ctype <> "" ->
  ParseMediaType ctype = Some "application/json" ->
  rjson_Indent (resp_Body resp) "" tab = Some indented ->
  indented <> "" ->
  exists text warnings,
    showResponse p resp = (headerBlock p resp +:+ text, warnings, Ok tt)
    /\ (text = indented \/ text = indented +:+ newline)
    /\ trailingNewlines text = Nat.max 1 (trailingNewlines indented).
Proof.
  intros Hbody Hraw Herr Hct Hne Hmt Hind Hnonempty.
  exists (endWithNewline indented). eexists.
  split; [|now apply endWithNewline_spec].
  unfold showResponse. rewrite Hbody, Hct. simpl negb. cbv iota.
  apply String.eqb_neq in Hne. rewrite Hne. simpl negb. cbv iota.
  rewrite Hmt. simpl. rewrite Hraw, Herr, Hind. reflexivity.
Qed.

End Response.

(** The body [{}] with no newline: one is added. *)
Lemma showResponse_json_newline_witness :
  let p := exampleParams false in
  let resp := jsonResponse "{}" in
  body p = true /\ raw p = false /\ resp_BodyErr resp = false
  /\ ParseMediaType (Env := exampleEnv) "application/json; charset=utf-8"
     = Some "application/json"
  /\ rjson_Indent (Env := exampleEnv) "{}" "" tab = Some "{}"
  /\ exists text warnings,
       showResponse (H := exampleEnv) p resp = (headerBlock p resp +:+ text, warnings, Ok tt)
       /\ (text = "{}" \/ text = "{}" +:+ newline)
       /\ trailingNewlines text = Nat.max 1 (trailingNewlines "{}").
Proof.
  intros p resp. repeat (split; [reflexivity|]).
  apply (showResponse_json_newline (H := exampleEnv) p resp
           "application/json; charset=utf-8" "{}"); try reflexivity; discriminate.
Defined.

(** C6 as stated fails.  With the body not to be printed ([-B]) nothing is
    written.  And the newlines that the indenter leaves at the end are
    kept: for an indenter that copies the white space after the value, as
    [Indent] of encoding/json does, the body [{}] followed by two newlines
    is written with both. *)
Lemma showResponse_not_one_newline :
  let body2 := "{}" +:+ newline +:+ newline in
  showResponse (H := exampleEnv) (withoutBody (exampleParams false)) (jsonResponse "{}")
    = ("", [], Ok tt)
  /\ rjson_Indent (Env := exampleEnv) body2 "" tab = Some body2
  /\ showResponse (H := exampleEnv) (exampleParams false) (jsonResponse body2)
     = (body2, [], Ok tt)
  /\ trailingNewlines body2 = 2%nat.
Proof.
  repeat split; vm_compute; reflexivity.
Qed.

(** * Further properties *)

(** ** The errors of [parseKeyVal] *)

Lemma encoderune_nonempty (r : rune) : encoderune r <> "".
Proof.
  unfold encoderune.
  repeat match goal with |- context [if ?c then _ else _] => destruct c end;
    discriminate.
Qed.

Lemma append_nonempty_r (a b : string) : b <> "" -> a +:+ b <> "".
Proof.
  intros Hb H. apply (f_equal String.length) in H. rewrite length_append in H.
  destruct b; [congruence|]. simpl in H. lia.
Qed.

Lemma length_nonzero (k : string) : k <> "" -> (String.length k =? 0)%nat = false.
Proof. destruct k; [congruence|reflexivity]. Qed.

Lemma isSepByte_cases (c : ascii) :
  isSepByte c = true <-> c = ":"%char \/ c = "="%char \/ c = "@"%char.
Proof.
  unfold isSepByte. simpl. rewrite !orb_true_iff, !Ascii.eqb_eq.
  split; [intros [?|[?|[?|?]]]; auto; discriminate|tauto].
Qed.

Lemma matchSep_head (c : ascii) (t : string) :
  (isSepByte c = true -> exists sp, matchSep (String c t) separators = Some sp)
  /\ (isSepByte c = false -> matchSep (String c t) separators = None).
Proof.
  split.
  - intros Hc. destruct (matchSep (String c t) separators) as [sp|] eqn:Hm; [eauto|].
    exfalso. rewrite matchSep_None in Hm.
    apply isSepByte_cases in Hc as [-> | [-> | ->]].
    + assert (H := Hm ":" ltac:(simpl; auto)).
      unfold HasPrefix in H. now destruct t.
    + assert (H := Hm "=" ltac:(simpl; auto 10)).
      unfold HasPrefix in H. now destruct t.
    + assert (H := Hm "@" ltac:(simpl; auto 10)).
      unfold HasPrefix in H. now destruct t.
  - intros Hc. apply matchSep_None. intros sp Hin.
    assert (Hnot : ~ (c = ":"%char \/ c = "="%char \/ c = "@"%char))
      by (rewrite <- isSepByte_cases; congruence).
    unfold HasPrefix. simpl in Hin.
    destruct Hin as [<-|[<-|[<-|[<-|[<-|[<-|[<-|[]]]]]]]]; cbn [String.prefix];
      match goal with |- context [ascii_dec ?a c] =>
        destruct (ascii_dec a c) as [E|]; [exfalso; apply Hnot; rewrite <- E; auto|reflexivity]
      end.
Qed.

Lemma matchSep_empty : matchSep "" separators = None.
Proof. reflexivity. Qed.

Lemma isSepByte_ascii (c : ascii) :
  isSepByte c = true -> (byte_val c <? RuneSelf) = true /\ (byte_val c =? backslash) = false.
Proof. intros [-> | [-> | ->]]%isSepByte_cases; split; reflexivity. Qed.

(** A loop that has a non-empty key, or an open escape, does not end with
    the empty-key error. *)
Lemma parseLoop_not_empty_key (s : string) (its : list (nat * rune)) :
  forall keyBytes wb,
  keyBytes <> "" \/ wb = true ->
  parseLoop s its keyBytes wb <> Err errEmptyKey.
Proof.
  induction its as [|[i r] its IH]; intros keyBytes wb Hk; simpl; [discriminate|].
  destruct ((r =? backslash) && negb wb) eqn:Hesc.
  - apply IH. now right.
  - destruct wb.
    + apply IH. left. apply append_nonempty_r, encoderune_nonempty.
    + destruct Hk as [Hk|Hk]; [|discriminate].
      destruct (matchSep (sliceFrom s i) separators).
      * rewrite length_nonzero by assumption. discriminate.
      * apply IH. left. apply append_nonempty_r, encoderune_nonempty.
Qed.

Lemma decoderune_ascii (c : ascii) (t : string) :
  (byte_val c <? RuneSelf) = true -> decoderune (String c t) = (byte_val c, 1%nat).
Proof. intros Hc. unfold decoderune. now rewrite Hc. Qed.

Lemma rangeString_cons (c : ascii) (t : string) :
  exists r its, rangeString (String c t) = (0%nat, r) :: its
    /\ ((byte_val c <? RuneSelf) = true -> r = byte_val c).
Proof.
  unfold rangeString. cbn [rangeFrom].
  destruct (decoderune (String c t)) as [r w] eqn:Hd.
  eexists. eexists. split; [reflexivity|].
  intros Hc. rewrite decoderune_ascii in Hd by assumption. congruence.
Qed.

(** X1. [parseKeyVal] fails with the error "empty key" exactly when the
    token begins with one of the bytes [:], [=] and [@]. *)
Theorem parseKeyVal_empty_key (s : string) :
  parseKeyVal s = Err errEmptyKey <->
  exists c t, s = String c t /\ isSepByte c = true.
Proof.
  unfold parseKeyVal. destruct s as [|c t].
  - split; [discriminate|]. now intros (? & ? & ? & _).
  - destruct (rangeString_cons c t) as (r & its & -> & Hr).
    cbn [parseLoop sliceFrom negb]. rewrite andb_true_r.
    destruct (isSepByte c) eqn:Hc.
    + destruct (isSepByte_ascii c Hc) as [Ha Hb].
      rewrite (Hr Ha), Hb.
      destruct (proj1 (matchSep_head c t) Hc) as [sp ->].
      split; [eauto|reflexivity].
    + split; [|intros (? & ? & [= <- <-] & ?); congruence].
      intros H. exfalso. revert H.
      destruct (r =? backslash).
      * apply parseLoop_not_empty_key. now right.
      * rewrite (proj2 (matchSep_head c t) Hc).
        apply parseLoop_not_empty_key. left. apply encoderune_nonempty.
Qed.

(** The token [=x]. *)
Lemma parseKeyVal_empty_key_witness :
  parseKeyVal "=x" = Err errEmptyKey /\ parseKeyVal "\=x=y" = Ok (KeyVal "=x" "=" "y").
Proof.
  split; [|vm_compute; reflexivity].
  apply (proj2 (parseKeyVal_empty_key "=x")). exists "="%char, "x". split; reflexivity.
Defined.

Lemma parseLoop_errors (s : string) (its : list (nat * rune)) :
  forall keyBytes wb e,
  parseLoop s its keyBytes wb = Err e ->
  (e = errEmptyKey \/ e = errNoSeparator)
  /\ (e = errNoSeparator -> Forall (noSepAt s) (plainFrom wb its)).
Proof.
  induction its as [|[i r] its IH]; intros keyBytes wb e H; simpl in H.
  - injection H as <-. split; [now right|constructor].
  - simpl. destruct wb, (r =? backslash) eqn:Hr; simpl in *;
      try (apply IH in H; exact H).
    destruct (matchSep (sliceFrom s i) separators) eqn:Hm.
    + destruct (String.length keyBytes =? 0)%nat; [|discriminate].
      injection H as <-. split; [now left|discriminate].
    + apply IH in H as [H1 H2]. split; [assumption|].
      intros He. constructor; [|auto]. unfold noSepAt. now apply matchSep_None.
Qed.

Lemma sliceFrom_no_sep (s : string) (j : nat) :
  allBytes (fun c => negb (isSepByte c)) s = true ->
  matchSep (sliceFrom s j) separators = None.
Proof.
  revert s; induction j as [|j IH]; intros s Hs; simpl.
  - destruct s as [|c t]; [reflexivity|]. simpl in Hs.
    apply andb_true_iff in Hs as [Hc _]. apply negb_true_iff in Hc.
    now apply matchSep_head.
  - destruct s as [|c t]; [reflexivity|]. simpl in Hs.
    apply andb_true_iff in Hs as [_ Ht]. now apply IH.
Qed.

(** X2. [parseKeyVal] has two errors only.  It fails with "no key-pair
    separator found" exactly when no plain position of the token (one that
    is neither an escaping backslash nor escaped) starts a separator; so
    it does for every token without the bytes [:], [=] and [@]. *)
Theorem parseKeyVal_no_separator :
  (forall s e, parseKeyVal s = Err e -> e = errEmptyKey \/ e = errNoSeparator)
  /\ (forall s, parseKeyVal s = Err errNoSeparator <->
                Forall (noSepAt s) (plainPositions (rangeString s)))
  /\ (forall s, allBytes (fun c => negb (isSepByte c)) s = true ->
                parseKeyVal s = Err errNoSeparator).
Proof.
  split; [|split].
  - intros s e H. now apply parseLoop_errors in H.
  - intros s. split.
    + intros H. apply parseLoop_errors in H as [_ H]. now apply H.
    + apply parseLoop_no_match.
  - intros s Hs. apply parseLoop_no_match.
    apply Forall_forall. intros j _. unfold noSepAt.
    apply matchSep_None. now apply sliceFrom_no_sep.
Qed.

(** The token [hello world] has none of the bytes. *)
Lemma parseKeyVal_no_separator_witness :
  allBytes (fun c => negb (isSepByte c)) "hello world" = true
  /\ parseKeyVal "hello world" = Err errNoSeparator.
Proof.
  split; [reflexivity|].
  apply (proj2 (proj2 parseKeyVal_no_separator)). reflexivity.
Defined.

(** ** Writing a request item and reading it back *)

Lemma sliceFrom_app_length (a b : string) :
  sliceFrom (a +:+ b) (String.length a) = b.
Proof. induction a as [|c a IH]; [reflexivity|]. rewrite append_cons. exact IH. Qed.

Lemma rangeFrom_sep_head (rest : string) (o : nat) (sp : string) :
  matchSep rest separators = Some sp ->
  exists r its, rangeFrom rest o 0 = (o, r) :: its /\ (r =? backslash) = false.
Proof.
  intros Hm. destruct rest as [|d t]; [discriminate|].
  destruct (isSepByte d) eqn:Hd.
  - destruct (isSepByte_ascii d Hd) as [Ha Hb].
    simpl. rewrite Ha. eauto.
  - rewrite (proj2 (matchSep_head d t) Hd) in Hm. discriminate.
Qed.

Lemma sliceFrom_S (s : string) (o : nat) (c : ascii) (t : string) :
  sliceFrom s o = String c t -> sliceFrom s (S o) = t.
Proof.
  intros H. replace (S o) with (o + 1)%nat by lia.
  now rewrite <- sliceFrom_sliceFrom, H.
Qed.

Lemma parseLoop_escapeKey (k : string) :
  forall s rest its keyBytes o,
  isASCII k = true ->
  sliceFrom s o = escapeKey k +:+ rest ->
  parseLoop s (bytesFrom (escapeKey k) o ++ its) keyBytes false
  = parseLoop s its (keyBytes +:+ k) false.
Proof.
  induction k as [|c k IH]; intros s rest its keyBytes o Ha Hs.
  - simpl. now rewrite append_nil_r.
  - unfold isASCII in Ha. cbn [allBytes] in Ha. apply andb_true_iff in Ha as [Hc Ha].
    fold (isASCII k) in Ha. cbn [escapeKey] in *.
    destruct (isSepByte c || (byte_val c =? backslash)) eqn:Hsp.
    + rewrite !append_cons in Hs.
      pose proof (sliceFrom_S _ _ _ _ Hs) as Hs1.
      pose proof (sliceFrom_S _ _ _ _ Hs1) as Hs2.
      cbn [bytesFrom app parseLoop].
      change (byte_val (byte_of backslash) =? backslash) with true.
      cbn [andb negb]. rewrite andb_false_r.
      rewrite encoderune_ascii by assumption.
      rewrite (IH s rest its _ (S (S o)) Ha Hs2).
      now rewrite append_assoc.
    + apply orb_false_iff in Hsp as [Hsb Hb].
      rewrite append_cons in Hs.
      pose proof (sliceFrom_S _ _ _ _ Hs) as Hs1.
      cbn [bytesFrom app parseLoop]. rewrite Hb. cbn [andb].
      rewrite Hs, (proj2 (matchSep_head c _) Hsb).
      rewrite encoderune_ascii by assumption.
      rewrite (IH s rest its _ (S o) Ha Hs1).
      now rewrite append_assoc.
Qed.

Lemma isASCII_escapeKey (k : string) : isASCII k = true -> isASCII (escapeKey k) = true.
Proof.
  unfold isASCII. induction k as [|c k IH]; [reflexivity|].
  cbn [allBytes escapeKey]. intros [Hc Hk]%andb_true_iff.
  destruct (isSepByte c || (byte_val c =? backslash)); cbn [allBytes];
    rewrite Hc, IH by assumption; reflexivity.
Qed.

Lemma rangeFrom_app_ascii (a : string) :
  forall b o, isASCII a = true ->
  rangeFrom (a +:+ b) o 0 = bytesFrom a o ++ rangeFrom b (o + String.length a) 0.
Proof.
  induction a as [|c a IH]; intros b o Ha.
  - simpl. now rewrite Nat.add_0_r.
  - unfold isASCII in Ha. cbn [allBytes] in Ha. apply andb_true_iff in Ha as [Hc Ha].
    rewrite append_cons. cbn [rangeFrom bytesFrom].
    rewrite decoderune_ascii by assumption. cbn [Nat.sub app].
    rewrite (IH b (S o) Ha). simpl String.length.
    now replace (S o + String.length a)%nat with (o + S (String.length a))%nat by lia.
Qed.

Lemma HasPrefix_cons (b : ascii) (s : string) (a : ascii) (pre : string) :
  HasPrefix (String b s) (String a pre) = Ascii.eqb a b && HasPrefix s pre.
Proof.
  unfold HasPrefix. cbn [String.prefix].
  destruct (ascii_dec a b) as [->|Hne].
  - now rewrite Ascii.eqb_refl.
  - apply Ascii.eqb_neq in Hne. now rewrite Hne.
Qed.

Lemma HasPrefix_empty (a : ascii) (pre : string) : HasPrefix "" (String a pre) = false.
Proof. reflexivity. Qed.

Lemma matchSep_plainStart (sp v : string) :
  In sp separators -> plainStart v = true ->
  matchSep (sp +:+ v) separators = Some sp.
Proof.
  intros Hin Hv. apply matchSep_Some.
  assert (Hcases : v = "" \/ exists c t, v = String c t
            /\ Ascii.eqb "=" c = false /\ Ascii.eqb "@" c = false).
  { destruct v as [|c t]; [now left|right]. exists c, t. simpl in Hv.
    apply andb_true_iff in Hv as [H1 H2].
    apply negb_true_iff in H1. apply negb_true_iff in H2.
    rewrite Ascii.eqb_sym in H1. rewrite Ascii.eqb_sym in H2. auto. }
  assert (Hsplit : forall seps1 seps2, separators = seps1 ++ sp :: seps2 ->
            (forall c, In c seps1 -> HasPrefix (sp +:+ v) c = false) ->
            exists seps1 seps2, separators = seps1 ++ sp :: seps2
              /\ (forall c, In c seps1 -> HasPrefix (sp +:+ v) c = false)
              /\ HasPrefix (sp +:+ v) sp = true).
  { intros seps1 seps2 H1 H2. exists seps1, seps2. repeat split; auto.
    apply HasPrefix_append. }
  unfold separators in Hin. simpl in Hin.
  destruct Hin as [<-|[<-|[<-|[<-|[<-|[<-|[<-|[]]]]]]]].
  - apply (Hsplit [] [":="; ":"; "=="; "=@"; "="; "@"] eq_refl). intros ? [].
  - apply (Hsplit [":=@"] [":"; "=="; "=@"; "="; "@"] eq_refl).
    intros c [<-|[]].
    destruct Hcases as [->|(d & t & -> & H1 & H2)];
      rewrite ?append_cons, ?append_empty_l, ?HasPrefix_cons, ?HasPrefix_empty, ?H1, ?H2;
      reflexivity.
  - apply (Hsplit [":=@"; ":="] ["=="; "=@"; "="; "@"] eq_refl).
    intros c Hc.
    destruct Hcases as [->|(d & t & -> & H1 & H2)];
      destruct Hc as [<-|[<-|[]]];
      rewrite ?append_cons, ?append_empty_l, ?HasPrefix_cons, ?HasPrefix_empty, ?H1, ?H2;
      reflexivity.
  - apply (Hsplit [":=@"; ":="; ":"] ["=@"; "="; "@"] eq_refl).
    intros c [<-|[<-|[<-|[]]]];
      rewrite ?append_cons, ?append_empty_l, ?HasPrefix_cons; reflexivity.
  - apply (Hsplit [":=@"; ":="; ":"; "=="] ["="; "@"] eq_refl).
    intros c [<-|[<-|[<-|[<-|[]]]]];
      rewrite ?append_cons, ?append_empty_l, ?HasPrefix_cons; reflexivity.
  - apply (Hsplit [":=@"; ":="; ":"; "=="; "=@"] ["@"] eq_refl).
    intros c Hc.
    destruct Hcases as [->|(d & t & -> & H1 & H2)];
      destruct Hc as [<-|[<-|[<-|[<-|[<-|[]]]]]];
      rewrite ?append_cons, ?append_empty_l, ?HasPrefix_cons, ?HasPrefix_empty, ?H1, ?H2;
      reflexivity.
  - apply (Hsplit [":=@"; ":="; ":"; "=="; "=@"; "="] [] eq_refl).
    intros c [<-|[<-|[<-|[<-|[<-|[<-|[]]]]]]];
      rewrite ?append_cons, ?append_empty_l, ?HasPrefix_cons; reflexivity.
Qed.

(** X3. Writing and reading back.  A non-empty key of ASCII characters,
    written with a backslash before each [\], [:], [=] and [@], followed
    by text that starts with a separator, is parsed into that key, the
    first separator of the list that the text starts with, and the rest.
    When the value begins neither with [=] nor with [@], that separator
    is the one written: the item is read back as it was composed. *)
Theorem parseKeyVal_round_trip :
  (forall k rest sp,
     isASCII k = true -> k <> "" ->
     matchSep rest separators = Some sp ->
     parseKeyVal (escapeKey k +:+ rest)
     = Ok (KeyVal k sp (sliceFrom rest (String.length sp))))
  /\ (forall k sp v,
       isASCII k = true -> k <> "" ->
       In sp separators -> plainStart v = true ->
       parseKeyVal (escapeKey k +:+ sp +:+ v) = Ok (KeyVal k sp v)).
Proof.
  assert (Hgen : forall k rest sp,
     isASCII k = true -> k <> "" ->
     matchSep rest separators = Some sp ->
     parseKeyVal (escapeKey k +:+ rest)
     = Ok (KeyVal k sp (sliceFrom rest (String.length sp)))).
  { intros k rest sp Ha Hk Hm. unfold parseKeyVal, rangeString.
    rewrite rangeFrom_app_ascii by now apply isASCII_escapeKey.
    rewrite (parseLoop_escapeKey k _ rest _ "" 0%nat Ha eq_refl).
    destruct (rangeFrom_sep_head rest (0 + String.length (escapeKey k)) sp Hm)
      as (r & its & -> & Hr).
    cbn [parseLoop]. rewrite Hr. cbn [andb]. rewrite append_empty_l.
    simpl Nat.add at 1. rewrite sliceFrom_app_length, Hm.
    rewrite length_nonzero by assumption.
    now rewrite <- sliceFrom_sliceFrom, sliceFrom_app_length. }
  split; [exact Hgen|].
  intros k sp v Ha Hk Hin Hv.
  rewrite (Hgen k (sp +:+ v) sp Ha Hk (matchSep_plainStart sp v Hin Hv)).
  now rewrite sliceFrom_app_length.
Qed.

(** The key [a:b\c], the separator [:=] and the value [[1,2]]. *)
Lemma parseKeyVal_round_trip_witness :
  isASCII "a:b\c" = true /\ "a:b\c" <> "" /\ In ":=" separators
  /\ plainStart "[1,2]" = true
  /\ escapeKey "a:b\c" +:+ ":=" +:+ "[1,2]" = "a\:b\\c:=[1,2]"
  /\ parseKeyVal (escapeKey "a:b\c" +:+ ":=" +:+ "[1,2]") = Ok (KeyVal "a:b\c" ":=" "[1,2]").
Proof.
  assert (Hin : In ":=" separators) by (simpl; auto).
  split; [reflexivity|]. split; [discriminate|]. split; [exact Hin|].
  split; [reflexivity|]. split; [reflexivity|].
  apply (proj2 parseKeyVal_round_trip "a:b\c" ":=" "[1,2]");
    [reflexivity|discriminate|exact Hin|reflexivity].
Defined.

(** ** The method argument *)

Lemma decoderune_not_ascii (c : ascii) (t : string) :
  (byte_val c <? RuneSelf) = false -> 127 < fst (decoderune (String c t)).
Proof.
  intros Hc. unfold decoderune. rewrite Hc.
  unfold RuneError, rune1Max, rune2Max, rune3Max, maxRune.
  repeat match goal with
         | |- context [if ?b then _ else _] => destruct b eqn:?
         | |- context [match ?x with EmptyString => _ | String _ _ => _ end] => destruct x
         end; simpl fst; try lia;
    repeat match goal with
           | H : _ && _ = true |- _ => apply andb_true_iff in H as [? ?]
           | H : (_ <? _) = true |- _ => apply Z.ltb_lt in H
           end; lia.
Qed.

(** X4. [isMethod] accepts exactly the strings of ASCII letters, the
    empty string among them. *)
Theorem isMethod_letters (s : string) : isMethod s = allBytes isLetter s.
Proof.
  unfold isMethod, rangeString. generalize 0%nat at 1.
  induction s as [|c t IH]; intros i; [reflexivity|].
  cbn [rangeFrom allBytes]. destruct (byte_val c <? RuneSelf) eqn:Hc.
  - rewrite decoderune_ascii by assumption. cbn [forallb Nat.sub]. rewrite IH.
    reflexivity.
  - pose proof (decoderune_not_ascii c t Hc) as Hr.
    destruct (decoderune (String c t)) as [r w]. simpl in Hr. cbn [forallb].
    assert (((97 <=? r) && (r <=? 122) || (65 <=? r) && (r <=? 90)) = false) as ->.
    { apply orb_false_iff. split; apply andb_false_iff; right; apply Z.leb_gt; lia. }
    assert (isLetter c = false) as ->; [|reflexivity].
    apply Z.ltb_ge in Hc. unfold RuneSelf in Hc.
    unfold isLetter, isLower, isUpper.
    apply orb_false_iff. split; apply andb_false_iff; right; apply Z.leb_gt; lia.
Qed.

Lemma parseItems_Err (args : list string) :
  forall m e, parseItems args m = Err e ->
  exists good bad more e',
    args = good ++ bad :: more
    /\ Forall (fun a => exists kv, parseKeyVal a = Ok kv) good
    /\ parseKeyVal bad = Err e'
    /\ e = errCannotParse bad e'.
Proof.
  induction args as [|arg args IH]; intros m e H; simpl in H; [discriminate|].
  destruct (parseKeyVal arg) as [kv|e'] eqn:Hkv.
  - destruct (parseItems args _) as [[m1 kvs]|e1] eqn:Hrec; [discriminate|].
    injection H as <-. apply IH in Hrec as (good & bad & more & e' & -> & Hg & Hb & ->).
    exists (arg :: good), bad, more, e'. repeat split; auto. constructor; eauto.
  - injection H as <-. exists [], arg, args, e'. repeat split; auto.
Qed.


Section Arguments.
Context `{Env}.

(** X5. [parseArgs] fails with the usage error exactly when there is no
    argument, or when the only argument is a method: a string of letters.
    So a host name of letters only, given alone, is taken for a method. *)
Theorem parseArgs_usage (fv : flagValues) (args : list string) :
  parseArgs fv args = Err errUsage <->
  args = [] \/ exists m, args = [m] /\ isMethod m = true.
Proof.
  unfold parseArgs. destruct args as [|a0 rest].
  - split; [now left|reflexivity].
  - destruct (isMethod a0) eqn:Hm.
    + destruct rest as [|urlArg items].
      * split; [intros _; right; eauto|reflexivity].
      * split; [|intros [?|(m & ? & _)]; discriminate].
        destruct (url_Parse _); [|discriminate].
        destruct (parseItems items _) as [[m kvs]|e] eqn:Hi; [discriminate|].
        apply parseItems_Err in Hi as (? & ? & ? & ? & _ & _ & _ & ->). discriminate.
    + split; [|intros [?|(m & [= -> ->] & ?)]; congruence].
      destruct (url_Parse _); [|discriminate].
      destruct (parseItems rest _) as [[m kvs]|e] eqn:Hi; [discriminate|].
      apply parseItems_Err in Hi as (? & ? & ? & ? & _ & _ & _ & ->). discriminate.
Qed.





End Arguments.

(** The only argument [localhost]: it is taken for a method. *)
Lemma parseArgs_usage_witness :
  isMethod "localhost" = true
  /\ parseArgs (H := exampleEnv) noFlags ["localhost"] = Err errUsage.
Proof.
  split; [reflexivity|].
  apply (proj2 (parseArgs_usage (H := exampleEnv) noFlags ["localhost"])).
  right. exists "localhost". split; reflexivity.
Defined.






(** ** The URL argument *)

Lemma HasPrefix_http_no_colon (s : string) :
  HasPrefix s "http:" = true \/ HasPrefix s "https:" = true ->
  HasPrefix s ":" = false.
Proof.
  destruct s as [|c t]; [reflexivity|].
  rewrite !HasPrefix_cons. intros [H|H];
    apply andb_true_iff in H as [H _]; apply Ascii.eqb_eq in H; subst c; reflexivity.
Qed.

Lemma HasPrefix_localhost (t : string) :
  HasPrefix ("http://localhost" +:+ t) "http:" = true.
Proof. reflexivity. Qed.

Lemma HasPrefix_default_scheme (t : string) : HasPrefix ("http://" +:+ t) "http:" = true.
Proof. reflexivity. Qed.

Lemma expandURL_scheme (urlStr : string) :
  HasPrefix (expandURL urlStr) "http:" = true
  \/ HasPrefix (expandURL urlStr) "https:" = true.
Proof.
  unfold expandURL.
  destruct (HasPrefix urlStr ":").
  - destruct (HasPrefix urlStr ":/"); rewrite HasPrefix_localhost; left;
      apply HasPrefix_localhost.
  - destruct (HasPrefix urlStr "http:") eqn:H1; cbn [negb andb]; [now left|].
    destruct (HasPrefix urlStr "https:") eqn:H2; cbn [negb]; [now right|].
    left. apply HasPrefix_default_scheme.
Qed.

(** X9. The expanded URL argument starts with [http:] or [https:];
    expanding it again changes nothing; [:3000] stands for
    [http://localhost:3000] and [:/foo] for [http://localhost/foo]. *)
Theorem expandURL_idempotent :
  (forall urlStr,
     HasPrefix (expandURL urlStr) "http:" = true
     \/ HasPrefix (expandURL urlStr) "https:" = true)
  /\ (forall urlStr, expandURL (expandURL urlStr) = expandURL urlStr)
  /\ (forall rest, expandURL (":/" +:+ rest) = "http://localhost/" +:+ rest)
  /\ (forall rest, HasPrefix rest "/" = false ->
                   expandURL (":" +:+ rest) = "http://localhost:" +:+ rest).
Proof.
  split; [exact expandURL_scheme|]. split; [|split].
  - intros urlStr. pose proof (expandURL_scheme urlStr) as Hs.
    generalize dependent (expandURL urlStr). intros s Hs.
    unfold expandURL. rewrite (HasPrefix_http_no_colon s Hs).
    destruct Hs as [-> | ->]; [reflexivity|].
    now rewrite andb_false_r.
  - intros rest. unfold expandURL.
    change (":/" +:+ rest) with (String ":" (String "/" rest)).
    rewrite !HasPrefix_cons. cbn [Ascii.eqb andb].
    assert (HasPrefix rest "" = true) as -> by now destruct rest.
    assert (HasPrefix (String "/" rest) "" = true) as -> by reflexivity.
    cbn [Ascii.eqb Bool.eqb andb sliceFrom].
    reflexivity.
  - intros rest Hr. unfold expandURL.
    change (":" +:+ rest) with (String ":" rest).
    rewrite !HasPrefix_cons.
    assert (HasPrefix rest "" = true) as -> by now destruct rest.
    rewrite Hr. reflexivity.
Qed.

(** The URL argument [:3000]. *)
Lemma expandURL_idempotent_witness :
  HasPrefix "3000" "/" = false /\ expandURL ":3000" = "http://localhost:3000".
Proof.
  split; [reflexivity|].
  exact (proj2 (proj2 (proj2 expandURL_idempotent)) "3000" eq_refl).
Defined.

(** ** The errors of a request item *)

Section ItemErrors.
Context `{Env}.

Lemma readFile_Err (path : string) (reads reads' : list string) (e : error) :
  readFile path reads = (Err e, reads') ->
  ReadFile path = None /\ e = errReadFile path /\ reads' = reads ++ [path].
Proof. unfold readFile. destruct (ReadFile path); now intros [= <- <-]. Qed.

Lemma bind_Err {A B : Type} (m : M A) (f : A -> M B) (reads reads' : list string)
    (e : error) :
  (m ≫= f) reads = (Err e, reads') ->
  m reads = (Err e, reads')
  \/ exists a r1, m reads = (Ok a, r1) /\ f a r1 = (Err e, reads').
Proof.
  unfold mbind, M_bind, bind. destruct (m reads) as [[a|e'] r1]; [eauto|].
  intros [= <- <-]. now left.
Qed.

Lemma jsonOther_Err (p : params) (req : request) (k v : string)
    (reads reads' : list string) (e : error) :
  jsonOther req p k v reads = (Err e, reads') ->
  reads' = reads
  /\ ((json p = false /\ e = errNonStringKey)
      \/ (json p = true /\ UnmarshalRaw v = None /\ e = errInvalidJSON k)).
Proof.
  unfold jsonOther. destruct (json p); simpl.
  - destruct (UnmarshalRaw v); [discriminate|]. intros [= <- <-]. auto.
  - intros [= <- <-]. auto.
Qed.

Lemma addKeyVal_Err (p : params) (req : request) (kv : keyVal)
    (reads reads' : list string) (e : error) :
  addKeyVal req p kv reads = (Err e, reads') ->
  (~ In (sep kv) [":"; "=="; "="; "=@"; ":="; ":=@"]
   /\ e = errSepNotRecognized (sep kv) /\ reads' = reads)
  \/ (In (sep kv) ["=@"; ":=@"] /\ ReadFile (val kv) = None
      /\ e = errReadFile (val kv) /\ reads' = reads ++ [val kv])
  \/ (json p = false /\ e = errNonStringKey
      /\ ((sep kv = ":=" /\ reads' = reads)
          \/ (sep kv = ":=@" /\ is_Some (ReadFile (val kv))
              /\ reads' = reads ++ [val kv])))
  \/ (json p = true /\ e = errInvalidJSON (key kv)
      /\ ((sep kv = ":=" /\ UnmarshalRaw (val kv) = None /\ reads' = reads)
          \/ (sep kv = ":=@" /\ reads' = reads ++ [val kv]
              /\ exists data, ReadFile (val kv) = Some data
                   /\ UnmarshalRaw data = None))).
Proof.
  unfold addKeyVal.
  destruct (sepFuncs_cases (sep kv))
    as [[Hs ->]|[[Hs ->]|[[Hs ->]|[[Hs ->]|[[Hs ->]|[[Hs ->]|Hnone]]]]]].
  - discriminate.
  - discriminate.
  - unfold dataString. destruct (json p); discriminate.
  - intros [Hr|(data & r1 & _ & Hd)]%bind_Err.
    + apply readFile_Err in Hr as (Hf & -> & ->). right. left.
      rewrite Hs. simpl. auto 10.
    + unfold dataString in Hd. destruct (json p); discriminate.
  - intros [-> [[Hj ->]|(Hj & Hu & ->)]]%jsonOther_Err.
    + right. right. left. auto 10.
    + right. right. right. auto 10.
  - intros [Hr|(data & r1 & [Hf ->]%readFile_Ok & Hd)]%bind_Err.
    + apply readFile_Err in Hr as (Hf & -> & ->). right. left.
      rewrite Hs. simpl. auto 10.
    + apply jsonOther_Err in Hd as [-> [[Hj ->]|(Hj & Hu & ->)]].
      * right. right. left. split; [assumption|]. split; [reflexivity|].
        right. rewrite Hf. eauto.
      * right. right. right. split; [assumption|]. split; [reflexivity|].
        right. eauto 10.
  - rewrite Hnone. intros [= <- <-]. left. split; [|auto].
    intros Hin. simpl in Hin. unfold sepFuncs in Hnone.
    destruct Hin as [E|[E|[E|[E|[E|[E|[]]]]]]]; rewrite <- E in Hnone; discriminate.
Qed.

(** X10. The items with the separators [:], [==] and [=] are always
    applied, and read no file.  An item fails in four ways only: its
    separator is not one of the six that are implemented (so for the
    form-file separator [@]); its file cannot be read; it has a raw JSON
    value without [--json]; its raw JSON value is not valid JSON.  A [:=@]
    item reads its file even without [--json], before it is refused. *)
Theorem addKeyVal_errors (p : params) (req : request) (kv : keyVal)
    (reads : list string) :
  (In (sep kv) [":"; "=="; "="] ->
   exists req', addKeyVal req p kv reads = (Ok req', reads))
  /\ (forall e reads',
      addKeyVal req p kv reads = (Err e, reads') ->
      (~ In (sep kv) [":"; "=="; "="; "=@"; ":="; ":=@"]
       /\ e = errSepNotRecognized (sep kv) /\ reads' = reads)
      \/ (In (sep kv) ["=@"; ":=@"] /\ ReadFile (val kv) = None
          /\ e = errReadFile (val kv) /\ reads' = reads ++ [val kv])
      \/ (json p = false /\ e = errNonStringKey
          /\ ((sep kv = ":=" /\ reads' = reads)
              \/ (sep kv = ":=@" /\ is_Some (ReadFile (val kv))
                  /\ reads' = reads ++ [val kv])))
      \/ (json p = true /\ e = errInvalidJSON (key kv)
          /\ ((sep kv = ":=" /\ UnmarshalRaw (val kv) = None /\ reads' = reads)
              \/ (sep kv = ":=@" /\ reads' = reads ++ [val kv]
                  /\ exists data, ReadFile (val kv) = Some data
                       /\ UnmarshalRaw data = None)))).
Proof.
  split.
  - intros Hin. unfold addKeyVal. simpl in Hin.
    destruct Hin as [<-|[<-|[<-|[]]]]; cbn; unfold httpHeader, urlParam, dataString;
      try destruct (json p); eexists; reflexivity.
  - intros e reads'. apply addKeyVal_Err.
Qed.

Lemma addKeyVals_app (p : params) (kvs1 kvs2 : list keyVal) :
  forall req reads,
  addKeyVals req p (kvs1 ++ kvs2) reads =
  match addKeyVals req p kvs1 reads with
  | (Ok req1, reads1) => addKeyVals req1 p kvs2 reads1
  | (Err e, reads1) => (Err e, reads1)
  end.
Proof.
  induction kvs1 as [|kv kvs1 IH]; intros req reads; [reflexivity|].
  cbn [app addKeyVals]. unfold mbind, M_bind, bind.
  destruct (addKeyVal req p kv reads) as [[req1|e] r1]; [apply IH|reflexivity].
Qed.

(** X11. The items are applied in order and the first failure ends it:
    the items after the failing one are not applied and their files are
    not read. *)
Theorem addKeyVals_first_failure (p : params) (good : list keyVal) (bad : keyVal)
    (more : list keyVal) (req req1 : request) (reads reads1 reads2 : list string)
    (e : error) :
  addKeyVals req p good reads = (Ok req1, reads1) ->
  addKeyVal req1 p bad reads1 = (Err e, reads2) ->
  addKeyVals req p (good ++ bad :: more) reads = (Err e, reads2)
  /\ reads2 = reads ++ map val (List.filter fromFile good)
                    ++ (if fromFile bad then [val bad] else []).
Proof.
  intros Hgood Hbad. split.
  - rewrite addKeyVals_app, Hgood. cbn [addKeyVals].
    unfold mbind, M_bind, bind. now rewrite Hbad.
  - apply addKeyVals_reads in Hgood as ->. rewrite app_assoc.
    destruct (addKeyVal_Err _ _ _ _ _ _ Hbad)
      as [(Hn & _ & ->)|[(Hin & _ & _ & ->)|[(_ & _ & [[Hs ->]|(Hs & _ & ->)])
         |(_ & _ & [(Hs & _ & ->)|(Hs & -> & _)])]]];
      unfold fromFile.
    + destruct (String.eqb_spec (sep bad) "=@") as [E|_];
        [exfalso; apply Hn; rewrite E; simpl; auto 10|].
      destruct (String.eqb_spec (sep bad) ":=@") as [E|_];
        [exfalso; apply Hn; rewrite E; simpl; auto 10|].
      simpl. now rewrite app_nil_r.
    + simpl in Hin. destruct Hin as [<-|[<-|[]]]; reflexivity.
    + rewrite Hs. simpl. now rewrite app_nil_r.
    + rewrite Hs. reflexivity.
    + rewrite Hs. simpl. now rewrite app_nil_r.
    + rewrite Hs. reflexivity.
Qed.

(** ** What [newRequest] adds to the request *)

Lemma insert_index_ne (h : Header) (k k' : string) (l : list string) :
  k <> k' -> <[k := l]> h !! k' = h !! k'.
Proof. intros Hne. now rewrite lookup_insert_ne. Qed.

(** X12. After the items, [newRequest] changes two headers at most.  With
    [--auth] the Authorization header is the basic credentials alone,
    whatever the items gave.  With [--json] the Content-Type is
    [application/json] unless the items gave one whose first value is not
    empty.  Every other header, the query parameters, the form and the
    JSON object are as the items left them. *)
Theorem newRequest_headers (fv : flagValues) (args : list string)
    (req : request) (p : params) (reads reads' : list string) :
  newRequest fv args reads = (Ok (req, p), reads') ->
  exists req0,
    addKeyVals (emptyRequest p) p (keyVals p) reads = (Ok req0, reads')
    /\ (forall k, k <> "Authorization" -> k <> "Content-Type" ->
                  header req !! k = header req0 !! k)
    /\ index (header req) "Authorization"
       = (if String.eqb (basicAuth p) "" then index (header req0) "Authorization"
          else ["Basic " +:+ base64 (basicAuth p)])
    /\ index (header req) "Content-Type"
       = (if json p && String.eqb (Header_Get (header req0) "Content-Type") ""
          then ["application/json"] else index (header req0) "Content-Type")
    /\ urlValues req = urlValues req0 /\ form req = form req0
    /\ jsonObj req = jsonObj req0.
Proof.
  unfold newRequest. intros (p' & r1 & Hp & Hrest)%bind_Ok.
  unfold lift in Hp. injection Hp as Hp <-.
  apply bind_Ok in Hrest as (req0 & r2 & Hadd & Hfin).
  destruct (useStdin p' && _); [discriminate|].
  apply ret_Ok in Hfin as [[= <- <-] <-].
  exists req0. split; [assumption|].
  assert (Hget : forall v,
            Header_Get (Header_Set (header req0) "Authorization" v) "Content-Type"
            = Header_Get (header req0) "Content-Type").
  { intros v. unfold Header_Get, Header_Set.
    change (CanonicalMIMEHeaderKey "Content-Type") with "Content-Type".
    change (CanonicalMIMEHeaderKey "Authorization") with "Authorization".
    now rewrite index_insert_ne. }
  unfold Header_Set.
  change (CanonicalMIMEHeaderKey "Content-Type") with "Content-Type".
  change (CanonicalMIMEHeaderKey "Authorization") with "Authorization".
  destruct (String.eqb (basicAuth p') "") eqn:Ha; cbn [negb set_header header].
  - destruct (json p' && _) eqn:Hc; cbn [set_header header urlValues form jsonObj].
    + repeat split; auto.
      * intros k _ Hk. now rewrite lookup_insert_ne.
      * now rewrite index_insert_ne.
      * now rewrite index_insert_eq.
    + repeat split; auto.
  - unfold Header_Set in Hget.
    change (CanonicalMIMEHeaderKey "Authorization") with "Authorization" in Hget.
    rewrite Hget.
    destruct (json p' && _) eqn:Hc; cbn [set_header header urlValues form jsonObj].
    + repeat split; auto.
      * intros k Hk1 Hk2. now rewrite !lookup_insert_ne.
      * now rewrite index_insert_ne, index_insert_eq.
      * now rewrite index_insert_eq.
    + repeat split; auto.
      * intros k Hk1 _. now rewrite lookup_insert_ne.
      * now rewrite index_insert_eq.
      * now rewrite index_insert_ne.
Qed.

(** X13. A request that [newRequest] returns has read exactly the files of
    the [=@] and [:=@] items, in the order of the items; and when standard
    input is asked for it has neither form fields nor JSON fields. *)
Theorem newRequest_reads (fv : flagValues) (args : list string)
    (req : request) (p : params) (reads reads' : list string) :
  newRequest fv args reads = (Ok (req, p), reads') ->
  reads' = reads ++ map val (List.filter fromFile (keyVals p))
  /\ (useStdin p = true -> form req = ∅ /\ jsonObj req = ∅).
Proof.
  intros (_ & req0 & Hadd & Hstdin & _ & -> & -> & _)%newRequest_Ok.
  split; [now apply addKeyVals_reads in Hadd|].
  intros Hu. rewrite Hu in Hstdin. cbn [andb] in Hstdin.
  apply orb_false_iff in Hstdin as [Hf Hj]. unfold len in *.
  apply Nat.ltb_ge in Hf, Hj.
  split; apply map_size_empty_iff; lia.
Qed.

End ItemErrors.

(** The item [a=b], which is applied, and the item [cs@f], which is refused
    for its separator. *)
Lemma addKeyVal_errors_witness :
  (exists req',
     addKeyVal (H := exampleEnv) (emptyRequest (exampleParams false)) (exampleParams false)
       (KeyVal "a" "=" "b") [] = (Ok req', []))
  /\ addKeyVal (H := exampleEnv) (emptyRequest (exampleParams false)) (exampleParams false)
       (KeyVal "cs" "@" "f") [] = (Err (errSepNotRecognized "@"), [])
  /\ ~ In "@" [":"; "=="; "="; "=@"; ":="; ":=@"].
Proof.
  assert (Hrun : addKeyVal (H := exampleEnv) (emptyRequest (exampleParams false))
                   (exampleParams false) (KeyVal "cs" "@" "f") []
                 = (Err (errSepNotRecognized "@"), [])) by reflexivity.
  split; [|split; [exact Hrun|]].
  - apply (proj1 (addKeyVal_errors (H := exampleEnv) (exampleParams false)
                    (emptyRequest (exampleParams false)) (KeyVal "a" "=" "b") [])).
    simpl. auto.
  - destruct (proj2 (addKeyVal_errors (H := exampleEnv) (exampleParams false)
                       (emptyRequest (exampleParams false)) (KeyVal "cs" "@" "f") [])
                _ _ Hrun)
      as [(Hn & _)|[(Hin & _)|[(_ & He & _)|(Hj & _)]]].
    + exact Hn.
    + simpl in Hin. destruct Hin as [Hs|[Hs|[]]]; discriminate Hs.
    + discriminate He.
    + discriminate Hj.
Defined.

(** A file item, then a raw JSON item without [--json], then another file
    item: the file is read once. *)
Lemma addKeyVals_first_failure_witness :
  addKeyVals (H := exampleEnv) (emptyRequest (exampleParams false)) (exampleParams false)
    [KeyVal "a" "=@" "essay.txt"; KeyVal "b" ":=" "123"; KeyVal "c" "=@" "essay.txt"] []
  = (Err errNonStringKey, ["essay.txt"]).
Proof.
  destruct (addKeyVals_first_failure (H := exampleEnv) (exampleParams false)
              [KeyVal "a" "=@" "essay.txt"] (KeyVal "b" ":=" "123")
              [KeyVal "c" "=@" "essay.txt"] (emptyRequest (exampleParams false))
              (set_form (emptyRequest (exampleParams false)) (Values_Add ∅ "a" "an essay"))
              [] ["essay.txt"] ["essay.txt"] errNonStringKey eq_refl eq_refl)
    as [Hrun _].
  exact Hrun.
Defined.


(** With [--json], a header item and a data item. *)
Lemma newRequest_headers_witness :
  exists req p reads',
    newRequest (H := exampleEnv) (withJSON noFlags) ["foo.com"; "X-Tag:x"; "a=b"] []
    = (Ok (req, p), reads')
    /\ index (header req) "X-Tag" = ["x"]
    /\ index (header req) "Content-Type" = ["application/json"].
Proof.
  destruct (newRequest (H := exampleEnv) (withJSON noFlags)
              ["foo.com"; "X-Tag:x"; "a=b"] []) as [[[req p]|e] reads'] eqn:Hnew.
  - exists req, p, reads'. split; [reflexivity|].
    destruct (newRequest_headers (H := exampleEnv) _ _ _ _ _ _ Hnew)
      as (req0 & Hadd & Hother & _ & Hct & _).
    pose proof Hnew as Hrun. vm_compute in Hrun. injection Hrun as <- <- <-.
    vm_compute in Hadd. injection Hadd as <-.
    split.
    + unfold index. rewrite Hother by discriminate. reflexivity.
    + rewrite Hct. reflexivity.
  - vm_compute in Hnew. discriminate Hnew.
Defined.

(** Standard input asked for, with a header item. *)
Lemma newRequest_reads_witness :
  exists req p reads',
    newRequest (H := exampleEnv) (withStdin noFlags) ["foo.com"; "X-Tag:x"] []
    = (Ok (req, p), reads')
    /\ reads' = [] /\ form req = ∅ /\ jsonObj req = ∅.
Proof.
  destruct (newRequest (H := exampleEnv) (withStdin noFlags) ["foo.com"; "X-Tag:x"] [])
    as [[[req p]|e] reads'] eqn:Hnew.
  - exists req, p, reads'. split; [reflexivity|].
    destruct (newRequest_reads (H := exampleEnv) _ _ _ _ _ _ Hnew) as [Hreads Hstdin].
    pose proof Hnew as Hrun. vm_compute in Hrun. injection Hrun as <- <- <-.
    split; [reflexivity|]. apply Hstdin. reflexivity.
  - vm_compute in Hnew. discriminate Hnew.
Defined.

(** ** The key of a header *)

Lemma byte_cases (P : ascii -> Prop) :
  (forall b0 b1 b2 b3 b4 b5 b6 b7, P (Ascii b0 b1 b2 b3 b4 b5 b6 b7)) -> forall c, P c.
Proof. intros HP [b0 b1 b2 b3 b4 b5 b6 b7]. apply HP. Qed.

Lemma canonical_byte (c : ascii) :
  toUpperByte (toUpperByte c) = toUpperByte c
  /\ toLowerByte (toLowerByte c) = toLowerByte c
  /\ toUpperByte (toLowerByte c) = toUpperByte c
  /\ toLowerByte (toUpperByte c) = toLowerByte c
  /\ validHeaderFieldByte (toUpperByte c) = validHeaderFieldByte c
  /\ validHeaderFieldByte (toLowerByte c) = validHeaderFieldByte c.
Proof.
  revert c. apply byte_cases.
  intros [] [] [] [] [] [] [] []; vm_compute; repeat split; reflexivity.
Qed.

Lemma canonicalCase_valid (s : string) :
  forall upper, allBytes validHeaderFieldByte (canonicalCase upper s)
                = allBytes validHeaderFieldByte s.
Proof.
  induction s as [|c s IH]; intros upper; [reflexivity|].
  cbn [canonicalCase allBytes]. rewrite IH.
  destruct (canonical_byte c) as (_ & _ & _ & _ & Hu & Hl).
  destruct upper; now rewrite ?Hu, ?Hl.
Qed.

Lemma canonicalCase_idempotent (s : string) :
  forall upper, canonicalCase upper (canonicalCase upper s) = canonicalCase upper s.
Proof.
  induction s as [|c s IH]; intros upper; [reflexivity|].
  cbn [canonicalCase].
  destruct (canonical_byte c) as (Huu & Hll & _ & _ & _ & _).
  destruct upper; rewrite ?Huu, ?Hll, IH; reflexivity.
Qed.

Lemma canonicalCase_lowerCase (s : string) :
  forall upper, canonicalCase upper (lowerCase s) = canonicalCase upper s.
Proof.
  induction s as [|c s IH]; intros upper; [reflexivity|].
  cbn [canonicalCase lowerCase].
  destruct (canonical_byte c) as (_ & Hll & Hul & _ & _ & _).
  destruct upper; rewrite ?Hul, ?Hll, IH; reflexivity.
Qed.

Lemma lowerCase_valid (s : string) :
  allBytes validHeaderFieldByte (lowerCase s) = allBytes validHeaderFieldByte s.
Proof.
  induction s as [|c s IH]; [reflexivity|].
  cbn [lowerCase allBytes]. rewrite IH.
  destruct (canonical_byte c) as (_ & _ & _ & _ & _ & Hl). now rewrite Hl.
Qed.

(** X14. Header items whose names differ in the case of their letters
    only gather under one key: [httpHeader] files the value under the
    canonical form of the name, which is the same for both names and is
    itself canonical.  This holds for names of token characters; a name
    with another byte, a space say, is kept as it is written. *)
Theorem httpHeader_canonical :
  (forall s, CanonicalMIMEHeaderKey (CanonicalMIMEHeaderKey s) = CanonicalMIMEHeaderKey s)
  /\ (forall s1 s2,
       allBytes validHeaderFieldByte s1 = true ->
       lowerCase s1 = lowerCase s2 ->
       CanonicalMIMEHeaderKey s1 = CanonicalMIMEHeaderKey s2
       /\ forall req p v reads,
            exists req',
              httpHeader req p s1 v reads = (Ok req', reads)
              /\ index (header req') (CanonicalMIMEHeaderKey s2)
                 = index (header req) (CanonicalMIMEHeaderKey s2) ++ [v]
              /\ Header_Get (header req') s2
                 = default v (head (index (header req) (CanonicalMIMEHeaderKey s2))))
  /\ (forall s, allBytes validHeaderFieldByte s = false -> CanonicalMIMEHeaderKey s = s).
Proof.
  split; [|split].
  - intros s. unfold CanonicalMIMEHeaderKey.
    destruct (allBytes validHeaderFieldByte s) eqn:Hv.
    + now rewrite canonicalCase_valid, Hv, canonicalCase_idempotent.
    + now rewrite Hv.
  - intros s1 s2 Hv Hl.
    assert (Heq : CanonicalMIMEHeaderKey s1 = CanonicalMIMEHeaderKey s2).
    { unfold CanonicalMIMEHeaderKey.
      assert (Hv2 : allBytes validHeaderFieldByte s2 = true)
        by now rewrite <- lowerCase_valid, <- Hl, lowerCase_valid.
      rewrite Hv, Hv2.
      now rewrite <- (canonicalCase_lowerCase s1), Hl, canonicalCase_lowerCase. }
    split; [assumption|]. intros req p v reads.
    eexists. split; [reflexivity|]. cbn [header set_header].
    unfold Header_Add, Header_Get. rewrite Heq, index_insert_eq.
    split; [reflexivity|].
    now destruct (index (header req) (CanonicalMIMEHeaderKey s2)).
  - intros s Hv. unfold CanonicalMIMEHeaderKey. now rewrite Hv.
Qed.

(** The names [content-type] and [CONTENT-TYPE]. *)
Lemma httpHeader_canonical_witness :
  allBytes validHeaderFieldByte "content-type" = true
  /\ lowerCase "content-type" = lowerCase "CONTENT-TYPE"
  /\ CanonicalMIMEHeaderKey "content-type" = "Content-Type"
  /\ CanonicalMIMEHeaderKey "content-type" = CanonicalMIMEHeaderKey "CONTENT-TYPE"
  /\ allBytes validHeaderFieldByte "x y" = false
  /\ CanonicalMIMEHeaderKey "x y" = "x y".
Proof.
  split; [reflexivity|]. split; [reflexivity|]. split; [reflexivity|].
  split; [|split; [reflexivity|]].
  - apply (proj1 (proj2 httpHeader_canonical) "content-type" "CONTENT-TYPE");
      reflexivity.
  - apply (proj2 (proj2 httpHeader_canonical)). reflexivity.
Defined.

(** ** The bytes of an encoded form *)

Lemma countByte_append (c : ascii) (a b : string) :
  countByte c (a +:+ b) = (countByte c a + countByte c b)%nat.
Proof.
  induction a as [|d a IH]; [reflexivity|].
  rewrite append_cons. cbn [countByte]. rewrite IH. lia.
Qed.

Lemma upperhex_safe (n : Z) :
  0 <= n < 16 ->
  Ascii.eqb "&" (upperhex n) = false /\ Ascii.eqb "=" (upperhex n) = false.
Proof.
  intros Hn. rewrite <- (Z2Nat.id n) by lia.
  assert (Hk : (Z.to_nat n < 16)%nat) by lia.
  revert Hk. generalize (Z.to_nat n) as k. intros k Hk.
  do 16 (destruct k as [|k]; [split; reflexivity|]). lia.
Qed.

Lemma QueryEscape_safe (s : string) :
  countByte "&" (QueryEscape s) = 0%nat /\ countByte "=" (QueryEscape s) = 0%nat.
Proof.
  induction s as [|c s [IH1 IH2]]; [split; reflexivity|].
  cbn [QueryEscape]. destruct (shouldEscape c) eqn:Hesc.
  - destruct (Ascii.eqb c " ").
    + cbn [countByte]. rewrite IH1, IH2. split; reflexivity.
    + pose proof (byte_val_range c) as Hr.
      assert (H1 : 0 <= Z.shiftr (byte_val c) 4 < 16).
      { rewrite Z.shiftr_div_pow2 by lia. change (2 ^ 4) with 16.
        split; [apply Z.div_pos; lia|apply Z.div_lt_upper_bound; lia]. }
      assert (H2 : 0 <= Z.land (byte_val c) 15 < 16).
      { change 15 with (Z.ones 4). rewrite Z.land_ones by lia.
        change (2 ^ 4) with 16. apply Z.mod_pos_bound. lia. }
      destruct (upperhex_safe _ H1) as [Ha1 Ha2].
      destruct (upperhex_safe _ H2) as [Hb1 Hb2].
      cbn [countByte]. rewrite Ha1, Ha2, Hb1, Hb2, IH1, IH2. split; reflexivity.
  - cbn [countByte]. rewrite IH1, IH2.
    assert (Ascii.eqb "&" c = false /\ Ascii.eqb "=" c = false) as [-> ->];
      [|split; reflexivity].
    split; apply Ascii.eqb_neq; intros <-; discriminate Hesc.
Qed.

Lemma writeField_count (ke buf v : string) :
  countByte "=" ke = 0%nat -> countByte "&" ke = 0%nat ->
  countByte "=" (writeField ke buf v) = S (countByte "=" buf)
  /\ countByte "&" (writeField ke buf v)
     = (countByte "&" buf + if (0 <? String.length buf)%nat then 1 else 0)%nat
  /\ (0 <? String.length (writeField ke buf v))%nat = true.
Proof.
  intros He Ha. unfold writeField.
  destruct (QueryEscape_safe v) as [Hv1 Hv2].
  destruct (0 <? String.length buf)%nat eqn:Hb;
    rewrite !countByte_append, ?He, ?Ha, ?Hv1, ?Hv2; cbn [countByte Ascii.eqb];
    repeat split; try (simpl; lia);
    apply Nat.ltb_lt; rewrite !length_append; simpl; lia.
Qed.

Lemma encodeFields_count (fs : list (string * string)) :
  forall buf,
  let out := fold_left (fun buf f => writeField (QueryEscape (fst f)) buf (snd f)) fs buf in
  countByte "=" out = (countByte "=" buf + length fs)%nat
  /\ (countByte "&" out + (if (0 <? String.length buf)%nat then 0 else
                           if fs is [] then 0 else 1)
      = countByte "&" buf + length fs)%nat.
Proof.
  induction fs as [|[k v] fs IH]; intros buf; cbn [fold_left length fst snd].
  - cbv zeta. split; [lia|]. destruct (0 <? String.length buf)%nat; lia.
  - destruct (QueryEscape_safe k) as [Hk1 Hk2].
    destruct (writeField_count (QueryEscape k) buf v Hk2 Hk1) as (H1 & H2 & H3).
    specialize (IH (writeField (QueryEscape k) buf v)). cbv zeta in *.
    destruct IH as [IH1 IH2]. rewrite H3 in IH2. rewrite IH1, H1.
    split; [lia|]. rewrite H2 in IH2.
    destruct (0 <? String.length buf)%nat; lia.
Qed.

(** X15. The body of a request with form fields falls apart into its
    fields again: [url.Values.Encode] escapes every [&] and [=] of the
    keys and the values, so the body has one [=] for each field and one
    [&] between two fields, whatever bytes the items hold. *)
Theorem form_body_separators `{Env} (req : request) (stdin : option (option string)) :
  form req <> ∅ ->
  exists hr,
    do req stdin = Ok hr
    /\ Body hr = Encode (form req)
    /\ countByte "=" (Body hr) = length (fields (form req))
    /\ countByte "&" (Body hr) = (length (fields (form req)) - 1)%nat
    /\ forall s, countByte "&" (QueryEscape s) = 0%nat
                 /\ countByte "=" (QueryEscape s) = 0%nat.
Proof.
  intros Hne. destruct (do_form_Content_Type req stdin Hne) as (hr & Hdo & _ & _ & Hb).
  exists hr. split; [assumption|]. split; [assumption|].
  rewrite Hb, Encode_fields. unfold encodeFields.
  destruct (encodeFields_count (fields (form req)) "") as [H1 H2]. cbv zeta in *.
  cbn [countByte String.length Nat.ltb Nat.leb] in *.
  split; [lia|]. split; [|exact QueryEscape_safe].
  destruct (fields (form req)); simpl in *; lia.
Qed.

(** A key with [&] and a value with [=]. *)
Lemma form_body_separators_witness :
  exists hr,
    do (H := exampleEnv)
       (set_form (emptyRequest (exampleParams false))
                 (Values_Add (Values_Add ∅ "a&b" "1=2") "c" "3")) None = Ok hr
    /\ Body hr = "a%26b=1%3D2&c=3"
    /\ countByte "=" (Body hr) = 2%nat
    /\ countByte "&" (Body hr) = 1%nat.
Proof.
  assert (Hne : form (set_form (emptyRequest (exampleParams false))
                        (Values_Add (Values_Add ∅ "a&b" "1=2") "c" "3")) <> ∅)
    by apply insert_non_empty.
  destruct (form_body_separators (H := exampleEnv) _ None Hne)
    as (hr & Hdo & Hb & Heq & Hamp & _).
  exists hr. split; [exact Hdo|]. split; [rewrite Hb; vm_compute; reflexivity|].
  split; [rewrite Heq|rewrite Hamp]; vm_compute; reflexivity.
Defined.

(** ** Sending the request: errors, standard input *)

Section Sending.
Context `{Env}.

Lemma len_pos_iff {V : Type} (m : gmap string V) :
  (0 <? len m)%nat = true <-> m <> ∅.
Proof.
  unfold len. rewrite Nat.ltb_lt. split.
  - intros Hs ->. rewrite map_size_empty in Hs. lia.
  - intros Hne. destruct (size m) eqn:Hs; [|lia].
    now apply map_size_empty_iff in Hs.
Qed.

Lemma len_zero_iff {V : Type} (m : gmap string V) :
  (0 <? len m)%nat = false <-> m = ∅.
Proof.
  unfold len. rewrite Nat.ltb_ge. split.
  - intros Hs. apply map_size_empty_iff. lia.
  - intros ->. now rewrite map_size_empty.
Qed.

Lemma noStdinMethod_spec (m : string) :
  (negb (String.eqb m "GET") && negb (String.eqb m "HEAD")) = negb (noStdinMethod m).
Proof. unfold noStdinMethod. now rewrite negb_orb. Qed.

Lemma do_Err_iff (req : request) (stdin : option (option string)) (e : error) :
  do req stdin = Err e <->
     (form req = ∅ /\ jsonObj req <> ∅ /\ Marshal (jsonObj req) = None
      /\ e = errMarshalJSON)
     \/ (form req = ∅ /\ jsonObj req = ∅ /\ noStdinMethod (req_method req) = false
         /\ stdin = Some None /\ e = errReadStdin).
Proof.
  unfold do. rewrite noStdinMethod_spec.
    destruct (0 <? len (form req))%nat eqn:Hf.
    { apply len_pos_iff in Hf. split; [discriminate|].
      intros [(Hf' & _)|(Hf' & _)]; contradiction. }
    apply len_zero_iff in Hf.
    destruct (0 <? len (jsonObj req))%nat eqn:Hj.
    { apply len_pos_iff in Hj. destruct (Marshal (jsonObj req)) eqn:Hm.
      - split; [discriminate|].
        intros [(_ & _ & Hm' & _)|(_ & Hj' & _)]; [discriminate|contradiction].
      - split.
        + intros [= <-]. left. repeat split; assumption.
        + intros [(_ & _ & _ & ->)|(_ & Hj' & _)]; [reflexivity|contradiction]. }
    apply len_zero_iff in Hj.
    destruct (noStdinMethod (req_method req)) eqn:Hm; cbn [negb].
    { split; [discriminate|].
      intros [(_ & Hj' & _)|(_ & _ & Hm' & _)]; [contradiction|discriminate]. }
    destruct stdin as [[data|]|].
    - split; [discriminate|].
      intros [(_ & Hj' & _)|(_ & _ & _ & Hs & _)]; [contradiction|discriminate].
    - split.
      + intros [= <-]. right. repeat split; assumption.
      + intros [(_ & Hj' & _)|(_ & _ & _ & _ & ->)]; [contradiction|reflexivity].
    - split; [discriminate|].
      intros [(_ & Hj' & _)|(_ & _ & _ & Hs & _)]; [contradiction|discriminate].
Qed.

(** X16. [do] fails before the request is sent in two cases only: the
    JSON object cannot be marshalled, or standard input, which is read only
    when there are no form fields, no JSON fields and the method is neither
    GET nor HEAD, cannot be read.  A request with form fields never fails
    there, and without a reader for standard input only marshalling can
    fail. *)
Theorem do_errors (req : request) (stdin : option (option string)) (e : error) :
  (do req stdin = Err e <->
     (form req = ∅ /\ jsonObj req <> ∅ /\ Marshal (jsonObj req) = None
      /\ e = errMarshalJSON)
     \/ (form req = ∅ /\ jsonObj req = ∅ /\ noStdinMethod (req_method req) = false
         /\ stdin = Some None /\ e = errReadStdin))
  /\ (form req <> ∅ -> do req stdin <> Err e)
  /\ (noStdinMethod (req_method req) = true -> jsonObj req = ∅ -> do req stdin <> Err e).
Proof.
  split; [apply do_Err_iff|]. split.
  - intros Hf [(Hf' & _)|(Hf' & _)]%do_Err_iff; contradiction.
  - intros Hm Hj [(_ & Hj' & _)|(_ & _ & Hm' & _)]%do_Err_iff; [contradiction|congruence].
Qed.

(** X17. Whatever [do] hands over has the method of the request, HTTP/1.1
    as its protocol and the byte length of its body as content length; the
    scheme, the host and the path of the URL are those of the request.
    The header is the header of the request, but for [Content-Type] when
    there are form fields: no other key is added, removed or changed. *)
Theorem do_frame (req : request) (stdin : option (option string)) (hr : httpRequest) :
  do req stdin = Ok hr ->
  Method hr = req_method req
  /\ (Proto hr = "HTTP/1.1" /\ ProtoMajor hr = 1 /\ ProtoMinor hr = 1)
  /\ ContentLength hr = Z.of_nat (String.length (Body hr))
  /\ (Scheme (URL_ hr) = Scheme (req_url req) /\ Host (URL_ hr) = Host (req_url req)
      /\ Path (URL_ hr) = Path (req_url req))
  /\ (form req = ∅ -> Header_ hr = header req)
  /\ (forall k, k <> "Content-Type" -> Header_ hr !! k = header req !! k).
Proof.
  intros Hdo. pose proof (do_URL _ _ _ Hdo) as Hurl.
  assert (Hparts : Scheme (URL_ hr) = Scheme (req_url req)
                   /\ Host (URL_ hr) = Host (req_url req)
                   /\ Path (URL_ hr) = Path (req_url req)).
  { rewrite Hurl. destruct (0 <? len (urlValues req))%nat; repeat split; reflexivity. }
  clear Hurl. unfold do in Hdo.
  destruct (0 <? len (form req))%nat eqn:Hf.
  - apply len_pos_iff in Hf. injection Hdo as <-. cbn.
    repeat split; try apply Hparts; try reflexivity.
    + intros Hf'. contradiction.
    + intros k Hk. unfold Header_Set.
      change (CanonicalMIMEHeaderKey "Content-Type") with "Content-Type".
      now rewrite lookup_insert_ne.
  - destruct (0 <? len (jsonObj req))%nat.
    + destruct (Marshal (jsonObj req)); [|discriminate].
      injection Hdo as <-. cbn. repeat split; try apply Hparts; reflexivity.
    + destruct (negb (String.eqb (req_method req) "GET")
                && negb (String.eqb (req_method req) "HEAD")).
      * destruct stdin as [[data|]|]; [| discriminate |];
          injection Hdo as <-; cbn; repeat split; try apply Hparts; reflexivity.
      * injection Hdo as <-; cbn; repeat split; try apply Hparts; reflexivity.
Qed.

Lemma do_body_no_fields (req : request) (stdin : option (option string))
    (hr : httpRequest) :
  form req = ∅ -> jsonObj req = ∅ ->
  do req stdin = Ok hr ->
  Body hr = (if noStdinMethod (req_method req) then ""
             else match stdin with Some (Some data) => data | _ => "" end)
  /\ Header_ hr = header req
  /\ ContentLength hr = Z.of_nat (String.length (Body hr)).
Proof.
  intros Hf Hj. unfold do. rewrite noStdinMethod_spec.
  apply len_zero_iff in Hf, Hj. rewrite Hf, Hj.
  destruct (noStdinMethod (req_method req)); cbn [negb].
  - now intros [= <-].
  - destruct stdin as [[data|]|]; [| discriminate |]; now intros [= <-].
Qed.

(** X18. A request built with [--stdin] is sent with the data of standard
    input as its body, byte for byte, and with the header that
    [newRequest] built -- unless its method is GET or HEAD: then the body
    is empty and standard input is not read, so that an unreadable
    standard input does no harm. *)
Theorem stdin_body (fv : flagValues) (args : list string) (req : request) (p : params)
    (reads reads' : list string) :
  newRequest fv args reads = (Ok (req, p), reads') ->
  useStdin p = true ->
  (forall data, exists hr,
     do req (Some (Some data)) = Ok hr
     /\ Body hr = (if noStdinMethod (method p) then "" else data)
     /\ Header_ hr = header req)
  /\ (noStdinMethod (method p) = true ->
      exists hr, do req (Some None) = Ok hr /\ Body hr = "")
  /\ (noStdinMethod (method p) = false -> do req (Some None) = Err errReadStdin).
Proof.
  intros Hnew Hu.
  pose proof Hnew as (_ & req0 & Hadd & Hstdin & _ & Hf & Hj & _ & Hm)%newRequest_Ok.
  apply addKeyVals_method in Hadd. cbn in Hadd. rewrite Hadd in Hm. clear Hadd.
  rewrite Hu in Hstdin. cbn [andb] in Hstdin.
  apply orb_false_iff in Hstdin as [Hf0 Hj0].
  rewrite <- Hf in Hf0. rewrite <- Hj in Hj0. clear Hf Hj req0.
  apply len_zero_iff in Hf0, Hj0. rewrite <- Hm.
  split; [|split].
  - intros data. destruct (do req (Some (Some data))) as [hr|e] eqn:Hdo.
    + exists hr. split; [reflexivity|]. split.
      * now rewrite (proj1 (do_body_no_fields _ _ _ Hf0 Hj0 Hdo)).
      * apply (do_body_no_fields _ _ _ Hf0 Hj0 Hdo).
    + apply do_Err_iff in Hdo
        as [(_ & Hj' & _)|(_ & _ & _ & Hs & _)]; [contradiction|discriminate].
  - intros Hns. destruct (do req (Some None)) as [hr|e] eqn:Hdo.
    + exists hr. split; [reflexivity|].
      now rewrite (proj1 (do_body_no_fields _ _ _ Hf0 Hj0 Hdo)), Hns.
    + apply do_Err_iff in Hdo
        as [(_ & Hj' & _)|(_ & _ & Hns' & _)]; [contradiction|congruence].
  - intros Hns. apply do_Err_iff. right. repeat split; assumption.
Qed.

Lemma applied_grows (p : params) (req req' : request) (kv : keyVal) :
  applied p req kv req' ->
  (form req <> ∅ -> form req' <> ∅)
  /\ (jsonObj req <> ∅ -> jsonObj req' <> ∅)
  /\ (In (sep kv) ["="; ":="; "=@"; ":=@"] -> form req' <> ∅ \/ jsonObj req' <> ∅).
Proof.
  destruct 1 as [Hs|Hs|data Hj Hs|data Hj Hs|data m Hj Hs Hu]; cbn.
  - repeat split; try tauto. rewrite Hs. cbn. intros [|[|[|[|[]]]]]; discriminate.
  - repeat split; try tauto. rewrite Hs. cbn. intros [|[|[|[|[]]]]]; discriminate.
  - unfold Values_Add. repeat split; try tauto.
    + intros _. apply insert_non_empty.
    + intros _. left. apply insert_non_empty.
  - repeat split; try tauto.
    + intros _. apply insert_non_empty.
    + intros _. right. apply insert_non_empty.
  - repeat split; try tauto.
    + intros _. apply insert_non_empty.
    + intros _. right. apply insert_non_empty.
Qed.

Lemma addKeyVals_grows (p : params) (kvs : list keyVal) :
  forall req req' reads reads',
  addKeyVals req p kvs reads = (Ok req', reads') ->
  (form req <> ∅ \/ jsonObj req <> ∅
   \/ exists kv, In kv kvs /\ In (sep kv) ["="; ":="; "=@"; ":=@"]) ->
  form req' <> ∅ \/ jsonObj req' <> ∅.
Proof.
  induction kvs as [|kv kvs IH]; intros req req' reads reads' Hadd Hne.
  - injection Hadd as <- <-. destruct Hne as [?|[?|(kv & [] & _)]]; tauto.
  - cbn [addKeyVals] in Hadd. apply bind_Ok in Hadd as (req1 & reads1 & H1 & H2).
    apply addKeyVal_applied in H1. apply applied_grows in H1 as (Hf & Hj & Hd).
    eapply IH; [exact H2|].
    destruct Hne as [Hne|[Hne|(kv' & [<-|Hin] & Hsep)]].
    + left; auto.
    + right; left; auto.
    + destruct (Hd Hsep); [left|right; left]; assumption.
    + right; right. exists kv'. split; assumption.
Qed.

(** X19. Without a method argument [--stdin] sends nothing: a request
    built with [--stdin] has no item with [=], [:=], [=@] or [:=@], so the
    method inferred is GET, and [do] sends an empty body without reading
    standard input.  The data of standard input is sent only with a
    method argument other than GET and HEAD. *)
Theorem stdin_needs_method (fv : flagValues) (urlArg : string) (items : list string)
    (req : request) (p : params) (reads reads' : list string) :
  isMethod urlArg = false ->
  newRequest fv (urlArg :: items) reads = (Ok (req, p), reads') ->
  useStdin p = true ->
  (forall kv, In kv (keyVals p) -> In (sep kv) [":"; "=="])
  /\ req_method req = "GET"
  /\ forall stdin, exists hr, do req stdin = Ok hr /\ Body hr = "" /\ ContentLength hr = 0.
Proof.
  intros Hm Hnew Hu.
  pose proof (newRequest_infers_method _ _ _ _ _ _ _ Hm Hnew) as (Hmeth & Hpost & Hget).
  pose proof Hnew as (_ & req0 & Hadd & Hstdin & _ & Hf & Hj & _ & _)%newRequest_Ok.
  rewrite Hu in Hstdin. cbn [andb] in Hstdin.
  apply orb_false_iff in Hstdin as [Hf0 Hj0]. apply len_zero_iff in Hf0, Hj0.
  assert (Hitems : forall kv, In kv (keyVals p) -> In (sep kv) [":"; "=="]).
  { intros kv Hin.
    pose proof (addKeyVals_separators _ _ _ _ _ _ Hadd kv Hin) as Hsep.
    destruct (in_dec string_dec (sep kv) ["="; ":="; "=@"; ":=@"]) as [Hd|Hd].
    - exfalso.
      destruct (addKeyVals_grows _ _ _ _ _ _ Hadd) as [Hne|Hne]; try contradiction.
      right; right. exists kv. split; assumption.
    - cbn in Hsep, Hd. cbn. tauto. }
  assert (Hg : req_method req = "GET") by (rewrite Hmeth; now apply Hget).
  split; [exact Hitems|]. split; [exact Hg|].
  intros stdin. rewrite <- Hf in Hf0. rewrite <- Hj in Hj0.
  destruct (do req stdin) as [hr|e] eqn:Hdo.
  - exists hr. split; [reflexivity|].
    pose proof (do_body_no_fields _ _ _ Hf0 Hj0 Hdo) as (Hb & _ & ->).
    rewrite Hg in Hb. cbn in Hb.
    split; [assumption|]. now rewrite Hb.
  - apply do_Err_iff in Hdo
      as [(_ & Hj' & _)|(_ & _ & Hns & _)]; [contradiction|].
    rewrite Hg in Hns. discriminate.
Qed.

End Sending.

(** A POST request without fields, and a standard input that cannot be
    read. *)
Lemma do_errors_witness :
  noStdinMethod "POST" = false
  /\ do (H := exampleEnv) (emptyRequest (exampleParams false)) (Some None)
     = Err errReadStdin
  /\ do (H := exampleEnv) exampleQueryRequest (Some None) <> Err errReadStdin.
Proof.
  split; [reflexivity|]. split.
  - apply (proj1 (do_errors (H := exampleEnv) (emptyRequest (exampleParams false))
                    (Some None) errReadStdin)).
    right. repeat split; reflexivity.
  - apply (proj2 (proj2 (do_errors (H := exampleEnv) exampleQueryRequest
                           (Some None) errReadStdin))); reflexivity.
Defined.

(** The request of the query example. *)
Lemma do_frame_witness :
  exists hr,
    do (H := exampleEnv) exampleQueryRequest None = Ok hr
    /\ Method hr = "GET" /\ Host (URL_ hr) = "foo.com" /\ Header_ hr = ∅.
Proof.
  destruct (do (H := exampleEnv) exampleQueryRequest None) as [hr|e] eqn:Hdo.
  - exists hr. split; [reflexivity|].
    destruct (do_frame (H := exampleEnv) _ _ _ Hdo)
      as (Hm & _ & _ & (_ & Hh & _) & Hhd & _).
    split; [exact Hm|]. split; [exact Hh|]. apply Hhd. reflexivity.
  - vm_compute in Hdo. discriminate Hdo.
Defined.

(** [--stdin] with the method PUT: the data is the body. *)
Lemma stdin_body_witness :
  exists req p reads' hr,
    newRequest (H := exampleEnv) (withStdin noFlags) ["PUT"; "foo.com"] []
    = (Ok (req, p), reads')
    /\ useStdin p = true
    /\ do (H := exampleEnv) req (Some (Some "some data")) = Ok hr
    /\ Body hr = "some data".
Proof.
  destruct (newRequest (H := exampleEnv) (withStdin noFlags) ["PUT"; "foo.com"] [])
    as [[[req p]|e] reads'] eqn:Hnew.
  - exists req, p, reads'.
    pose proof Hnew as Hrun. vm_compute in Hrun. injection Hrun as <- <- <-.
    destruct (proj1 (stdin_body (H := exampleEnv) _ _ _ _ _ _ Hnew eq_refl) "some data")
      as (hr & Hdo & Hb & _).
    exists hr. split; [reflexivity|]. split; [reflexivity|].
    split; [exact Hdo|exact Hb].
  - vm_compute in Hnew. discriminate Hnew.
Defined.

(** [--stdin] without a method argument: GET, and an empty body. *)
Lemma stdin_needs_method_witness :
  exists req p reads' hr,
    isMethod "foo.com" = false
    /\ newRequest (H := exampleEnv) (withStdin noFlags) ["foo.com"; "X-Tag:x"] []
       = (Ok (req, p), reads')
    /\ useStdin p = true
    /\ req_method req = "GET"
    /\ do (H := exampleEnv) req (Some (Some "some data")) = Ok hr
    /\ Body hr = "".
Proof.
  destruct (newRequest (H := exampleEnv) (withStdin noFlags) ["foo.com"; "X-Tag:x"] [])
    as [[[req p]|e] reads'] eqn:Hnew.
  - exists req, p, reads'.
    pose proof Hnew as Hrun. vm_compute in Hrun. injection Hrun as <- <- <-.
    destruct (stdin_needs_method (H := exampleEnv) (withStdin noFlags) "foo.com"
                ["X-Tag:x"] _ _ [] _ eq_refl Hnew eq_refl)
      as (_ & Hm & Hdo).
    destruct (Hdo (Some (Some "some data"))) as (hr & Hrun & Hb & _).
    exists hr. split; [reflexivity|]. split; [reflexivity|]. split; [reflexivity|].
    split; [exact Hm|]. split; [exact Hrun|exact Hb].
  - vm_compute in Hnew. discriminate Hnew.
Defined.

(** ** Showing the response: errors, warnings, what is copied *)

Section Showing.
Context `{Env}.

Lemma quot_100_class (c : Z) : (Z.quot c 100 =? 2) = true <-> 200 <= c <= 299.
Proof.
  rewrite Z.eqb_eq. split.
  - intros Hq. destruct (Z_lt_le_dec c 0) as [Hneg|Hpos].
    + pose proof (Z.quot_opp_l c 100 ltac:(lia)) as Ho.
      pose proof (Z.quot_pos (- c) 100 ltac:(lia) ltac:(lia)). lia.
    + rewrite Z.quot_div_nonneg in Hq by lia.
      pose proof (Z.div_mod c 100 ltac:(lia)).
      pose proof (Z.mod_pos_bound c 100 ltac:(lia)). lia.
  - intros Hc. rewrite Z.quot_div_nonneg by lia.
    symmetry. apply (Z.div_unique c 100 2 (c - 200)); lia.
Qed.

Lemma showResponse_cases (p : params) (resp : response) :
  showResponse p resp =
    let warn1 := if checkStatus p && negb (Z.quot (StatusCode resp) 100 =? 2)
                 then [warnResponseCode (Status resp)] else [] in
    let ctype := Header_Get (resp_Header resp) "Content-Type" in
    let warn2 := if negb (String.eqb ctype "")
                 then match ParseMediaType ctype with
                      | None => [warnInvalidContentType ctype]
                      | Some _ => []
                      end
                 else [] in
    if negb (body p) then (headerBlock p resp, warn1, Ok tt)
    else if negb (isJSONResponse resp) || raw p
    then (headerBlock p resp +:+ resp_Body resp, warn1 ++ warn2, Ok tt)
    else if resp_BodyErr resp then (headerBlock p resp, warn1 ++ warn2, Err errReadBody)
    else match rjson_Indent (resp_Body resp) "" tab with
         | None => (headerBlock p resp +:+ resp_Body resp,
                    warn1 ++ warn2 ++ [warnCannotPrettyPrint], Ok tt)
         | Some indented =>
           (headerBlock p resp +:+ endWithNewline indented, warn1 ++ warn2, Ok tt)
         end.
Proof.
  unfold showResponse, isJSONResponse. cbv zeta.
  destruct (negb (body p)); [reflexivity|].
  destruct (negb (String.eqb (Header_Get (resp_Header resp) "Content-Type") ""));
    [|reflexivity].
  destruct (ParseMediaType (Header_Get (resp_Header resp) "Content-Type")); reflexivity.
Qed.

(** X20. [showResponse] returns an error in one case only: the body is to
    be printed, not raw, the response is taken for JSON, and reading its
    body fails.  Nothing of the body has been written then.  In every
    case what is written starts with the status line and the headers
    (when asked for with [-h]). *)
Theorem showResponse_errors (p : params) (resp : response) :
  (forall e, snd (showResponse p resp) = Err e <->
     e = errReadBody /\ body p = true /\ raw p = false
     /\ isJSONResponse resp = true /\ resp_BodyErr resp = true)
  /\ (forall e, snd (showResponse p resp) = Err e ->
        fst (fst (showResponse p resp)) = headerBlock p resp)
  /\ exists rest, fst (fst (showResponse p resp)) = headerBlock p resp +:+ rest.
Proof.
  rewrite showResponse_cases. cbv zeta.
  destruct (body p); cbn [negb].
  2:{ split; [|split].
      - intros e. split; [discriminate|]. intros (_ & ? & _). discriminate.
      - reflexivity.
      - exists "". cbn [fst]. now rewrite append_nil_r. }
  destruct (isJSONResponse resp); cbn [negb orb].
  2:{ split; [|split].
      - intros e. split; [discriminate|]. intros (_ & _ & _ & ? & _). discriminate.
      - discriminate.
      - eexists. reflexivity. }
  destruct (raw p).
  { split; [|split].
    - intros e. split; [discriminate|]. intros (_ & _ & ? & _). discriminate.
    - discriminate.
    - eexists. reflexivity. }
  destruct (resp_BodyErr resp).
  { split; [|split].
    - intros e. cbn [snd]. split.
      + intros [= <-]. repeat split.
      + intros (-> & _). reflexivity.
    - reflexivity.
    - exists "". cbn [fst]. now rewrite append_nil_r. }
  destruct (rjson_Indent (resp_Body resp) "" tab).
  - split; [|split].
    + intros e. split; [discriminate|]. intros (_ & _ & _ & _ & ?). discriminate.
    + discriminate.
    + eexists. reflexivity.
  - split; [|split].
    + intros e. split; [discriminate|]. intros (_ & _ & _ & _ & ?). discriminate.
    + discriminate.
    + eexists. reflexivity.
Qed.

(** X21. With [--check-status] a warning with the status of the response
    goes to standard error exactly when the status code is outside 200
    to 299 -- whatever else happens to the response -- and it is the first
    diagnostic; without [--check-status] there is no such warning. *)
Theorem showResponse_status_warning (p : params) (resp : response) :
  (forall s, In (warnResponseCode s) (snd (fst (showResponse p resp))) <->
     checkStatus p = true /\ ~ (200 <= StatusCode resp <= 299) /\ s = Status resp)
  /\ (checkStatus p = true -> ~ (200 <= StatusCode resp <= 299) ->
      exists more, snd (fst (showResponse p resp)) = warnResponseCode (Status resp) :: more).
Proof.
  rewrite showResponse_cases. cbv zeta.
  set (ctype := Header_Get (resp_Header resp) "Content-Type").
  set (warn2 := if negb (String.eqb ctype "")
                then match ParseMediaType ctype with
                     | None => [warnInvalidContentType ctype]
                     | Some _ => []
                     end
                else []).
  assert (H2 : forall s, ~ In (warnResponseCode s) warn2).
  { intros s. unfold warn2. destruct (negb (String.eqb ctype "")); [|intros []].
    destruct (ParseMediaType ctype); [intros []|intros [|[]]; discriminate]. }
  assert (H3 : forall s, ~ In (warnResponseCode s) (warn2 ++ [warnCannotPrettyPrint])).
  { intros s [Hin|[Hin|[]]]%in_app_iff; [now apply H2 in Hin|discriminate]. }
  pose proof (quot_100_class (StatusCode resp)) as Hq.
  set (warn1 := if checkStatus p && negb (Z.quot (StatusCode resp) 100 =? 2)
                then [warnResponseCode (Status resp)] else []).
  assert (H1 : forall s, In (warnResponseCode s) warn1 <->
             checkStatus p = true /\ ~ (200 <= StatusCode resp <= 299)
             /\ s = Status resp).
  { intros s. unfold warn1. destruct (checkStatus p); cbn [andb].
    - destruct (Z.quot (StatusCode resp) 100 =? 2); cbn [negb].
      + split; [intros []|]. intros (_ & Hn & _). apply Hn, Hq. reflexivity.
      + split.
        * intros [[= <-]|[]]. repeat split. intros Hc%Hq. discriminate.
        * intros (_ & _ & ->). now left.
    - split; [intros []|]. intros (? & _). discriminate. }
  assert (Hhead : checkStatus p = true -> ~ (200 <= StatusCode resp <= 299) ->
                  warn1 = [warnResponseCode (Status resp)]).
  { intros Hc Hn. unfold warn1. rewrite Hc. cbn [andb].
    destruct (Z.quot (StatusCode resp) 100 =? 2) eqn:Hqq; [|reflexivity].
    exfalso. apply Hn, Hq. reflexivity. }
  assert (Hall : forall rest : list diagnostic,
            (forall s, ~ In (warnResponseCode s) rest) ->
            (forall s, In (warnResponseCode s) (warn1 ++ rest) <->
               checkStatus p = true /\ ~ (200 <= StatusCode resp <= 299)
               /\ s = Status resp)
            /\ (checkStatus p = true -> ~ (200 <= StatusCode resp <= 299) ->
                exists more, warn1 ++ rest = warnResponseCode (Status resp) :: more)).
  { intros rest Hrest. split.
    - intros s. rewrite in_app_iff, <- H1. split; [|tauto].
      intros [?|Hin]; [assumption|]. now apply Hrest in Hin.
    - intros Hc Hn. rewrite (Hhead Hc Hn). eexists. reflexivity. }
  destruct (negb (body p)).
  { cbn [fst snd]. rewrite <- (app_nil_r warn1). apply Hall. intros s []. }
  destruct (negb (isJSONResponse resp) || raw p); [cbn [fst snd]; now apply Hall|].
  destruct (resp_BodyErr resp); [cbn [fst snd]; now apply Hall|].
  destruct (rjson_Indent (resp_Body resp) "" tab); cbn [fst snd]; now apply Hall.
Qed.

(** X22. The body goes to standard output as it is received, after the
    header block and with no error, when it is asked for raw, when the
    response has no [Content-Type], one that does not parse (a warning
    names it) or one that is not [application/json], and when the
    pretty printer refuses it (a warning says so).  With [-B] the header
    block is all that is written. *)
Theorem showResponse_copies_body (p : params) (resp : response) :
  (body p = true ->
   raw p = true \/ isJSONResponse resp = false
   \/ (resp_BodyErr resp = false /\ rjson_Indent (resp_Body resp) "" tab = None) ->
   fst (fst (showResponse p resp)) = headerBlock p resp +:+ resp_Body resp
   /\ snd (showResponse p resp) = Ok tt)
  /\ (body p = true ->
      Header_Get (resp_Header resp) "Content-Type" <> "" ->
      ParseMediaType (Header_Get (resp_Header resp) "Content-Type") = None ->
      isJSONResponse resp = false
      /\ In (warnInvalidContentType (Header_Get (resp_Header resp) "Content-Type"))
            (snd (fst (showResponse p resp))))
  /\ (body p = true -> raw p = false -> isJSONResponse resp = true ->
      resp_BodyErr resp = false -> rjson_Indent (resp_Body resp) "" tab = None ->
      In warnCannotPrettyPrint (snd (fst (showResponse p resp))))
  /\ (body p = false ->
      fst (fst (showResponse p resp)) = headerBlock p resp
      /\ snd (showResponse p resp) = Ok tt).
Proof.
  rewrite showResponse_cases. cbv zeta. split; [|split; [|split]].
  - intros -> Hc. cbn [negb].
    destruct (negb (isJSONResponse resp) || raw p) eqn:Hj; [split; reflexivity|].
    apply orb_false_iff in Hj as [Hj%negb_false_iff Hr].
    destruct Hc as [Hc|[Hc|[Hb Hi]]]; [congruence|congruence|].
    rewrite Hb, Hi. split; reflexivity.
  - intros -> Hne Hp. cbn [negb].
    assert (Hj : isJSONResponse resp = false).
    { unfold isJSONResponse. cbv zeta. rewrite Hp. apply andb_false_r. }
    split; [assumption|]. rewrite Hj, Hp. cbn [negb orb fst snd].
    apply String.eqb_neq in Hne. rewrite Hne. cbn [negb].
    apply in_app_iff. right. now left.
  - intros -> -> -> -> ->. cbn [negb orb fst snd].
    rewrite !in_app_iff. right. right. now left.
  - intros ->. cbn [negb]. split; reflexivity.
Qed.

End Showing.

(** A JSON response whose body cannot be read. *)
Lemma showResponse_errors_witness :
  snd (showResponse (H := exampleEnv) (exampleParams false) brokenResponse)
  = Err errReadBody
  /\ fst (fst (showResponse (H := exampleEnv) (exampleParams false) brokenResponse))
     = headerBlock (exampleParams false) brokenResponse.
Proof.
  assert (Herr : snd (showResponse (H := exampleEnv) (exampleParams false) brokenResponse)
                 = Err errReadBody).
  { apply (proj1 (showResponse_errors (H := exampleEnv) (exampleParams false)
                    brokenResponse) errReadBody).
    repeat split; reflexivity. }
  split; [exact Herr|].
  exact (proj1 (proj2 (showResponse_errors (H := exampleEnv) (exampleParams false)
                         brokenResponse)) errReadBody Herr).
Defined.

(** The status 404 with [--check-status]. *)
Lemma showResponse_status_warning_witness :
  checkStatus (withCheckStatus (exampleParams false)) = true
  /\ ~ (200 <= StatusCode brokenResponse <= 299)
  /\ exists more,
       snd (fst (showResponse (H := exampleEnv) (withCheckStatus (exampleParams false))
                   brokenResponse))
       = warnResponseCode "404 Not Found" :: more.
Proof.
  assert (Hc : ~ (200 <= StatusCode brokenResponse <= 299)) by (cbn; lia).
  split; [reflexivity|]. split; [exact Hc|].
  exact (proj2 (showResponse_status_warning (H := exampleEnv)
                  (withCheckStatus (exampleParams false)) brokenResponse) eq_refl Hc).
Defined.

(** A response of type text. *)
Lemma showResponse_copies_body_witness :
  body (exampleParams false) = true
  /\ isJSONResponse (H := exampleEnv) (textResponse "hello") = false
  /\ fst (fst (showResponse (H := exampleEnv) (exampleParams false) (textResponse "hello")))
     = "hello"
  /\ snd (showResponse (H := exampleEnv) (exampleParams false) (textResponse "hello"))
     = Ok tt.
Proof.
  assert (Hj : isJSONResponse (H := exampleEnv) (textResponse "hello") = false)
    by (vm_compute; reflexivity).
  split; [reflexivity|]. split; [exact Hj|].
  exact (proj1 (showResponse_copies_body (H := exampleEnv) (exampleParams false)
                  (textResponse "hello")) eq_refl (or_intror (or_introl Hj))).
Defined.


(** ** The lines of the headers *)

Lemma fold_left_lines (fs : list (string * string)) :
  forall out,
  fold_left (fun out f => out +:+ fst f +:+ ": " +:+ snd f +:+ newline) fs out
  = out +:+ concatStrings (map headerLineText fs).
Proof.
  induction fs as [|f fs IH]; intros out; cbn [fold_left map concatStrings].
  - now rewrite append_nil_r.
  - rewrite IH. unfold headerLineText. now rewrite !append_assoc.
Qed.

Lemma fold_left_pairs {C : Type} (f : C -> string * string -> C) (k : string)
    (l : list string) :
  forall c, fold_left f (map (pair k) l) c = fold_left (fun c v => f c (k, v)) l c.
Proof. induction l as [|v l IH]; intros c; [reflexivity|]. cbn. apply IH. Qed.

Lemma printHeaders_fold (h : Header) (ks : list string) :
  forall out,
  fold_left (fun out k =>
               fold_left (fun out attr => out +:+ k +:+ ": " +:+ attr +:+ newline)
                         (index h k) out) ks out
  = fold_left (fun out f => out +:+ fst f +:+ ": " +:+ snd f +:+ newline)
              (flat_map (fun k => map (pair k) (index h k)) ks) out.
Proof.
  induction ks as [|k ks IH]; intros out; [reflexivity|].
  cbn [fold_left flat_map]. rewrite fold_left_app, fold_left_pairs. apply IH.
Qed.

(** X23. [printHeaders] writes one line [name: value] for every value of
    the header, the lines in ascending order of the names and the values
    of one name in their order in the header. *)
Theorem printHeaders_lines (h : Header) :
  printHeaders h = concatStrings (map headerLineText (fields h))
  /\ StronglySorted (fun a b => String.le (fst a) (fst b)) (fields h)
  /\ (forall k, map snd (withKey k (fields h)) = index h k)
  /\ (forall k v, In (k, v) (fields h) <-> In v (index h k)).
Proof.
  split; [|split; [|split]].
  - unfold printHeaders, fields.
    rewrite printHeaders_fold, fold_left_lines. apply append_empty_l.
  - apply fields_sorted.
  - apply fields_withKey.
  - intros k v. rewrite <- (fields_withKey h k). unfold withKey. split.
    + intros Hin. apply in_map_iff. exists (k, v). split; [reflexivity|].
      apply filter_In. split; [assumption|]. apply String.eqb_refl.
    + intros ([k' v'] & Hv & [Hin Hk]%filter_In)%in_map_iff. cbn in Hv, Hk.
      apply String.eqb_eq in Hk. now subst.
Qed.

(** ** The exit status *)

Section Program.
Context `{Env}.

Lemma quot_100_zero (c : Z) : Z.quot c 100 = 0 <-> -99 <= c <= 99.
Proof.
  split.
  - intros Hq. destruct (Z_lt_le_dec c 0) as [Hneg|Hpos].
    + pose proof (Z.quot_opp_l c 100 ltac:(lia)) as Ho.
      rewrite Hq in Ho. rewrite Z.quot_div_nonneg in Ho by lia.
      pose proof (Z.div_mod (- c) 100 ltac:(lia)).
      pose proof (Z.mod_pos_bound (- c) 100 ltac:(lia)). lia.
    + rewrite Z.quot_div_nonneg in Hq by lia.
      pose proof (Z.div_mod c 100 ltac:(lia)).
      pose proof (Z.mod_pos_bound c 100 ltac:(lia)). lia.
  - intros Hc. destruct (Z_lt_le_dec c 0) as [Hneg|Hpos].
    + pose proof (Z.quot_opp_l c 100 ltac:(lia)) as Ho.
      rewrite (Z.quot_small (- c) 100) in Ho by lia. lia.
    + apply Z.quot_small. lia.
Qed.

(** X24. Once the flags are parsed, the program exits with code 2 exactly
    when the request cannot be built from the arguments: then no request
    is sent and nothing is written to standard output; [main0] prints the
    usage message for the usage error only.  A request is sent only after every file of
    the items has been read. *)
Theorem main0_exit_2 (w : world) (fv : flagValues) (args : list string) :
  (exitStatus (end_ (main0 w fv args)) = 2 <->
     exists e, fst (newRequest fv args []) = Err e)
  /\ (exitStatus (end_ (main0 w fv args)) = 2 ->
      sent (main0 w fv args) = None /\ stdout (main0 w fv args) = "")
  /\ (usage (main0 w fv args) = true <-> fst (newRequest fv args []) = Err errUsage)
  /\ (forall hr, sent (main0 w fv args) = Some hr ->
      exists req p,
        newRequest fv args [] = (Ok (req, p), filesRead (main0 w fv args))
        /\ filesRead (main0 w fv args) = map val (List.filter fromFile (keyVals p))
        /\ do req (if useStdin p then Some (os_Stdin w) else None) = Ok hr).
Proof.
  unfold main0.
  destruct (newRequest fv args []) as [[[req p]|e] reads] eqn:Hnew; cbn [fst].
  2:{ cbn. split; [|split; [|split]].
      - split; [eauto|reflexivity].
      - split; reflexivity.
      - destruct e; split; try discriminate; reflexivity.
      - discriminate. }
  assert (Hno : ~ exists e : error, @Ok (request * params) (req, p) = Err e)
    by (intros [e He]; discriminate).
  assert (Hreads : reads = map val (List.filter fromFile (keyVals p))).
  { apply newRequest_Ok in Hnew as (_ & req0 & Hadd & _).
    now apply addKeyVals_reads in Hadd. }
  destruct (newClient_ok w p); cbn [negb].
  2:{ cbn. repeat split; try discriminate; try tauto. }
  destruct (do req (if useStdin p then Some (os_Stdin w) else None)) as [hr|e] eqn:Hdo.
  2:{ cbn. repeat split; try discriminate; try tauto. }
  destruct (client_Do w hr) as [resp|].
  2:{ cbn. split; [|split; [|split]].
      - split; [discriminate|tauto].
      - discriminate.
      - split; discriminate.
      - intros hr' [= <-]. exists req, p. repeat split; assumption. }
  destruct (showResponse p resp) as [[out diags] [[]|e]]; cbn.
  - destruct (checkStatus p && negb (Z.quot (StatusCode resp) 100 =? 2)) eqn:Hc; cbn.
    + apply andb_true_iff in Hc as [_ Hc%negb_true_iff%Z.eqb_neq].
      split; [|split; [|split]].
      * split; [contradiction|tauto].
      * contradiction.
      * split; discriminate.
      * intros hr' [= <-]. exists req, p. repeat split; assumption.
    + split; [|split; [|split]].
      * split; [discriminate|tauto].
      * discriminate.
      * split; discriminate.
      * intros hr' [= <-]. exists req, p. repeat split; assumption.
  - split; [|split; [|split]].
    + split; [discriminate|tauto].
    + discriminate.
    + split; discriminate.
    + intros hr' [= <-]. exists req, p. repeat split; assumption.
Qed.

(** X25. The program exits with code 0 exactly when a response was
    received and shown without error and, with [--check-status], its
    status code is in 200 to 299 -- or below 100 in absolute value, where
    the quotient that becomes the exit code is 0.  With [--check-status]
    a response shown without error and with another status code gives
    the exit code [StatusCode / 100]: 4 for 404, and 1, the exit code of
    an error, for 100 to 199. *)
Theorem main0_exit_status (w : world) (fv : flagValues) (args : list string) :
  (exitStatus (end_ (main0 w fv args)) = 0 <->
     exists req p reads hr resp,
       newRequest fv args [] = (Ok (req, p), reads)
       /\ newClient_ok w p = true
       /\ do req (if useStdin p then Some (os_Stdin w) else None) = Ok hr
       /\ client_Do w hr = Some resp
       /\ snd (showResponse p resp) = Ok tt
       /\ (checkStatus p = false \/ 200 <= StatusCode resp <= 299
           \/ -99 <= StatusCode resp <= 99))
  /\ (forall req p reads hr resp,
       newRequest fv args [] = (Ok (req, p), reads) ->
       newClient_ok w p = true ->
       do req (if useStdin p then Some (os_Stdin w) else None) = Ok hr ->
       client_Do w hr = Some resp ->
       snd (showResponse p resp) = Ok tt ->
       stdout (main0 w fv args) = fst (fst (showResponse p resp))
       /\ exitStatus (end_ (main0 w fv args))
          = if checkStatus p && negb ((200 <=? StatusCode resp) && (StatusCode resp <=? 299))
            then Z.quot (StatusCode resp) 100 else 0).
Proof.
  split.
  - unfold main0.
    destruct (newRequest fv args []) as [[[req p]|e] reads] eqn:Hnew.
    2:{ cbn. split; [discriminate|]. intros (? & ? & ? & ? & ? & ? & _). discriminate. }
    destruct (newClient_ok w p) eqn:Hcl; cbn [negb].
    2:{ cbn. split; [discriminate|].
        intros (? & ? & ? & ? & ? & [= <- <- <-] & ? & _). congruence. }
    destruct (do req (if useStdin p then Some (os_Stdin w) else None)) as [hr|e] eqn:Hdo.
    2:{ cbn. split; [discriminate|].
        intros (? & ? & ? & ? & ? & [= <- <- <-] & _ & ? & _). congruence. }
    destruct (client_Do w hr) as [resp|] eqn:Hresp.
    2:{ cbn. split; [discriminate|].
        intros (? & ? & ? & ? & ? & [= <- <- <-] & _ & ? & ? & _). congruence. }
    destruct (showResponse p resp) as [[out diags] [[]|e]] eqn:Hshow; cbn.
    2:{ split; [discriminate|].
        intros (? & ? & ? & ? & ? & [= <- <- <-] & _ & Hd & Hr & Hs & _).
        rewrite Hdo in Hd. injection Hd as <-. rewrite Hresp in Hr.
        injection Hr as <-. rewrite Hshow in Hs. discriminate. }
    pose proof (quot_100_class (StatusCode resp)) as Hq2.
    pose proof (quot_100_zero (StatusCode resp)) as Hq0.
    split.
    + intros Hex. exists req, p, reads, hr, resp.
      rewrite Hshow. repeat split; try assumption; try reflexivity.
      destruct (checkStatus p); [|now left]. right. cbn [andb] in Hex.
      destruct (Z.quot (StatusCode resp) 100 =? 2) eqn:Hc; cbn in Hex.
      * left. now apply Hq2.
      * right. now apply Hq0.
    + intros (? & ? & ? & ? & ? & [= <- <- <-] & _ & Hd & Hr & _ & Hcode).
      rewrite Hdo in Hd. injection Hd as <-. rewrite Hresp in Hr. injection Hr as <-.
      destruct (checkStatus p); [|reflexivity]. cbn [andb].
      destruct (Z.quot (StatusCode resp) 100 =? 2) eqn:Hc; [reflexivity|]. cbn.
      destruct Hcode as [Hcode|[Hcode|Hcode]]; [discriminate| |now apply Hq0].
      apply Hq2 in Hcode. congruence.
  - intros req p reads hr resp Hnew Hcl Hdo Hresp Hshow. unfold main0.
    rewrite Hnew, Hcl. cbn [negb]. rewrite Hdo, Hresp.
    destruct (showResponse p resp) as [[out diags] r]. cbn in Hshow. subst r.
    cbn. split; [reflexivity|].
    pose proof (quot_100_class (StatusCode resp)) as Hq2.
    assert (Heq : (Z.quot (StatusCode resp) 100 =? 2)
                  = ((200 <=? StatusCode resp) && (StatusCode resp <=? 299))).
    { destruct (Z.quot (StatusCode resp) 100 =? 2).
      - symmetry. apply andb_true_iff. rewrite !Z.leb_le. now apply Hq2.
      - symmetry. apply not_true_is_false. intros Hc.
        apply andb_true_iff in Hc. rewrite !Z.leb_le in Hc.
        apply Hq2 in Hc. discriminate. }
    rewrite Heq. destruct (checkStatus p && negb _); reflexivity.
Qed.

End Program.

(** No argument: the usage error. *)
Lemma main0_exit_2_witness :
  fst (newRequest (H := exampleEnv) noFlags [] []) = Err errUsage
  /\ exitStatus (end_ (main0 (H := exampleEnv) (exampleWorld notFoundResponse) noFlags []))
     = 2
  /\ sent (main0 (H := exampleEnv) (exampleWorld notFoundResponse) noFlags []) = None.
Proof.
  assert (Hnew : fst (newRequest (H := exampleEnv) noFlags [] []) = Err errUsage)
    by reflexivity.
  assert (Hexit : exitStatus (end_ (main0 (H := exampleEnv) (exampleWorld notFoundResponse)
                                      noFlags [])) = 2).
  { apply (proj1 (main0_exit_2 (H := exampleEnv) (exampleWorld notFoundResponse)
                    noFlags [])).
    exists errUsage. exact Hnew. }
  split; [exact Hnew|]. split; [exact Hexit|].
  exact (proj1 (proj1 (proj2 (main0_exit_2 (H := exampleEnv)
                                (exampleWorld notFoundResponse) noFlags [])) Hexit)).
Defined.

(** The response 404 with [--check-status]: the exit status is 4. *)
Lemma main0_exit_status_witness :
  stdout (main0 (H := exampleEnv) (exampleWorld notFoundResponse)
            checkStatusFlags ["foo.com"]) = "not found"
  /\ exitStatus (end_ (main0 (H := exampleEnv) (exampleWorld notFoundResponse)
                         checkStatusFlags ["foo.com"])) = 4.
Proof.
  let r := eval vm_compute in
             (newRequest (H := exampleEnv) checkStatusFlags ["foo.com"] []) in
  lazymatch r with
  | (Ok (?req, ?p), ?reads) =>
    let h := eval vm_compute in (do (H := exampleEnv) req None) in
    lazymatch h with
    | Ok ?hr =>
      apply (proj2 (main0_exit_status (H := exampleEnv) (exampleWorld notFoundResponse)
                      checkStatusFlags ["foo.com"]) req p reads hr notFoundResponse)
    end
  end; vm_compute; reflexivity.
Defined.

(** ** The header lines of the debugging output *)

Lemma ltb_false_le (a b : string) : String.ltb a b = false -> String.le b a.
Proof.
  unfold String.ltb, String.le, String.leb. rewrite (String.compare_antisym a b).
  destruct (String.compare b a); cbn; intros; try discriminate; exact I.
Qed.

Lemma ltb_true_le (a b : string) : String.ltb a b = true -> String.le a b.
Proof.
  unfold String.ltb, String.le, String.leb.
  destruct (String.compare a b); cbn; intros; try discriminate; exact I.
Qed.

Lemma ltb_true_ne (a b : string) : String.ltb a b = true -> a <> b.
Proof.
  unfold String.ltb. intros Hlt ->.
  pose proof (String.compare_antisym b b) as Ha.
  destruct (String.compare b b); cbn in Ha; discriminate.
Qed.

Lemma le_ltb_trans (a b c : string) :
  String.le a b -> String.ltb c a = true -> String.ltb c b = true.
Proof.
  intros Hab Hca. destruct (String.ltb c b) eqn:Hcb; [reflexivity|].
  apply ltb_false_le in Hcb. apply ltb_true_le in Hca as Hca'.
  assert (Hac : String.le a c) by (etransitivity; eassumption).
  assert (a = c) by (apply (anti_symm String.le); assumption).
  subst. now apply ltb_true_ne in Hca.
Qed.

Lemma insertLine_In (x y : string * string) (l : list (string * string)) :
  In y (insertLine x l) <-> y = x \/ In y l.
Proof.
  induction l as [|z l IH]; cbn [insertLine].
  - cbn. intuition congruence.
  - destruct (String.ltb (fst x) (fst z)); cbn [In]; [intuition congruence|].
    rewrite IH. intuition congruence.
Qed.

Lemma insertLine_sorted (x : string * string) (l : list (string * string)) :
  StronglySorted (fun a b => String.le (fst a) (fst b)) l ->
  StronglySorted (fun a b => String.le (fst a) (fst b)) (insertLine x l).
Proof.
  induction 1 as [|y l Hs IH Hall]; cbn [insertLine].
  - repeat constructor.
  - destruct (String.ltb (fst x) (fst y)) eqn:Hlt.
    + constructor; [now constructor|]. constructor; [now apply ltb_true_le|].
      rewrite List.Forall_forall in *. intros z Hz.
      etransitivity; [apply ltb_true_le; eassumption|now apply Hall].
    + constructor; [assumption|]. rewrite List.Forall_forall in *.
      intros z [->|Hz]%insertLine_In; [now apply ltb_false_le|now apply Hall].
Qed.

Lemma withKey_none (k : string) (l : list (string * string)) :
  (forall f, In f l -> fst f <> k) -> withKey k l = [].
Proof.
  intros Hall. unfold withKey. induction l as [|f l IH]; [reflexivity|].
  cbn [List.filter]. destruct (String.eqb (fst f) k) eqn:Hf.
  - apply String.eqb_eq in Hf. exfalso. apply (Hall f); [now left|assumption].
  - apply IH. intros g Hg. apply Hall. now right.
Qed.

Lemma withKey_app (k : string) (l1 l2 : list (string * string)) :
  withKey k (l1 ++ l2) = withKey k l1 ++ withKey k l2.
Proof. apply List.filter_app. Qed.

Lemma withKey_cons (k : string) (f : string * string) (l : list (string * string)) :
  withKey k (f :: l) = if String.eqb (fst f) k then f :: withKey k l else withKey k l.
Proof. reflexivity. Qed.

Lemma insertLine_withKey (x : string * string) (l : list (string * string)) (k : string) :
  StronglySorted (fun a b => String.le (fst a) (fst b)) l ->
  withKey k (insertLine x l) = withKey k (l ++ [x]).
Proof.
  induction 1 as [|y l Hs IH Hall]; cbn [insertLine]; [reflexivity|].
  destruct (String.ltb (fst x) (fst y)) eqn:Hlt.
  - rewrite withKey_app, (withKey_cons k x (y :: l)).
    change (withKey k [x]) with (if String.eqb (fst x) k then [x] else []).
    destruct (String.eqb (fst x) k) eqn:Hx; [|now rewrite app_nil_r].
    apply String.eqb_eq in Hx. subst k.
    rewrite (withKey_none (fst x) (y :: l)); [reflexivity|].
    rewrite List.Forall_forall in Hall.
    intros z [<-|Hz] Heq.
    + symmetry in Heq. now apply ltb_true_ne in Hlt.
    + apply (le_ltb_trans _ _ (fst x) (Hall z Hz)) in Hlt.
      symmetry in Heq. now apply ltb_true_ne in Hlt.
  - cbn [app]. rewrite !withKey_cons, IH. reflexivity.
Qed.

Lemma sortSliceStable_spec (lines : list (string * string)) :
  StronglySorted (fun a b => String.le (fst a) (fst b)) (sortSliceStable lines)
  /\ forall k, withKey k (sortSliceStable lines) = withKey k lines.
Proof.
  unfold sortSliceStable.
  assert (Hgen : forall acc,
            StronglySorted (fun a b => String.le (fst a) (fst b)) acc ->
            StronglySorted (fun a b => String.le (fst a) (fst b))
              (fold_left (fun sorted x => insertLine x sorted) lines acc)
            /\ forall k, withKey k (fold_left (fun sorted x => insertLine x sorted) lines acc)
                         = withKey k (acc ++ lines)).
  { induction lines as [|x lines IH]; intros acc Hacc; cbn [fold_left].
    - rewrite app_nil_r. split; [assumption|reflexivity].
    - destruct (IH (insertLine x acc) (insertLine_sorted x acc Hacc)) as [Hs Hk].
      split; [assumption|]. intros k.
      rewrite Hk, withKey_app, (insertLine_withKey _ _ _ Hacc), <- withKey_app.
      now rewrite <- app_assoc. }
  apply (Hgen []). constructor.
Qed.

Lemma sorted_withKey_unique (l1 : list (string * string)) :
  forall l2,
  StronglySorted (fun a b => String.le (fst a) (fst b)) l1 ->
  StronglySorted (fun a b => String.le (fst a) (fst b)) l2 ->
  (forall k, withKey k l1 = withKey k l2) ->
  l1 = l2.
Proof.
  assert (Hmem : forall (k : string) (f : string * string) l,
            In f (withKey k l) <-> In f l /\ fst f = k).
  { intros k f l. unfold withKey. rewrite filter_In, String.eqb_eq. reflexivity. }
  induction l1 as [|a l1 IH]; intros l2 Hs1 Hs2 Hk.
  - destruct l2 as [|b l2]; [reflexivity|].
    specialize (Hk (fst b)). rewrite withKey_cons, String.eqb_refl in Hk. discriminate.
  - destruct l2 as [|b l2].
    { specialize (Hk (fst a)). rewrite withKey_cons, String.eqb_refl in Hk.
      discriminate. }
    apply StronglySorted_inv in Hs1 as [Hs1 Ha].
    apply StronglySorted_inv in Hs2 as [Hs2 Hb].
    rewrite List.Forall_forall in Ha, Hb.
    assert (Hab : String.le (fst a) (fst b)).
    { assert (Hin : In b (a :: l1)).
      { apply (Hmem (fst b)). rewrite Hk. apply Hmem. split; [now left|reflexivity]. }
      destruct Hin as [<-|Hin]; [reflexivity|now apply Ha]. }
    assert (Hba : String.le (fst b) (fst a)).
    { assert (Hin : In a (b :: l2)).
      { apply (Hmem (fst a)). rewrite <- Hk. apply Hmem. split; [now left|reflexivity]. }
      destruct Hin as [<-|Hin]; [reflexivity|now apply Hb]. }
    assert (Hfst : fst a = fst b) by (apply (anti_symm String.le); assumption).
    pose proof (Hk (fst a)) as Hhead.
    rewrite !withKey_cons, <- Hfst, String.eqb_refl in Hhead.
    injection Hhead as <- _. f_equal. apply IH; [assumption|assumption|].
    intros k. specialize (Hk k). rewrite !withKey_cons in Hk.
    destruct (String.eqb (fst a) k); [now injection Hk|assumption].
Qed.

Lemma withKey_snd (k : string) (l1 l2 : list (string * string)) :
  map snd (withKey k l1) = map snd (withKey k l2) -> withKey k l1 = withKey k l2.
Proof.
  assert (Hfst : forall l f, In f (withKey k l) -> fst f = k).
  { intros l f [_ Hf%String.eqb_eq]%filter_In. assumption. }
  pose proof (Hfst l1) as H1. pose proof (Hfst l2) as H2.
  revert H1 H2. generalize (withKey k l1) (withKey k l2). clear.
  induction l as [|[a x] l IH]; intros [|[b y] l'] H1 H2 Hmap; try discriminate;
    [reflexivity|].
  cbn in Hmap. injection Hmap as -> Hmap.
  assert (Ha : a = k) by (apply (H1 (a, y)); now left).
  assert (Hb : b = k) by (apply (H2 (b, y)); now left).
  subst a b. f_equal. apply IH; [| |assumption]; intros f Hf; [apply H1|apply H2]; now right.
Qed.

(** X26. The header lines of the debugging output do not depend on the
    order in which Go ranges over the header: whatever that order, they
    come in ascending order of the names, the values of one name in their
    order in the header -- the lines of [printHeaders]. *)
Theorem sortedHeader_order (order : list string) (h : Header) :
  order ≡ₚ keys h ->
  sortedHeader order h = fields h
  /\ concatStrings (map headerLineText (sortedHeader order h)) = printHeaders h.
Proof.
  intros Hperm.
  assert (Heq : sortedHeader order h = fields h).
  { unfold sortedHeader.
    destruct (sortSliceStable_spec
                (flat_map (fun name => map (pair name) (index h name)) order))
      as [Hsorted Hstable].
    apply sorted_withKey_unique; [assumption|apply fields_sorted|].
    intros k. rewrite Hstable. apply withKey_snd.
    rewrite fields_withKey, withKey_blocks.
    - destruct (decide (k ∈ order)) as [Hin|Hin]; [reflexivity|].
      unfold index. destruct (h !! k) eqn:Hk; [|reflexivity].
      exfalso. apply Hin. rewrite Hperm. apply keys_spec. now exists l.
    - rewrite Hperm. unfold keys. apply NoDup_fst_map_to_list. }
  split; [assumption|]. rewrite Heq.
  unfold printHeaders. rewrite printHeaders_fold, fold_left_lines.
  now rewrite append_empty_l.
Qed.

(** A header with the names [Host] and [Accept], ranged over in that
    order. *)
Lemma sortedHeader_order_witness :
  ["Host"; "Accept"] ≡ₚ keys (Header_Add (Header_Add ∅ "Host" "foo.com") "Accept" "*/*")
  /\ sortedHeader ["Host"; "Accept"]
       (Header_Add (Header_Add ∅ "Host" "foo.com") "Accept" "*/*")
     = [("Accept", "*/*"); ("Host", "foo.com")].
Proof.
  assert (Hperm : ["Host"; "Accept"]
                  ≡ₚ keys (Header_Add (Header_Add ∅ "Host" "foo.com") "Accept" "*/*")).
  { vm_compute. first [reflexivity | apply perm_swap]. }
  split; [exact Hperm|].
  rewrite (proj1 (sortedHeader_order _ _ Hperm)). vm_compute. reflexivity.
Defined.

(** ** The first version of the program: [unquoteKey] *)

Lemma byte_val_byte_of_backslash : (byte_val (byte_of backslash) =? backslash) = true.
Proof. reflexivity. Qed.

Lemma unquoteKey_cons_plain (c : ascii) (rest : string) :
  (byte_val c =? backslash) = false ->
  unquoteKey (String c rest) = String c (unquoteKey rest).
Proof. intros Hc. cbn [unquoteKey]. rewrite Hc. now destruct rest. Qed.

Lemma unquoteKey_escapeKey (k : string) : unquoteKey (escapeKey k) = k.
Proof.
  induction k as [|c k IH]; [reflexivity|].
  cbn [escapeKey].
  destruct (isSepByte c || (byte_val c =? backslash)) eqn:Hesc.
  - cbn [unquoteKey]. rewrite byte_val_byte_of_backslash, IH. reflexivity.
  - apply orb_false_iff in Hesc as [_ Hc].
    now rewrite unquoteKey_cons_plain, IH.
Qed.

Lemma unquoteKey_unescapeBytes (n : nat) :
  forall s o, (String.length s <= n)%nat ->
  pendingFrom false (map snd (bytesFrom s o)) = false ->
  unquoteKey s = unescapeBytes false s.
Proof.
  induction n as [|n IH]; intros s o Hlen Hp.
  - destruct s; [reflexivity|cbn in Hlen; lia].
  - destruct s as [|c rest]; [reflexivity|].
    cbn [bytesFrom map snd pendingFrom unescapeBytes negb] in *.
    rewrite andb_true_r in *.
    destruct (byte_val c =? backslash) eqn:Hc.
    + destruct rest as [|d rest']; [discriminate Hp|].
      cbn [unquoteKey]. rewrite Hc.
      cbn [bytesFrom map snd pendingFrom unescapeBytes negb] in *.
      rewrite andb_false_r in *. f_equal.
      apply (IH rest' (S (S o))); [cbn in Hlen; lia|assumption].
    + rewrite unquoteKey_cons_plain by assumption. f_equal.
      apply (IH rest (S o)); [cbn in Hlen; lia|assumption].
Qed.

Lemma unquoteKey_plain (k : string) :
  allBytes (fun c => negb (byte_val c =? backslash)) k = true -> unquoteKey k = k.
Proof.
  induction k as [|c k IH]; [reflexivity|]. cbn [allBytes].
  intros [Hc%negb_true_iff Hk]%andb_true_iff.
  now rewrite unquoteKey_cons_plain, IH.
Qed.

(** X27. [unquoteKey], the unescaping of the first version of the
    program, undoes the escaping of a key, whatever its bytes, and leaves
    a key without backslash as it is; and it agrees with the parser of the
    later versions: for a request item of ASCII characters that
    [parseKeyVal] accepts, the key is [unquoteKey] of the text before the
    separator. *)
Theorem unquoteKey_agrees :
  (forall k, unquoteKey (escapeKey k) = k)
  /\ (forall k, allBytes (fun c => negb (byte_val c =? backslash)) k = true ->
        unquoteKey k = k)
  /\ (forall s kv, isASCII s = true -> parseKeyVal s = Ok kv ->
        exists raw, s = raw +:+ sep kv +:+ val kv /\ unquoteKey raw = key kv).
Proof.
  split; [exact unquoteKey_escapeKey|]. split; [exact unquoteKey_plain|].
  intros s kv Ha Hparse. unfold parseKeyVal in Hparse.
  apply parseLoop_sound in Hparse
    as (l1 & i & r & l2 & Hr & Hp & _ & _ & Hm & Hk & _ & Hv).
  exists (sliceTo s i). split.
  - apply matchSep_In in Hm as [_ Hsp]. apply HasPrefix_split in Hsp.
    rewrite sliceFrom_sliceFrom in Hsp. rewrite Hv, <- Hsp.
    symmetry. apply sliceTo_sliceFrom.
  - unfold rangeString in Hr. rewrite rangeFrom_ascii in Hr by assumption.
    apply bytesFrom_split in Hr as [_ ->]. rewrite Nat.sub_0_r in Hk, Hp.
    rewrite Hk, append_empty_l.
    rewrite (unescape_bytes _ false 0%nat) by now apply isASCII_sliceTo.
    apply (unquoteKey_unescapeBytes (String.length (sliceTo s i)) _ 0%nat);
      [lia|assumption].
Qed.

(** The item [a\:b=c]. *)
Lemma unquoteKey_agrees_witness :
  unquoteKey "a:b\c" = "a:bc"
  /\ unquoteKey "abc" = "abc"
  /\ exists raw, "a\:b=c" = raw +:+ "=" +:+ "c" /\ unquoteKey raw = "a:b".
Proof.
  split; [reflexivity|]. split.
  - apply (proj1 (proj2 unquoteKey_agrees)). reflexivity.
  - apply (proj2 (proj2 unquoteKey_agrees) "a\:b=c" (KeyVal "a:b" "=" "c"));
      vm_compute; reflexivity.
Defined.
